(** * The axis supervisor of the motor controller (Firmware/MotorControl/axis.cpp)

    A shallow embedding of [Axis]: the watchdog, the step/direction callback,
    the lock-in spin, the control-mode loops and the task-chain state machine,
    with the properties the specification states about them.

    Conventions.
    - The control thread is modelled sequentially.  Everything it cannot decide
      itself (the current-measurement signal, what the sub-components answer,
      what other threads write into [requested_state_]) is read from a tape
      of [Env] records, one record per blocking point.  A run that needs more
      records than the tape holds ends in [OutOfFuel], carrying the state
      reached so far.
    - Every call that leaves axis.cpp, and every assignment to
      [lockin_state_], is appended to a trace of [Event]s, so that "is called
      before" and "never takes the value" are statements about that trace.
    - [float] is abstract ([FloatOps]): the control-flow theorems hold for any
      arithmetic.  The two numeric theorems assume the laws of exact
      arithmetic ([FloatLaws]), of which the canonical rationals are an
      instance; rounding, infinities and NaN are outside the model. *)

From Stdlib Require Import ZArith QArith Qcanon Qcabs Qround Qabs Bool Lia.
From stdpp Require Import base decidable option list.

Open Scope Z_scope.

(* ================================================================== *)
(** ** Arithmetic on [float] *)

(** The operations axis.cpp applies to [float] values.  [fleb x y] is
    [x <= y] (so [a >= b] is [fleb b a]) and [fltb x y] is [x < y].
    [wrap_pm_pi] is the helper of utils.h, [M_PI] the macro of math.h,
    [f_of_Z] the conversion of an integer (and the literals [0.0f], [1.0f],
    [-1.0f], [2]), [f_to_u32] is [static_cast<uint32_t>].  [fneg] is the
    unary minus; axis.cpp does not use it, the statements about
    [-counts_per_step] do. *)
Class FloatOps : Type := {
  float : Type;
  f_of_Z : Z -> float;
  M_PI : float;
  fneg : float -> float;
  fadd : float -> float -> float;
  fmul : float -> float -> float;
  fdiv : float -> float -> float;
  fabsf : float -> float;
  fleb : float -> float -> bool;
  fltb : float -> float -> bool;
  wrap_pm_pi : float -> float;
  f_to_u32 : float -> Z
}.

(** The laws of exact arithmetic the two numeric theorems rest on.  None of
    them mentions rounding: they are the order laws of [<=], monotonicity of
    [+] and [*], the units of [*], and that [wrap_pm_pi] leaves a phase
    within [[-pi, pi]] as it is. *)
Class FloatLaws (F : FloatOps) : Prop := {
  fleb_refl : forall x : float, fleb x x = true;
  fleb_trans : forall x y z : float,
      fleb x y = true -> fleb y z = true -> fleb x z = true;
  fltb_fleb : forall x y : float, fltb x y = true -> fleb x y = true;
  f_0_le_1 : fleb (f_of_Z 0) (f_of_Z 1) = true;
  fadd_nonneg_r : forall x c : float,
      fleb (f_of_Z 0) c = true -> fleb x (fadd x c) = true;
  fmul_mono_r : forall a x y : float,
      fleb (f_of_Z 0) a = true -> fleb x y = true ->
      fleb (fmul a x) (fmul a y) = true;
  fmul_0_r : forall a : float, fmul a (f_of_Z 0) = f_of_Z 0;
  fmul_1_l : forall x : float, fmul (f_of_Z 1) x = x;
  fmul_1_r : forall x : float, fmul x (f_of_Z 1) = x;
  fmul_m1_l : forall x : float, fmul (f_of_Z (-1)) x = fneg x;
  fdiv_pos : forall x y : float,
      fltb (f_of_Z 0) x = true -> fltb (f_of_Z 0) y = true ->
      fltb (f_of_Z 0) (fdiv x y) = true;
  fabsf_nonneg : forall x : float,
      fleb (f_of_Z 0) x = true -> fabsf x = x;
  wrap_pm_pi_id : forall x : float,
      fleb (fabsf x) M_PI = true -> wrap_pm_pi x = x
}.

(* ================================================================== *)
(** ** Enumerations *)

Inductive AxisState : Type :=
| AXIS_STATE_UNDEFINED
| AXIS_STATE_IDLE
| AXIS_STATE_STARTUP_SEQUENCE
| AXIS_STATE_FULL_CALIBRATION_SEQUENCE
| AXIS_STATE_MOTOR_CALIBRATION
| AXIS_STATE_ENCODER_INDEX_SEARCH
| AXIS_STATE_ENCODER_DIR_FIND
| AXIS_STATE_ENCODER_OFFSET_CALIBRATION
| AXIS_STATE_LOCKIN_SPIN
| AXIS_STATE_SENSORLESS_CONTROL
| AXIS_STATE_CLOSED_LOOP_CONTROL
| AXIS_STATE_OPEN_LOOP_CONTROL
| AXIS_STATE_PWM_TEST.

#[global] Instance AxisState_eq_dec : EqDecision AxisState.
Proof. solve_decision. Defined.

Inductive LockinState : Type :=
| LOCKIN_STATE_INACTIVE
| LOCKIN_STATE_RAMP
| LOCKIN_STATE_ACCELERATE
| LOCKIN_STATE_CONST_VEL.

#[global] Instance LockinState_eq_dec : EqDecision LockinState.
Proof. solve_decision. Defined.

(** The pull configuration handed to [GPIO_t::init] (the mode is always
    [GPIO_t::INPUT]). *)
Inductive GpioPull : Type := NO_PULL | PULL_DOWN.

(* ================================================================== *)
(** ** Declarations of the headers

    axis.hpp, odrive_main.h and controller.hpp are not part of the sources
    at hand.  What axis.cpp uses of them is taken as a parameter: the error
    masks of [Axis::Error_t], the control-mode code compared against, the
    measurement rate and period, and the bus-voltage trip levels. *)
Class Header (F : FloatOps) : Type := {
  ERROR_INVALID_STATE : Z;
  ERROR_DC_BUS_UNDER_VOLTAGE : Z;
  ERROR_DC_BUS_OVER_VOLTAGE : Z;
  ERROR_BRAKE_RESISTOR_DISARMED : Z;
  ERROR_MOTOR_DISARMED : Z;
  ERROR_CONTROLLER_FAILED : Z;
  ERROR_POS_CTRL_DURING_SENSORLESS : Z;
  ERROR_WATCHDOG_TIMER_EXPIRED : Z;
  CTRL_MODE_POSITION_CONTROL : Z;
  current_meas_hz : Z;
  current_meas_period : float;
  dc_bus_undervoltage_trip_level : float;
  dc_bus_overvoltage_trip_level : float
}.

Definition UINT32_MAX : Z := 4294967295.

(** Wrap-around of an unsigned 32-bit value. *)
Definition u32 (z : Z) : Z := z mod 2 ^ 32.

(** [ERROR_NONE] is the empty bit set. *)
Definition ERROR_NONE : Z := 0.

Section Model.
Context {F : FloatOps} {H : Header F}.

(* ================================================================== *)
(** ** The axis and its sub-components

    Only the members axis.cpp reads or writes are kept.  Members of the
    same name in different classes carry the class as a prefix. *)

(** [Axis::Config_t::lockin] *)
Record LockinConfig : Type := {
  lockin_current : float;
  lockin_ramp_time : float;
  lockin_ramp_distance : float;
  lockin_accel : float;
  lockin_vel : float;
  lockin_finish_distance : float;
  lockin_finish_on_vel : bool;
  lockin_finish_on_distance : bool;
  lockin_finish_on_enc_idx : bool
}.

(** [Axis::Config_t] *)
Record Config : Type := {
  startup_motor_calibration : bool;
  startup_encoder_index_search : bool;
  startup_encoder_offset_calibration : bool;
  startup_closed_loop_control : bool;
  startup_sensorless_control : bool;
  enable_step_dir : bool;
  counts_per_step : float;
  watchdog_timeout : float;
  lockin : LockinConfig
}.

(** [Motor]: [is_armed_], [phase_setpoint_] and three members of its
    [config_]. *)
Record Motor : Type := {
  is_armed_ : bool;
  phase_setpoint_ : float;
  motor_phase_locked : bool;
  motor_direction : Z;
  motor_pole_pairs : Z
}.

(** [Encoder]: the estimates and flags, and three members of its
    [config_]. *)
Record Encoder : Type := {
  index_found_ : bool;
  is_ready_ : bool;
  pos_estimate_ : float;
  enc_vel_estimate_ : float;
  enc_phase_ : float;
  encoder_use_index : bool;
  encoder_idx_search_unidirectional : bool;
  encoder_cpr : Z
}.

(** [SensorlessEstimator] *)
Record SensorlessEstimator : Type := {
  pll_pos_ : float;
  vel_estimate_ : float;
  phase_ : float
}.

(** [Controller]; [control_mode] is [config_.control_mode] as its integer
    code. *)
Record Controller : Type := {
  pos_setpoint_ : float;
  vel_setpoint_ : float;
  current_setpoint_ : float;
  control_mode : Z
}.

(** [Axis].  [task_chain_] is the array; [current_state_] is a reference to
    its element 0 (see [current_state_] below).  [step_gpio_] and
    [dir_gpio_] are pointers, [None] being [nullptr]. *)
Record Axis : Type := {
  error_ : Z;
  requested_state_ : AxisState;
  task_chain_ : list AxisState;
  lockin_state_ : LockinState;
  step_dir_active_ : bool;
  step_gpio_ : option nat;
  dir_gpio_ : option nat;
  watchdog_reset_value_ : Z;
  watchdog_current_value_ : Z;
  motor_ : Motor;
  encoder_ : Encoder;
  sensorless_estimator_ : SensorlessEstimator;
  controller_ : Controller;
  config_ : Config
}.

(** *** Assignments to single members *)

Definition set_error_ (v : Z) (a : Axis) : Axis :=
  {| error_ := v; requested_state_ := requested_state_ a;
     task_chain_ := task_chain_ a; lockin_state_ := lockin_state_ a;
     step_dir_active_ := step_dir_active_ a; step_gpio_ := step_gpio_ a;
     dir_gpio_ := dir_gpio_ a;
     watchdog_reset_value_ := watchdog_reset_value_ a;
     watchdog_current_value_ := watchdog_current_value_ a;
     motor_ := motor_ a; encoder_ := encoder_ a;
     sensorless_estimator_ := sensorless_estimator_ a;
     controller_ := controller_ a; config_ := config_ a |}.

Definition set_requested_state_ (v : AxisState) (a : Axis) : Axis :=
  {| error_ := error_ a; requested_state_ := v;
     task_chain_ := task_chain_ a; lockin_state_ := lockin_state_ a;
     step_dir_active_ := step_dir_active_ a; step_gpio_ := step_gpio_ a;
     dir_gpio_ := dir_gpio_ a;
     watchdog_reset_value_ := watchdog_reset_value_ a;
     watchdog_current_value_ := watchdog_current_value_ a;
     motor_ := motor_ a; encoder_ := encoder_ a;
     sensorless_estimator_ := sensorless_estimator_ a;
     controller_ := controller_ a; config_ := config_ a |}.

Definition set_task_chain_ (v : list AxisState) (a : Axis) : Axis :=
  {| error_ := error_ a; requested_state_ := requested_state_ a;
     task_chain_ := v; lockin_state_ := lockin_state_ a;
     step_dir_active_ := step_dir_active_ a; step_gpio_ := step_gpio_ a;
     dir_gpio_ := dir_gpio_ a;
     watchdog_reset_value_ := watchdog_reset_value_ a;
     watchdog_current_value_ := watchdog_current_value_ a;
     motor_ := motor_ a; encoder_ := encoder_ a;
     sensorless_estimator_ := sensorless_estimator_ a;
     controller_ := controller_ a; config_ := config_ a |}.

Definition set_lockin_state_ (v : LockinState) (a : Axis) : Axis :=
  {| error_ := error_ a; requested_state_ := requested_state_ a;
     task_chain_ := task_chain_ a; lockin_state_ := v;
     step_dir_active_ := step_dir_active_ a; step_gpio_ := step_gpio_ a;
     dir_gpio_ := dir_gpio_ a;
     watchdog_reset_value_ := watchdog_reset_value_ a;
     watchdog_current_value_ := watchdog_current_value_ a;
     motor_ := motor_ a; encoder_ := encoder_ a;
     sensorless_estimator_ := sensorless_estimator_ a;
     controller_ := controller_ a; config_ := config_ a |}.

Definition set_step_dir_active_ (v : bool) (a : Axis) : Axis :=
  {| error_ := error_ a; requested_state_ := requested_state_ a;
     task_chain_ := task_chain_ a; lockin_state_ := lockin_state_ a;
     step_dir_active_ := v; step_gpio_ := step_gpio_ a;
     dir_gpio_ := dir_gpio_ a;
     watchdog_reset_value_ := watchdog_reset_value_ a;
     watchdog_current_value_ := watchdog_current_value_ a;
     motor_ := motor_ a; encoder_ := encoder_ a;
     sensorless_estimator_ := sensorless_estimator_ a;
     controller_ := controller_ a; config_ := config_ a |}.

Definition set_watchdog_reset_value_ (v : Z) (a : Axis) : Axis :=
  {| error_ := error_ a; requested_state_ := requested_state_ a;
     task_chain_ := task_chain_ a; lockin_state_ := lockin_state_ a;
     step_dir_active_ := step_dir_active_ a; step_gpio_ := step_gpio_ a;
     dir_gpio_ := dir_gpio_ a;
     watchdog_reset_value_ := v;
     watchdog_current_value_ := watchdog_current_value_ a;
     motor_ := motor_ a; encoder_ := encoder_ a;
     sensorless_estimator_ := sensorless_estimator_ a;
     controller_ := controller_ a; config_ := config_ a |}.

Definition set_watchdog_current_value_ (v : Z) (a : Axis) : Axis :=
  {| error_ := error_ a; requested_state_ := requested_state_ a;
     task_chain_ := task_chain_ a; lockin_state_ := lockin_state_ a;
     step_dir_active_ := step_dir_active_ a; step_gpio_ := step_gpio_ a;
     dir_gpio_ := dir_gpio_ a;
     watchdog_reset_value_ := watchdog_reset_value_ a;
     watchdog_current_value_ := v;
     motor_ := motor_ a; encoder_ := encoder_ a;
     sensorless_estimator_ := sensorless_estimator_ a;
     controller_ := controller_ a; config_ := config_ a |}.

Definition set_motor_ (v : Motor) (a : Axis) : Axis :=
  {| error_ := error_ a; requested_state_ := requested_state_ a;
     task_chain_ := task_chain_ a; lockin_state_ := lockin_state_ a;
     step_dir_active_ := step_dir_active_ a; step_gpio_ := step_gpio_ a;
     dir_gpio_ := dir_gpio_ a;
     watchdog_reset_value_ := watchdog_reset_value_ a;
     watchdog_current_value_ := watchdog_current_value_ a;
     motor_ := v; encoder_ := encoder_ a;
     sensorless_estimator_ := sensorless_estimator_ a;
     controller_ := controller_ a; config_ := config_ a |}.

Definition set_encoder_ (v : Encoder) (a : Axis) : Axis :=
  {| error_ := error_ a; requested_state_ := requested_state_ a;
     task_chain_ := task_chain_ a; lockin_state_ := lockin_state_ a;
     step_dir_active_ := step_dir_active_ a; step_gpio_ := step_gpio_ a;
     dir_gpio_ := dir_gpio_ a;
     watchdog_reset_value_ := watchdog_reset_value_ a;
     watchdog_current_value_ := watchdog_current_value_ a;
     motor_ := motor_ a; encoder_ := v;
     sensorless_estimator_ := sensorless_estimator_ a;
     controller_ := controller_ a; config_ := config_ a |}.

Definition set_sensorless_estimator_ (v : SensorlessEstimator) (a : Axis)
  : Axis :=
  {| error_ := error_ a; requested_state_ := requested_state_ a;
     task_chain_ := task_chain_ a; lockin_state_ := lockin_state_ a;
     step_dir_active_ := step_dir_active_ a; step_gpio_ := step_gpio_ a;
     dir_gpio_ := dir_gpio_ a;
     watchdog_reset_value_ := watchdog_reset_value_ a;
     watchdog_current_value_ := watchdog_current_value_ a;
     motor_ := motor_ a; encoder_ := encoder_ a;
     sensorless_estimator_ := v;
     controller_ := controller_ a; config_ := config_ a |}.

Definition set_controller_ (v : Controller) (a : Axis) : Axis :=
  {| error_ := error_ a; requested_state_ := requested_state_ a;
     task_chain_ := task_chain_ a; lockin_state_ := lockin_state_ a;
     step_dir_active_ := step_dir_active_ a; step_gpio_ := step_gpio_ a;
     dir_gpio_ := dir_gpio_ a;
     watchdog_reset_value_ := watchdog_reset_value_ a;
     watchdog_current_value_ := watchdog_current_value_ a;
     motor_ := motor_ a; encoder_ := encoder_ a;
     sensorless_estimator_ := sensorless_estimator_ a;
     controller_ := v; config_ := config_ a |}.

Definition set_is_armed_ (v : bool) (m : Motor) : Motor :=
  {| is_armed_ := v; phase_setpoint_ := phase_setpoint_ m;
     motor_phase_locked := motor_phase_locked m;
     motor_direction := motor_direction m;
     motor_pole_pairs := motor_pole_pairs m |}.

Definition set_phase_setpoint_ (v : float) (m : Motor) : Motor :=
  {| is_armed_ := is_armed_ m; phase_setpoint_ := v;
     motor_phase_locked := motor_phase_locked m;
     motor_direction := motor_direction m;
     motor_pole_pairs := motor_pole_pairs m |}.

Definition set_pos_setpoint_ (v : float) (c : Controller) : Controller :=
  {| pos_setpoint_ := v; vel_setpoint_ := vel_setpoint_ c;
     current_setpoint_ := current_setpoint_ c;
     control_mode := control_mode c |}.

Definition set_vel_setpoint_ (v : float) (c : Controller) : Controller :=
  {| pos_setpoint_ := pos_setpoint_ c; vel_setpoint_ := v;
     current_setpoint_ := current_setpoint_ c;
     control_mode := control_mode c |}.

(** [current_state_] is declared as a reference to [task_chain_[0]]
    ("Note that current_state is a reference to task_chain_[0]").  An empty
    array has no element 0; the default is never read on an array of
    positive length. *)
Definition current_state_ (a : Axis) : AxisState :=
  default AXIS_STATE_UNDEFINED (task_chain_ a !! 0%nat).

(** [current_state_ = s]: element 0 is overwritten, the rest is untouched. *)
Definition set_current_state_ (s : AxisState) (a : Axis) : Axis :=
  set_task_chain_ (<[0%nat := s]> (task_chain_ a)) a.

(* ================================================================== *)
(** ** What the control thread does to the outside, and what it is told *)

(** One entry per call that leaves axis.cpp, in program order.
    [EvLockinState] records an assignment to [lockin_state_], so that the
    values the member takes over time can be read off the trace. *)
Inductive Event : Type :=
| EvWaitCurrentMeas (ok : bool)
| EvEncoderUpdate
| EvEstimatorUpdate
| EvMotorDoChecks
| EvEncoderDoChecks
| EvDisarmMotorPwm
| EvMotorArm (ok : bool)
| EvMotorUpdate (current_setpoint phase phase_vel : float) (ok : bool)
| EvControllerUpdate (pos_estimate vel_estimate : float) (ok : bool)
| EvSetIdxSubscribe (enable : bool)
| EvGpioInit (pin : nat) (pull : GpioPull)
| EvGpioSubscribe (pin : nat)
| EvGpioDeinit (pin : nat)
| EvSubTask (task : AxisState) (ok : bool)
| EvLockinState (s : LockinState).

(** What the surroundings answer at one blocking point of the thread.
    - [wait_ok]: whether [osSignalWait] returned the measurement signal;
    - [ext_request]: a state another thread wrote into [requested_state_]
      while this one was blocked ([None]: nobody wrote);
    - [ext_watchdog_feed]: another thread called [watchdog_feed()];
    - [encoder_now], [estimator_now]: the estimates after [update()];
    - [update_errors], [check_errors], [motor_update_errors],
      [sub_task_errors]: the bits a sub-component raises in [error_]
      through [set_error];
    - [motor_tripped]: the motor disarmed itself;
    - [motor_update_ok], [controller_update_ok], [controller_current]:
      what [Motor::update] and [Controller::update] return;
    - [motor_arm_ok]: what [Motor::arm] returns;
    - [sub_task_ok]: what a whole task of a sub-component returns
      ([run_calibration], [run_index_search], ...);
    - [brake_resistor_enabled], [brake_resistor_armed], [vbus_voltage]:
      the globals [do_checks] reads;
    - [axes]: the global array of both axes as another thread left it. *)
Record Env : Type := {
  wait_ok : bool;
  ext_request : option AxisState;
  ext_watchdog_feed : bool;
  encoder_now : Encoder;
  estimator_now : SensorlessEstimator;
  update_errors : Z;
  check_errors : Z;
  motor_tripped : bool;
  motor_update_ok : bool;
  motor_update_errors : Z;
  controller_update_ok : bool;
  controller_current : float;
  motor_arm_ok : bool;
  sub_task_ok : bool;
  sub_task_errors : Z;
  brake_resistor_enabled : bool;
  brake_resistor_armed : bool;
  vbus_voltage : float;
  axes : Axis * Axis
}.

(** The state a function of [Axis] runs on: the object itself, whether it is
    [axes[0]], and the trace written so far. *)
Record World : Type := {
  self : Axis;
  this_is_axes0 : bool;
  trace : list Event
}.

Definition on_self (f : Axis -> Axis) (w : World) : World :=
  {| self := f (self w); this_is_axes0 := this_is_axes0 w;
     trace := trace w |}.

Definition emit (ev : Event) (w : World) : World :=
  {| self := self w; this_is_axes0 := this_is_axes0 w;
     trace := trace w ++ [ev] |}.

(** The result of running a piece of the thread on a tape.
    - [Ok r w tape]: it returned [r] in state [w], [tape] is what is left;
    - [OutOfFuel w]: the tape ended while it was blocked, in state [w];
    - [Undefined w]: it ran into undefined behaviour (a store outside
      [task_chain_], a call through a null GPIO pointer). *)
Inductive Res (A : Type) : Type :=
| Ok (r : A) (w : World) (tape : list Env)
| OutOfFuel (w : World)
| Undefined (w : World).
Arguments Ok {A} r w tape.
Arguments OutOfFuel {A} w.
Arguments Undefined {A} w.

Definition bind {A B : Type} (m : Res A)
  (k : A -> World -> list Env -> Res B) : Res B :=
  match m with
  | Ok r w tape => k r w tape
  | OutOfFuel w => OutOfFuel w
  | Undefined w => Undefined w
  end.

(** The state a result stopped in, whatever its kind. *)
Definition final_world {A : Type} (m : Res A) : World :=
  match m with
  | Ok _ w _ => w
  | OutOfFuel w => w
  | Undefined w => w
  end.

(** [error_ |= bits] *)
Definition raise_error (bits : Z) (w : World) : World :=
  on_self (fun a => set_error_ (Z.lor (error_ a) bits) a) w.

(** Modelled from the spec: [Axis::check_for_errors] of axis.hpp, "no
    errors latched". *)
Definition check_for_errors (w : World) : bool :=
  error_ (self w) =? ERROR_NONE.

(* ================================================================== *)
(** ** Watchdog *)

(** [Axis::watchdog_feed] *)
Definition watchdog_feed (w : World) : World :=
  on_self (fun a => set_watchdog_current_value_ (watchdog_reset_value_ a) a) w.

(** [Axis::watchdog_check].  The decrement is the unsigned one. *)
Definition watchdog_check (w : World) : bool * World :=
  if watchdog_reset_value_ (self w) =? 0 then (true, w)
  else if 0 <? watchdog_current_value_ (self w) then
    (true,
     on_self (fun a =>
       set_watchdog_current_value_ (u32 (watchdog_current_value_ a - 1)) a) w)
  else (false, raise_error ERROR_WATCHDOG_TIMER_EXPIRED w).

(** [Axis::update_watchdog_settings].  [UINT32_MAX / (current_meas_hz+1)] is
    an integer division whose quotient is converted for the comparison. *)
Definition update_watchdog_settings (w : World) : World :=
  let timeout := watchdog_timeout (config_ (self w)) in
  let reset :=
    if fleb timeout (f_of_Z 0) then 0
    else if fleb (f_of_Z (UINT32_MAX / (current_meas_hz + 1))) timeout
         then UINT32_MAX
         else u32 (f_to_u32 (fmul timeout (f_of_Z current_meas_hz))) in
  watchdog_feed (on_self (set_watchdog_reset_value_ reset) w).

(* ================================================================== *)
(** ** Step/direction input *)

(** [Axis::step_cb].  [dir_pin] is what [dir_gpio_->read()] returns; the
    read goes through [dir_gpio_], which must not be null. *)
Definition step_cb (dir_pin : bool) (w : World) : option World :=
  if step_dir_active_ (self w) then
    match dir_gpio_ (self w) with
    | None => None
    | Some _ =>
      let dir := if dir_pin then f_of_Z 1 else f_of_Z (-1) in
      Some (on_self (fun a =>
        set_controller_
          (set_pos_setpoint_
             (fadd (pos_setpoint_ (controller_ a))
                   (fmul dir (counts_per_step (config_ a))))
             (controller_ a)) a) w)
    end
  else Some w.

Definition gpio_deinit (g : option nat) (w : World) : World :=
  match g with
  | Some pin => emit (EvGpioDeinit pin) w
  | None => w
  end.

(** [Axis::set_step_dir_active] *)
Definition set_step_dir_active (active : bool) (w : World) : World :=
  if active then
    let w :=
      match dir_gpio_ (self w) with
      | Some pin => emit (EvGpioInit pin NO_PULL) w
      | None => w
      end in
    let w :=
      match step_gpio_ (self w) with
      | Some pin => emit (EvGpioSubscribe pin) (emit (EvGpioInit pin PULL_DOWN) w)
      | None => w
      end in
    on_self (set_step_dir_active_ true) w
  else
    let w := on_self (set_step_dir_active_ false) w in
    let w := gpio_deinit (step_gpio_ (self w)) w in
    gpio_deinit (dir_gpio_ (self w)) w.

(* ================================================================== *)
(** ** Checks, updates and the control-loop scaffold *)

(** What other threads and interrupt handlers did while the control thread
    was blocked: a request written into [requested_state_], a call of
    [watchdog_feed], the motor disarming itself, the sibling axis moving on
    (read from [axes] where it is needed). *)
Definition other_threads (e : Env) (w : World) : World :=
  let w := match ext_request e with
           | Some s => on_self (set_requested_state_ s) w
           | None => w
           end in
  let w := if ext_watchdog_feed e then watchdog_feed w else w in
  if motor_tripped e
  then on_self (fun a => set_motor_ (set_is_armed_ false (motor_ a)) a) w
  else w.

(** [Axis::wait_for_current_meas]: blocks in [osSignalWait] and tells
    whether the signal (rather than the timeout) ended the wait. *)
Definition wait_for_current_meas (e : Env) (w : World) : bool * World :=
  (wait_ok e, emit (EvWaitCurrentMeas (wait_ok e)) (other_threads e w)).

(** [Axis::do_updates] *)
Definition do_updates (e : Env) (w : World) : bool * World :=
  let w := on_self (set_encoder_ (encoder_now e)) (emit EvEncoderUpdate w) in
  let w := on_self (set_sensorless_estimator_ (estimator_now e))
                   (emit EvEstimatorUpdate w) in
  let w := raise_error (update_errors e) w in
  (check_for_errors w, w).

(** [Axis::do_checks] *)
Definition do_checks (e : Env) (w : World) : bool * World :=
  let w := if brake_resistor_enabled e && negb (brake_resistor_armed e)
           then raise_error ERROR_BRAKE_RESISTOR_DISARMED w else w in
  let w := if negb (bool_decide (current_state_ (self w) = AXIS_STATE_IDLE))
              && negb (is_armed_ (motor_ (self w)))
           then raise_error ERROR_MOTOR_DISARMED w else w in
  let w := if negb (fleb dc_bus_undervoltage_trip_level (vbus_voltage e))
           then raise_error ERROR_DC_BUS_UNDER_VOLTAGE w else w in
  let w := if negb (fleb (vbus_voltage e) dc_bus_overvoltage_trip_level)
           then raise_error ERROR_DC_BUS_OVER_VOLTAGE w else w in
  let w := emit EvEncoderDoChecks (emit EvMotorDoChecks w) in
  let w := raise_error (check_errors e) w in
  (check_for_errors w, w).

(** A tick body: the lambda handed to [run_control_loop].  It reads what it
    was told this tick, updates the locals [L] it captured by reference and
    the axis, and tells whether the loop goes on. *)
Definition TickBody (L : Type) : Type := Env -> L -> World -> bool * L * World.

(** Modelled from the spec: [Axis::run_control_loop] is a template of
    axis.hpp, which is not among the sources.  Section 4.1 of the
    specification gives the six steps of one round.  [pre_tick] is steps 1
    and 2: wait for the current measurement (a missed signal ends the loop
    unless the axis is in idle), then the pre-tick updates.  It tells
    whether the round goes on to the tick body. *)
Definition pre_tick (e : Env) (w : World) : bool * World :=
  let '(signalled, w) := wait_for_current_meas e w in
  if negb signalled
     && negb (bool_decide (current_state_ (self w) = AXIS_STATE_IDLE))
  then (false, w) else
  let '(updates_ok, w) := do_updates e w in
  if negb updates_ok then (false, w) else (true, w).

(** Modelled from the spec: steps 4 to 6 of a round: the post-tick checks,
    the watchdog, the poll of [requested_state_].  It tells whether the loop
    goes on to another round. *)
Definition post_tick (e : Env) (w : World) : bool * World :=
  let '(checks_ok, w) := do_checks e w in
  if negb checks_ok then (false, w) else
  let '(watchdog_ok, w) := watchdog_check w in
  if negb watchdog_ok then (false, w) else
  if negb (bool_decide (requested_state_ (self w) = AXIS_STATE_UNDEFINED))
  then (false, w)
  else (true, w).

(** Modelled from the spec: one round of [Axis::run_control_loop], on one
    record of the tape: steps 1 and 2, the tick body (step 3, which ends
    the loop by returning false), steps 4 to 6. *)
Definition control_loop_tick {L : Type} (update_handler : TickBody L)
    (e : Env) (l : L) (w : World) : bool * L * World :=
  let '(go, w) := pre_tick e w in
  if negb go then (false, l, w) else
  let '(main_continue, l, w) := update_handler e l w in
  if negb main_continue then (false, l, w) else
  let '(go, w) := post_tick e w in
  (go, l, w).

(** Modelled from the spec: [Axis::run_control_loop], the rounds repeated
    until one of them ends the loop.  It returns the locals the tick body
    captured. *)
Fixpoint run_control_loop {L : Type} (update_handler : TickBody L) (l : L)
    (tape : list Env) (w : World) : Res L :=
  match tape with
  | [] => OutOfFuel w
  | e :: tape =>
    let '(continue, l, w) := control_loop_tick update_handler e l w in
    if continue then run_control_loop update_handler l tape w
    else Ok l w tape
  end.

(** [motor_.update(current_setpoint, phase, phase_vel)] *)
Definition motor_update (e : Env) (current_setpoint phase phase_vel : float)
    (w : World) : bool * World :=
  (motor_update_ok e,
   raise_error (motor_update_errors e)
     (emit (EvMotorUpdate current_setpoint phase phase_vel (motor_update_ok e))
           w)).

(** [controller_.update(pos_estimate, vel_estimate, &current_setpoint)] *)
Definition controller_update (e : Env) (pos_estimate vel_estimate : float)
    (w : World) : bool * float * World :=
  (controller_update_ok e, controller_current e,
   emit (EvControllerUpdate pos_estimate vel_estimate (controller_update_ok e))
        w).

(* ================================================================== *)
(** ** Lock-in spin *)

Definition assign_lockin_state (s : LockinState) (w : World) : World :=
  on_self (set_lockin_state_ s) (emit (EvLockinState s) w).

(** The tick of the ramp: the local [x] is captured by reference. *)
Definition lockin_ramp_tick : TickBody float := fun e x w =>
  let lk := lockin (config_ (self w)) in
  let phase := wrap_pm_pi (fmul (lockin_ramp_distance lk) x) in
  let I_mag := fmul (lockin_current lk) x in
  let x := fadd x (fdiv current_meas_period (lockin_ramp_time lk)) in
  let '(ok, w) := motor_update e I_mag phase (f_of_Z 0) w in
  if negb ok then (false, x, w)
  else (fltb x (f_of_Z 1), x, w).

(** The locals of the spin states. *)
Record Spin : Type := {
  distance : float;
  phase : float;
  vel : float
}.

(** The lambda [spin_done] *)
Definition spin_done (vel_override : bool) (s : Spin) (w : World) : bool :=
  let lk := lockin (config_ (self w)) in
  let done := false in
  let done := if lockin_finish_on_vel lk || vel_override
              then done || fleb (fabsf (lockin_vel lk)) (fabsf (vel s))
              else done in
  let done := if lockin_finish_on_distance lk
              then done || fleb (fabsf (lockin_finish_distance lk))
                                (fabsf (distance s))
              else done in
  let done := if lockin_finish_on_enc_idx lk
              then done || index_found_ (encoder_ (self w))
              else done in
  done.

Definition lockin_accelerate_tick : TickBody Spin := fun e s w =>
  let lk := lockin (config_ (self w)) in
  let vel := fadd (vel s) (fmul (lockin_accel lk) current_meas_period) in
  let distance := fadd (distance s) (fmul vel current_meas_period) in
  let phase := wrap_pm_pi (fadd (phase s) (fmul vel current_meas_period)) in
  let s := {| distance := distance; phase := phase; vel := vel |} in
  let '(ok, w) := motor_update e (lockin_current lk) phase vel w in
  if negb ok then (false, s, w)
  else (negb (spin_done true s w), s, w).

Definition lockin_const_vel_tick : TickBody Spin := fun e s w =>
  let lk := lockin (config_ (self w)) in
  let distance := fadd (distance s) (fmul (vel s) current_meas_period) in
  let phase :=
    wrap_pm_pi (fadd (phase s) (fmul (vel s) current_meas_period)) in
  let s := {| distance := distance; phase := phase; vel := vel s |} in
  let '(ok, w) := motor_update e (lockin_current lk) phase (vel s) w in
  if negb ok then (false, s, w)
  else (negb (spin_done false s w), s, w).

(** [Axis::run_lockin_spin] up to the end of the accelerate loop: the ramp,
    the initial spin state, the acceleration.  It returns the locals as the
    accelerate loop left them. *)
Definition lockin_spin_up (tape : list Env) (w : World) : Res Spin :=
  let w := assign_lockin_state LOCKIN_STATE_RAMP w in
  bind (run_control_loop lockin_ramp_tick (f_of_Z 0) tape w)
    (fun _ w tape =>
       let lk := lockin (config_ (self w)) in
       let distance := lockin_ramp_distance lk in
       let s := {| distance := distance;
                   phase := wrap_pm_pi distance;
                   vel := fdiv distance (lockin_ramp_time lk) |} in
       let w := assign_lockin_state LOCKIN_STATE_ACCELERATE w in
       run_control_loop lockin_accelerate_tick s tape w).

(** [Axis::run_lockin_spin] from the end of the accelerate loop on: the
    index subscription, the constant-velocity state if the spin is not done
    yet, and the reset of [lockin_state_]. *)
Definition lockin_spin_finish (s : Spin) (w : World) (tape : list Env)
  : Res bool :=
  let w := if negb (index_found_ (encoder_ (self w)))
           then emit (EvSetIdxSubscribe true) w else w in
  bind (if negb (spin_done false s w) then
          let w := assign_lockin_state LOCKIN_STATE_CONST_VEL w in
          let s := {| distance := distance s; phase := phase s;
                      vel := lockin_vel (lockin (config_ (self w))) |} in
          run_control_loop lockin_const_vel_tick s tape w
        else Ok s w tape)
    (fun _ w tape =>
       let w := assign_lockin_state LOCKIN_STATE_INACTIVE w in
       Ok (check_for_errors w) w tape).

(** [Axis::run_lockin_spin] *)
Definition run_lockin_spin (tape : list Env) (w : World) : Res bool :=
  bind (lockin_spin_up tape w) lockin_spin_finish.

(* ================================================================== *)
(** ** Control modes *)

(** The tick of [run_sensorless_control_loop].  It captures no local. *)
Definition sensorless_tick : TickBody unit := fun e l w =>
  if CTRL_MODE_POSITION_CONTROL <=? control_mode (controller_ (self w))
  then (false, l, raise_error ERROR_POS_CTRL_DURING_SENSORLESS w)
  else
    let est := sensorless_estimator_ (self w) in
    let '(ok, current_setpoint, w) :=
      controller_update e (pll_pos_ est) (vel_estimate_ est) w in
    if negb ok then (false, l, raise_error ERROR_CONTROLLER_FAILED w)
    else
      let '(ok, w) :=
        motor_update e current_setpoint (phase_ est) (vel_estimate_ est) w in
      if negb ok then (false, l, w) else (true, l, w).

(** [Axis::run_sensorless_control_loop] *)
Definition run_sensorless_control_loop (tape : list Env) (w : World)
  : Res bool :=
  bind (run_control_loop sensorless_tick tt tape w)
    (fun _ w tape => Ok (check_for_errors w) w tape).

Definition two_pi : float := fmul (f_of_Z 2) M_PI.

(** The tick of [run_closed_loop_control_loop] *)
Definition closed_loop_tick : TickBody unit := fun e l w =>
  let enc := encoder_ (self w) in
  let '(ok, current_setpoint, w) :=
    controller_update e (pos_estimate_ enc) (enc_vel_estimate_ enc) w in
  if negb ok then (false, l, raise_error ERROR_CONTROLLER_FAILED w)
  else
    let phase_vel :=
      fmul (fdiv (fmul two_pi (enc_vel_estimate_ enc))
                 (f_of_Z (encoder_cpr enc)))
           (f_of_Z (motor_pole_pairs (motor_ (self w)))) in
    let '(ok, w) := motor_update e current_setpoint (enc_phase_ enc) phase_vel w in
    if negb ok then (false, l, w) else (true, l, w).

(** [Axis::run_closed_loop_control_loop] *)
Definition run_closed_loop_control_loop (tape : list Env) (w : World)
  : Res bool :=
  let w := on_self (fun a =>
    set_controller_
      (set_pos_setpoint_ (pos_estimate_ (encoder_ a)) (controller_ a)) a) w in
  let w := set_step_dir_active (enable_step_dir (config_ (self w))) w in
  bind (run_control_loop closed_loop_tick tt tape w)
    (fun _ w tape =>
       let w := set_step_dir_active false w in
       Ok (check_for_errors w) w tape).

(** [(this == &axes[0]) ? axes[1] : axes[0]] *)
Definition other_axis (e : Env) (w : World) : Axis :=
  if this_is_axes0 w then snd (axes e) else fst (axes e).

(** The end of the open-loop tick, common to both branches: the call of
    [motor_.update] with the phase setpoint just stored. *)
Definition open_loop_drive (e : Env) (phase_vel : float) (w : World)
  : bool * unit * World :=
  let '(ok, w) :=
    motor_update e (current_setpoint_ (controller_ (self w)))
                 (phase_setpoint_ (motor_ (self w))) phase_vel w in
  if negb ok then (false, tt, w) else (true, tt, w).

(** The tick of [run_open_loop_control_loop] *)
Definition open_loop_tick : TickBody unit := fun e _ w =>
  let m := motor_ (self w) in
  if negb (motor_phase_locked m) then
    let phase_vel :=
      fmul (fmul two_pi (vel_setpoint_ (controller_ (self w))))
           (f_of_Z (motor_pole_pairs m)) in
    let w := on_self (fun a =>
      set_motor_
        (set_phase_setpoint_
           (wrap_pm_pi (fadd (phase_setpoint_ (motor_ a))
                             (fmul phase_vel current_meas_period)))
           (motor_ a)) a) w in
    open_loop_drive e phase_vel w
  else
    let other := other_axis e w in
    if negb (bool_decide
               (current_state_ other = AXIS_STATE_OPEN_LOOP_CONTROL))
    then (false, tt, raise_error ERROR_INVALID_STATE w)
    else
      let phase_vel :=
        fmul (fmul two_pi (vel_setpoint_ (controller_ other)))
             (f_of_Z (motor_pole_pairs (motor_ other))) in
      let w := on_self (fun a =>
        set_motor_
          (set_phase_setpoint_ (phase_setpoint_ (motor_ other)) (motor_ a))
          a) w in
      open_loop_drive e phase_vel w.

(** [Axis::run_open_loop_control_loop] *)
Definition run_open_loop_control_loop (tape : list Env) (w : World)
  : Res bool :=
  let w := set_step_dir_active (enable_step_dir (config_ (self w))) w in
  bind (run_control_loop open_loop_tick tt tape w)
    (fun _ w tape =>
       let w := set_step_dir_active false w in
       Ok (check_for_errors w) w tape).

(** Modelled from the spec: [safety_critical_disarm_motor_pwm] is not among
    the sources; it "must directly disable PWM output at the hardware level
    irrespective of motor state". *)
Definition safety_critical_disarm_motor_pwm (w : World) : World :=
  on_self (fun a => set_motor_ (set_is_armed_ false (motor_ a)) a)
          (emit EvDisarmMotorPwm w).

(** The tick of [run_idle_loop]: [return true]. *)
Definition idle_tick : TickBody unit := fun _ l w => (true, l, w).

(** [while (requested_state_ == AXIS_STATE_UNDEFINED) run_control_loop(...)].
    Every call of the scaffold takes at least one record, so [fuel] rounds
    are enough for a tape of [fuel] records. *)
Fixpoint idle_while (fuel : nat) (tape : list Env) (w : World) : Res unit :=
  if negb (bool_decide (requested_state_ (self w) = AXIS_STATE_UNDEFINED))
  then Ok tt w tape
  else match fuel with
       | O => OutOfFuel w
       | S fuel =>
         bind (run_control_loop idle_tick tt tape w)
              (fun _ w tape => idle_while fuel tape w)
       end.

(** [Axis::run_idle_loop] *)
Definition run_idle_loop (tape : list Env) (w : World) : Res bool :=
  let w := safety_critical_disarm_motor_pwm w in
  bind (idle_while (S (length tape)) tape w)
    (fun _ w tape => Ok (check_for_errors w) w tape).

(** [motor_.arm()]: what it returns is read from the next record; the motor
    is armed when it returns true. *)
Definition motor_arm (tape : list Env) (w : World) : Res bool :=
  match tape with
  | [] => OutOfFuel w
  | e :: tape =>
    let w := emit (EvMotorArm (motor_arm_ok e)) w in
    let w := if motor_arm_ok e
             then on_self (fun a =>
                    set_motor_ (set_is_armed_ true (motor_ a)) a) w
             else w in
    Ok (motor_arm_ok e) w tape
  end.

(** A whole task run by a sub-component ([motor_.pwm_test],
    [motor_.run_calibration], [encoder_.run_index_search],
    [encoder_.run_direction_find], [encoder_.run_offset_calibration]): it
    takes one record, during which other threads run and the encoder may
    change, and returns what the record says. *)
Definition sub_task (task : AxisState) (tape : list Env) (w : World)
  : Res bool :=
  match tape with
  | [] => OutOfFuel w
  | e :: tape =>
    let w := other_threads e w in
    let w := on_self (set_encoder_ (encoder_now e)) w in
    let w := raise_error (sub_task_errors e) w in
    Ok (sub_task_ok e) (emit (EvSubTask task (sub_task_ok e)) w) tape
  end.

(* ================================================================== *)
(** ** The task chain and the state machine *)

(** [task_chain_[pos++] = s].  The source checks no bound ("TODO: bounds
    checking"): a store past the end of the array is undefined, here
    [None]. *)
Definition store (s : AxisState) (cp : list AxisState * nat)
  : option (list AxisState * nat) :=
  let '(chain, pos) := cp in
  if (pos <? length chain)%nat
  then Some (<[pos := s]> chain, S pos)
  else None.

(** [if (c) task_chain_[pos++] = s;] *)
Definition store_if (c : bool) (s : AxisState) (cp : list AxisState * nat)
  : option (list AxisState * nat) :=
  if c then store s cp else Some cp.

(** The body of [if (requested_state_ != AXIS_STATE_UNDEFINED)] at the top
    of the loop, up to the terminating [AXIS_STATE_UNDEFINED]: the array
    after the stores and the final [pos]. *)
Definition expand_request (a : Axis) : option (list AxisState * nat) :=
  let cfg := config_ a in
  let cp := (task_chain_ a, 0%nat) in
  cp ←
    (if decide (requested_state_ a = AXIS_STATE_STARTUP_SEQUENCE) then
       cp ← store_if (startup_motor_calibration cfg)
                     AXIS_STATE_MOTOR_CALIBRATION cp;
       cp ← store_if (startup_encoder_index_search cfg
                      && encoder_use_index (encoder_ a))
                     AXIS_STATE_ENCODER_INDEX_SEARCH cp;
       cp ← store_if (startup_encoder_offset_calibration cfg)
                     AXIS_STATE_ENCODER_OFFSET_CALIBRATION cp;
       cp ← (if startup_closed_loop_control cfg
             then store AXIS_STATE_CLOSED_LOOP_CONTROL cp
             else store_if (startup_sensorless_control cfg)
                           AXIS_STATE_SENSORLESS_CONTROL cp);
       store AXIS_STATE_IDLE cp
     else if decide (requested_state_ a
                     = AXIS_STATE_FULL_CALIBRATION_SEQUENCE) then
       cp ← store AXIS_STATE_MOTOR_CALIBRATION cp;
       cp ← store_if (encoder_use_index (encoder_ a))
                     AXIS_STATE_ENCODER_INDEX_SEARCH cp;
       cp ← store AXIS_STATE_ENCODER_OFFSET_CALIBRATION cp;
       store AXIS_STATE_IDLE cp
     else if decide (requested_state_ a ≠ AXIS_STATE_UNDEFINED) then
       cp ← store (requested_state_ a) cp;
       store AXIS_STATE_IDLE cp
     else Some cp);
  store AXIS_STATE_UNDEFINED cp.

(** "Load the task chain if a specific request is pending": the expansion,
    then [requested_state_ = AXIS_STATE_UNDEFINED] and
    [error_ &= ~ERROR_INVALID_STATE]. *)
Definition load_task_chain (a : Axis) : option Axis :=
  if decide (requested_state_ a ≠ AXIS_STATE_UNDEFINED) then
    cp ← expand_request a;
    let a := set_task_chain_ cp.1 a in
    let a := set_requested_state_ AXIS_STATE_UNDEFINED a in
    Some (set_error_ (Z.land (error_ a) (Z.lnot ERROR_INVALID_STATE)) a)
  else Some a.

(** [invalid_state_label:] *)
Definition invalid_state (w : World) (tape : list Env) : Res bool :=
  Ok false (raise_error ERROR_INVALID_STATE w) tape.

(** [switch (current_state_)]: runs the state at the head of the chain and
    returns its [status]. *)
Definition dispatch (tape : list Env) (w : World) : Res bool :=
  let direction := motor_direction (motor_ (self w)) in
  match current_state_ (self w) with
  | AXIS_STATE_PWM_TEST => sub_task AXIS_STATE_PWM_TEST tape w
  | AXIS_STATE_MOTOR_CALIBRATION =>
    sub_task AXIS_STATE_MOTOR_CALIBRATION tape w
  | AXIS_STATE_ENCODER_INDEX_SEARCH =>
    if encoder_idx_search_unidirectional (encoder_ (self w))
       && (direction =? 0)
    then invalid_state w tape
    else sub_task AXIS_STATE_ENCODER_INDEX_SEARCH tape w
  | AXIS_STATE_ENCODER_DIR_FIND =>
    sub_task AXIS_STATE_ENCODER_DIR_FIND tape w
  | AXIS_STATE_ENCODER_OFFSET_CALIBRATION =>
    sub_task AXIS_STATE_ENCODER_OFFSET_CALIBRATION tape w
  | AXIS_STATE_LOCKIN_SPIN =>
    if direction =? 0 then invalid_state w tape
    else run_lockin_spin tape w
  | AXIS_STATE_SENSORLESS_CONTROL =>
    if direction =? 0 then invalid_state w tape
    else
      bind (run_lockin_spin tape w) (fun status w tape =>
        if status then
          let w := on_self (fun a =>
            set_controller_
              (set_vel_setpoint_ (lockin_vel (lockin (config_ a)))
                                 (controller_ a)) a) w in
          run_sensorless_control_loop tape w
        else Ok status w tape)
  | AXIS_STATE_CLOSED_LOOP_CONTROL =>
    if direction =? 0 then invalid_state w tape
    else if negb (is_ready_ (encoder_ (self w))) then invalid_state w tape
    else run_closed_loop_control_loop tape w
  | AXIS_STATE_OPEN_LOOP_CONTROL =>
    if direction =? 0 then invalid_state w tape
    else run_open_loop_control_loop tape w
  | AXIS_STATE_IDLE =>
    bind (run_idle_loop tape w) (fun _ w tape => motor_arm tape w)
  | _ => invalid_state w tape
  end.

(** [memmove(dst, src, n)] inside one array, in elements: elements
    [dst .. dst+n-1] receive what elements [src .. src+n-1] held. *)
Definition memmove {A : Type} (dst src n : nat) (mem : list A) : list A :=
  take dst mem ++ take n (drop src mem) ++ drop (dst + n) mem.

(** "If the state failed, go to idle, else advance task chain".  The size
    moved is [sizeof(task_chain_) - sizeof(task_chain_[0])]. *)
Definition advance (status : bool) (a : Axis) : Axis :=
  if negb status then set_current_state_ AXIS_STATE_IDLE a
  else set_task_chain_
         (memmove 0 1 (length (task_chain_ a) - 1) (task_chain_ a)) a.

(** One round of the [for (;;)] of [Axis::run_state_machine_loop]. *)
Definition state_machine_iteration (tape : list Env) (w : World) : Res unit :=
  match load_task_chain (self w) with
  | None => Undefined w
  | Some a =>
    let w := on_self (fun _ => a) w in
    bind (dispatch tape w)
      (fun status w tape => Ok tt (on_self (advance status) w) tape)
  end.

(** [rounds] rounds of the [for (;;)]. *)
Fixpoint state_machine_rounds (rounds : nat) (tape : list Env) (w : World)
  : Res unit :=
  match rounds with
  | O => Ok tt w tape
  | S rounds =>
    bind (state_machine_iteration tape w)
         (fun _ w tape => state_machine_rounds rounds tape w)
  end.

(** [Axis::run_state_machine_loop], cut after [rounds] rounds of its endless
    loop.  The wait for [thread_id_valid_] and the allocation of the
    anticogging map touch nothing that is modelled here. *)
Definition run_state_machine_loop (rounds : nat) (tape : list Env) (w : World)
  : Res unit :=
  bind (motor_arm tape w) (fun _ w tape => state_machine_rounds rounds tape w).

End Model.

Arguments Ok {F A} r w tape.
Arguments OutOfFuel {F A} w.
Arguments Undefined {F A} w.

(* ================================================================== *)
(** ** Exact arithmetic: the canonical rationals as [float] *)

Definition Qc_leb (x y : Qc) : bool := Qle_bool x y.
Definition Qc_ltb (x y : Qc) : bool := negb (Qle_bool y x).

(** [nearbyintf] in the default rounding mode: to the nearest integer, a
    tie going to the even one. *)
Definition nearbyint (q : Q) : Z :=
  let f := Qfloor q in
  match Qcompare (q - inject_Z f) (1 # 2) with
  | Lt => f
  | Gt => f + 1
  | Eq => if Z.even f then f else f + 1
  end.

(** The macro [M_PI] of math.h, [3.14159265358979323846]. *)
Definition Qc_M_PI : Qc :=
  Q2Qc (314159265358979323846 # 100000000000000000000).

(** Modelled from the spec: [wrap_pm_pi] of utils.h is not among the
    sources, and the specification only uses it as the wrap of a phase into
    [[-pi, pi]].  Here it removes the nearest whole number of turns:
    [x - nearbyint(x / 2pi) * 2pi]. *)
Definition Qc_wrap_pm_pi (x : Qc) : Qc :=
  let y := Qcmult (Qc_of_Z 2) Qc_M_PI in
  Qcminus x (Qcmult (Qc_of_Z (nearbyint (Qcdiv x y))) y).

(** [static_cast<uint32_t>]: the fraction is dropped. *)
Definition Qc_to_u32 (x : Qc) : Z := u32 (Z.quot (Qnum x) (Zpos (Qden x))).

#[global] Instance Qc_ops : FloatOps := {|
  float := Qc;
  f_of_Z := Qc_of_Z;
  M_PI := Qc_M_PI;
  fneg := Qcopp;
  fadd := Qcplus;
  fmul := Qcmult;
  fdiv := Qcdiv;
  fabsf := Qcabs;
  fleb := Qc_leb;
  fltb := Qc_ltb;
  wrap_pm_pi := Qc_wrap_pm_pi;
  f_to_u32 := Qc_to_u32
|}.

(* ================================================================== *)
(** ** One board, one axis, one quiet tick

    Concrete values on which the functions above can be run: a choice of
    the header's parameters, an axis at rest, and the record of a tick in
    which nothing happens. *)

#[global] Instance example_header : Header Qc_ops := {|
  ERROR_INVALID_STATE := 1;
  ERROR_DC_BUS_UNDER_VOLTAGE := 2;
  ERROR_DC_BUS_OVER_VOLTAGE := 4;
  ERROR_BRAKE_RESISTOR_DISARMED := 16;
  ERROR_MOTOR_DISARMED := 32;
  ERROR_CONTROLLER_FAILED := 512;
  ERROR_POS_CTRL_DURING_SENSORLESS := 1024;
  ERROR_WATCHDOG_TIMER_EXPIRED := 2048;
  CTRL_MODE_POSITION_CONTROL := 3;
  current_meas_hz := 8000;
  current_meas_period := Q2Qc (1 # 8000);
  dc_bus_undervoltage_trip_level := Qc_of_Z 8;
  dc_bus_overvoltage_trip_level := Qc_of_Z 26
|}.

(** A ramp of four ticks ([current_meas_period / ramp_time = 1/4]) over a
    distance of 8 rad, which is more than one turn. *)
Definition example_lockin : LockinConfig := {|
  lockin_current := Qc_of_Z 10;
  lockin_ramp_time := Q2Qc (1 # 2000);
  lockin_ramp_distance := Qc_of_Z 8;
  lockin_accel := Qc_of_Z 16000;
  lockin_vel := Qc_of_Z 16002;
  lockin_finish_distance := Qc_of_Z 100;
  lockin_finish_on_vel := true;
  lockin_finish_on_distance := false;
  lockin_finish_on_enc_idx := false
|}.

Definition example_config : Config := {|
  startup_motor_calibration := false;
  startup_encoder_index_search := false;
  startup_encoder_offset_calibration := false;
  startup_closed_loop_control := false;
  startup_sensorless_control := false;
  enable_step_dir := false;
  counts_per_step := Qc_of_Z 2;
  watchdog_timeout := Qc_of_Z 0;
  lockin := example_lockin
|}.

Definition example_motor : Motor := {|
  is_armed_ := true;
  phase_setpoint_ := Qc_of_Z 0;
  motor_phase_locked := false;
  motor_direction := 1;
  motor_pole_pairs := 7
|}.

Definition example_encoder : Encoder := {|
  index_found_ := false;
  is_ready_ := true;
  pos_estimate_ := Qc_of_Z 0;
  enc_vel_estimate_ := Qc_of_Z 0;
  enc_phase_ := Qc_of_Z 0;
  encoder_use_index := false;
  encoder_idx_search_unidirectional := false;
  encoder_cpr := 8192
|}.

Definition example_estimator : SensorlessEstimator := {|
  pll_pos_ := Qc_of_Z 0;
  vel_estimate_ := Qc_of_Z 0;
  phase_ := Qc_of_Z 0
|}.

Definition example_controller : Controller := {|
  pos_setpoint_ := Qc_of_Z 0;
  vel_setpoint_ := Qc_of_Z 0;
  current_setpoint_ := Qc_of_Z 0;
  control_mode := 2
|}.

(** An axis at rest: no error, no request, an empty chain of ten slots. *)
Definition example_axis : Axis := {|
  error_ := 0;
  requested_state_ := AXIS_STATE_UNDEFINED;
  task_chain_ := replicate 10 AXIS_STATE_UNDEFINED;
  lockin_state_ := LOCKIN_STATE_INACTIVE;
  step_dir_active_ := false;
  step_gpio_ := Some 1%nat;
  dir_gpio_ := Some 2%nat;
  watchdog_reset_value_ := 0;
  watchdog_current_value_ := 0;
  motor_ := example_motor;
  encoder_ := example_encoder;
  sensorless_estimator_ := example_estimator;
  controller_ := example_controller;
  config_ := example_config
|}.

Definition world_of (a : Axis) : World :=
  {| self := a; this_is_axes0 := true; trace := [] |}.

(** One record of the tape, its members given in the order of [Env]. *)
Definition example_env (wait : bool) (request : option AxisState)
    (motor_ok controller_ok arm_ok task_ok : bool) (sibling : Axis) : Env := {|
  wait_ok := wait;
  ext_request := request;
  ext_watchdog_feed := false;
  encoder_now := example_encoder;
  estimator_now := example_estimator;
  update_errors := 0;
  check_errors := 0;
  motor_tripped := false;
  motor_update_ok := motor_ok;
  motor_update_errors := 0;
  controller_update_ok := controller_ok;
  controller_current := Qc_of_Z 1;
  motor_arm_ok := arm_ok;
  sub_task_ok := task_ok;
  sub_task_errors := 0;
  brake_resistor_enabled := false;
  brake_resistor_armed := false;
  vbus_voltage := Qc_of_Z 12;
  axes := (example_axis, sibling)
|}.

(** The tick in which nothing happens: the signal arrives, every call
    succeeds, nobody writes a request. *)
Definition quiet : Env :=
  example_env true None true true true true example_axis.

(** A tick during which another thread requests state [s]. *)
Definition request (s : AxisState) : Env :=
  example_env true (Some s) true true true true example_axis.

(** A watchdog of ten ticks with three left. *)
Definition watchdog_axis : Axis :=
  set_watchdog_current_value_ 3 (set_watchdog_reset_value_ 10 example_axis).

(** Step/dir input switched on. *)
Definition step_axis : Axis := set_step_dir_active_ true example_axis.

(** Closed-loop control requested while [ERROR_INVALID_STATE] and
    [ERROR_DC_BUS_OVER_VOLTAGE] are latched. *)
Definition request_axis : Axis :=
  set_error_ 5 (set_requested_state_ AXIS_STATE_CLOSED_LOOP_CONTROL example_axis).

(** The startup sequence requested with motor calibration and closed-loop
    control switched on. *)
Definition startup_axis : Axis :=
  let a := set_requested_state_ AXIS_STATE_STARTUP_SEQUENCE example_axis in
  {| error_ := error_ a; requested_state_ := requested_state_ a;
     task_chain_ := task_chain_ a; lockin_state_ := lockin_state_ a;
     step_dir_active_ := step_dir_active_ a; step_gpio_ := step_gpio_ a;
     dir_gpio_ := dir_gpio_ a;
     watchdog_reset_value_ := watchdog_reset_value_ a;
     watchdog_current_value_ := watchdog_current_value_ a;
     motor_ := motor_ a; encoder_ := encoder_ a;
     sensorless_estimator_ := sensorless_estimator_ a;
     controller_ := controller_ a;
     config_ := {|
       startup_motor_calibration := true;
       startup_encoder_index_search := false;
       startup_encoder_offset_calibration := false;
       startup_closed_loop_control := true;
       startup_sensorless_control := true;
       enable_step_dir := false;
       counts_per_step := Qc_of_Z 2;
       watchdog_timeout := Qc_of_Z 0;
       lockin := example_lockin |} |}.

(** The full calibration sequence requested (the encoder has no index). *)
Definition calibration_axis : Axis :=
  set_requested_state_ AXIS_STATE_FULL_CALIBRATION_SEQUENCE example_axis.

(** A record in which the task of a sub-component fails. *)
Definition failing_task : Env :=
  example_env true None true true true false example_axis.

(** The controller in position control (code 3). *)
Definition position_axis : Axis :=
  set_controller_
    {| pos_setpoint_ := Qc_of_Z 0; vel_setpoint_ := Qc_of_Z 0;
       current_setpoint_ := Qc_of_Z 0; control_mode := 3 |}
    example_axis.

(** Open-loop control with a phase-locked motor; the sibling in the quiet
    record is at rest, not in open-loop control. *)
Definition phase_locked_axis : Axis :=
  set_motor_
    {| is_armed_ := true; phase_setpoint_ := Qc_of_Z 0;
       motor_phase_locked := true; motor_direction := 1;
       motor_pole_pairs := 7 |}
    (set_task_chain_
       (AXIS_STATE_OPEN_LOOP_CONTROL :: AXIS_STATE_IDLE
        :: replicate 8 AXIS_STATE_UNDEFINED) example_axis).

(** The sibling in open-loop control, its phase setpoint at 1 rad. *)
Definition open_loop_sibling : Axis :=
  set_motor_
    {| is_armed_ := true; phase_setpoint_ := Qc_of_Z 1;
       motor_phase_locked := false; motor_direction := 1;
       motor_pole_pairs := 7 |}
    (set_task_chain_
       (AXIS_STATE_OPEN_LOOP_CONTROL :: AXIS_STATE_IDLE
        :: replicate 8 AXIS_STATE_UNDEFINED) example_axis).

Definition sibling_in_open_loop : Env :=
  example_env true None true true true true open_loop_sibling.

(** Idle at the head of the chain. *)
Definition idle_axis : Axis :=
  set_task_chain_
    (AXIS_STATE_IDLE :: replicate 9 AXIS_STATE_UNDEFINED) example_axis.

(** A record in which [motor_.arm()] fails. *)
Definition arm_fails : Env :=
  example_env true None true true false true example_axis.

(** One quiet round of idle, a round in which closed-loop control is
    requested, and the record [motor_.arm()] reads. *)
Definition idle_tape : list Env :=
  [quiet; request AXIS_STATE_CLOSED_LOOP_CONTROL; arm_fails].

(** Four rounds of ramp and one of acceleration. *)
Definition spin_tape : list Env := replicate 5 quiet.

(** Reading a result: whether the run returned, what it returned (a default
    otherwise), and the tape it left. *)
Definition is_ok {F : FloatOps} {A : Type} (r : Res A) : bool :=
  match r with
  | Ok _ _ _ => true
  | _ => false
  end.

Definition returned {F : FloatOps} {A : Type} (d : A) (r : Res A) : A :=
  match r with
  | Ok a _ _ => a
  | _ => d
  end.

Definition tape_left {F : FloatOps} {A : Type} (r : Res A) : list Env :=
  match r with
  | Ok _ _ tape => tape
  | _ => []
  end.

(** The spin state before the first round. *)
Definition spin_at_rest : Spin :=
  {| distance := Qc_of_Z 0; phase := Qc_of_Z 0; vel := Qc_of_Z 0 |}.

(** Recognisers of two events of the trace. *)
Definition is_disarm {F : FloatOps} (ev : Event) : bool :=
  match ev with
  | EvDisarmMotorPwm => true
  | _ => false
  end.

Definition is_failed_arm {F : FloatOps} (ev : Event) : bool :=
  match ev with
  | EvMotorArm false => true
  | _ => false
  end.

(** Closed-loop control at the head of the chain. *)
Definition closed_loop_chain : list AxisState :=
  AXIS_STATE_CLOSED_LOOP_CONTROL :: AXIS_STATE_IDLE
  :: replicate 8 AXIS_STATE_UNDEFINED.

(** The motor direction not known yet. *)
Definition undirected_axis : Axis :=
  set_motor_
    {| is_armed_ := true; phase_setpoint_ := Qc_of_Z 0;
       motor_phase_locked := false; motor_direction := 0;
       motor_pole_pairs := 7 |}
    (set_task_chain_ closed_loop_chain example_axis).

(** The encoder not ready. *)
Definition unready_axis : Axis :=
  set_encoder_
    {| index_found_ := false; is_ready_ := false;
       pos_estimate_ := Qc_of_Z 0; enc_vel_estimate_ := Qc_of_Z 0;
       enc_phase_ := Qc_of_Z 0; encoder_use_index := false;
       encoder_idx_search_unidirectional := false; encoder_cpr := 8192 |}
    (set_task_chain_ closed_loop_chain example_axis).

(** The motor disarmed, in closed-loop control and in idle. *)
Definition disarmed_motor : Motor :=
  {| is_armed_ := false; phase_setpoint_ := Qc_of_Z 0;
     motor_phase_locked := false; motor_direction := 1;
     motor_pole_pairs := 7 |}.

Definition disarmed_axis : Axis :=
  set_motor_ disarmed_motor (set_task_chain_ closed_loop_chain example_axis).

Definition disarmed_idle_axis : Axis := set_motor_ disarmed_motor idle_axis.

(** The lock-in spin with none of its finish conditions switched on. *)
Definition endless_axis : Axis :=
  {| error_ := 0;
     requested_state_ := AXIS_STATE_UNDEFINED;
     task_chain_ := replicate 10 AXIS_STATE_UNDEFINED;
     lockin_state_ := LOCKIN_STATE_INACTIVE;
     step_dir_active_ := false;
     step_gpio_ := Some 1%nat;
     dir_gpio_ := Some 2%nat;
     watchdog_reset_value_ := 0;
     watchdog_current_value_ := 0;
     motor_ := example_motor;
     encoder_ := example_encoder;
     sensorless_estimator_ := example_estimator;
     controller_ := example_controller;
     config_ := {|
       startup_motor_calibration := false;
       startup_encoder_index_search := false;
       startup_encoder_offset_calibration := false;
       startup_closed_loop_control := false;
       startup_sensorless_control := false;
       enable_step_dir := false;
       counts_per_step := Qc_of_Z 2;
       watchdog_timeout := Qc_of_Z 0;
       lockin := {|
         lockin_current := Qc_of_Z 10;
         lockin_ramp_time := Q2Qc (1 # 2000);
         lockin_ramp_distance := Qc_of_Z 8;
         lockin_accel := Qc_of_Z 16000;
         lockin_vel := Qc_of_Z 16002;
         lockin_finish_distance := Qc_of_Z 100;
         lockin_finish_on_vel := false;
         lockin_finish_on_distance := false;
         lockin_finish_on_enc_idx := false |} |} |}.

(** Four rounds of ramp, one of acceleration, one at constant velocity and
    one during which idle is requested. *)
Definition endless_tape : list Env :=
  replicate 6 quiet ++ [request AXIS_STATE_IDLE].

(** One quiet round and one during which idle is requested. *)
Definition short_tape : list Env := [quiet; request AXIS_STATE_IDLE].

(* ================================================================== *)
(** ** Notions the statements use *)

Section Statements.
Context {F : FloatOps} {H : Header F}.

(** The counter is an unsigned 32-bit member. *)
Definition is_u32 (z : Z) : Prop := 0 <= z <= UINT32_MAX.

(** The expansion of [AXIS_STATE_STARTUP_SEQUENCE] as the specification
    words it: the ordered subset picked by the [startup_*] flags, closed by
    [AXIS_STATE_IDLE] and the terminating [AXIS_STATE_UNDEFINED]. *)
Definition startup_chain (cfg : Config) (enc : Encoder) : list AxisState :=
  (if startup_motor_calibration cfg
   then [AXIS_STATE_MOTOR_CALIBRATION] else [])
  ++ (if startup_encoder_index_search cfg && encoder_use_index enc
      then [AXIS_STATE_ENCODER_INDEX_SEARCH] else [])
  ++ (if startup_encoder_offset_calibration cfg
      then [AXIS_STATE_ENCODER_OFFSET_CALIBRATION] else [])
  ++ (if startup_closed_loop_control cfg
      then [AXIS_STATE_CLOSED_LOOP_CONTROL]
      else if startup_sensorless_control cfg
           then [AXIS_STATE_SENSORLESS_CONTROL] else [])
  ++ [AXIS_STATE_IDLE; AXIS_STATE_UNDEFINED].

(** The states still to run: the array up to its first
    [AXIS_STATE_UNDEFINED] ("the first UNDEFINED terminates the chain"). *)
Fixpoint chain_tasks (c : list AxisState) : list AxisState :=
  match c with
  | [] => []
  | s :: c =>
    if bool_decide (s = AXIS_STATE_UNDEFINED) then [] else s :: chain_tasks c
  end.

(** The calls the scaffold itself makes. *)
Definition scaffold_event (ev : Event) : bool :=
  match ev with
  | EvWaitCurrentMeas _ | EvEncoderUpdate | EvEstimatorUpdate
  | EvMotorDoChecks | EvEncoderDoChecks => true
  | _ => false
  end.

(** The calls a tick body makes. *)
Definition update_event (ev : Event) : bool :=
  match ev with
  | EvMotorUpdate _ _ _ _ | EvControllerUpdate _ _ _ => true
  | _ => false
  end.

(** [framed P w w']: from [w] to [w'] the trace only grew, by events
    satisfying [P], and the members no round of a control loop writes kept
    their values. *)
Record framed (P : Event -> bool) (w w' : World) : Prop := {
  fr_trace : exists evs, trace w' = trace w ++ evs /\ forallb P evs = true;
  fr_this : this_is_axes0 w' = this_is_axes0 w;
  fr_chain : task_chain_ (self w') = task_chain_ (self w);
  fr_config : config_ (self w') = config_ (self w);
  fr_controller : controller_ (self w') = controller_ (self w);
  fr_lockin : lockin_state_ (self w') = lockin_state_ (self w);
  fr_reset : watchdog_reset_value_ (self w') = watchdog_reset_value_ (self w);
  fr_phase_locked : motor_phase_locked (motor_ (self w'))
                    = motor_phase_locked (motor_ (self w))
}.

(** The GPIO calls. *)
Definition gpio_event (ev : Event) : bool :=
  match ev with
  | EvGpioInit _ _ | EvGpioSubscribe _ | EvGpioDeinit _ => true
  | _ => false
  end.

(** The events of a round of a control loop with a driving tick body. *)
Definition loop_event (ev : Event) : bool :=
  scaffold_event ev || update_event ev.

(** The values [lockin_state_] was assigned, in order. *)
Definition lockin_history (tr : list Event) : list LockinState :=
  omap (fun ev => match ev with EvLockinState s => Some s | _ => None end) tr.

(** The current magnitude and the phase of every [motor_.update] call. *)
Definition motor_commands (tr : list Event) : list (float * float) :=
  omap (fun ev => match ev with
                  | EvMotorUpdate i p _ _ => Some (i, p)
                  | _ => None
                  end) tr.

(** Each element is [<=] its successor. *)
Fixpoint nondecreasing (l : list float) : bool :=
  match l with
  | a :: (b :: _) as rest => fleb a b && nondecreasing rest
  | _ => true
  end.

(** [kept w w']: from [w] to [w'] the trace only grew, and the task chain,
    the configuration and the watchdog reset value are as they were. *)
Record kept (w w' : World) : Prop := {
  kept_trace : exists evs, trace w' = trace w ++ evs;
  kept_this : this_is_axes0 w' = this_is_axes0 w;
  kept_chain : task_chain_ (self w') = task_chain_ (self w);
  kept_config : config_ (self w') = config_ (self w);
  kept_reset : watchdog_reset_value_ (self w') = watchdog_reset_value_ (self w)
}.

(** The tasks a request stands for, in the order they run. *)
Definition request_tasks (a : Axis) : list AxisState :=
  match requested_state_ a with
  | AXIS_STATE_STARTUP_SEQUENCE =>
    (if startup_motor_calibration (config_ a)
     then [AXIS_STATE_MOTOR_CALIBRATION] else [])
    ++ (if startup_encoder_index_search (config_ a)
           && encoder_use_index (encoder_ a)
        then [AXIS_STATE_ENCODER_INDEX_SEARCH] else [])
    ++ (if startup_encoder_offset_calibration (config_ a)
        then [AXIS_STATE_ENCODER_OFFSET_CALIBRATION] else [])
    ++ (if startup_closed_loop_control (config_ a)
        then [AXIS_STATE_CLOSED_LOOP_CONTROL]
        else if startup_sensorless_control (config_ a)
             then [AXIS_STATE_SENSORLESS_CONTROL] else [])
    ++ [AXIS_STATE_IDLE]
  | AXIS_STATE_FULL_CALIBRATION_SEQUENCE =>
    [AXIS_STATE_MOTOR_CALIBRATION]
    ++ (if encoder_use_index (encoder_ a)
        then [AXIS_STATE_ENCODER_INDEX_SEARCH] else [])
    ++ [AXIS_STATE_ENCODER_OFFSET_CALIBRATION; AXIS_STATE_IDLE]
  | s => [s; AXIS_STATE_IDLE]
  end.

(** A state that stands for one task of its own: neither empty nor one of
    the two sequences. *)
Definition single_task (s : AxisState) : bool :=
  match s with
  | AXIS_STATE_UNDEFINED | AXIS_STATE_STARTUP_SEQUENCE
  | AXIS_STATE_FULL_CALIBRATION_SEQUENCE => false
  | _ => true
  end.

(** The states the switch refuses when the motor direction is unknown. *)
Definition needs_direction (s : AxisState) : bool :=
  match s with
  | AXIS_STATE_LOCKIN_SPIN | AXIS_STATE_SENSORLESS_CONTROL
  | AXIS_STATE_CLOSED_LOOP_CONTROL | AXIS_STATE_OPEN_LOOP_CONTROL => true
  | _ => false
  end.

(** A call of [motor_.update] is made with current [i] and velocity [v];
    any other event passes. *)
Definition commanded (i v : float) (ev : Event) : Prop :=
  match ev with
  | EvMotorUpdate i' _ v' _ => i' = i /\ v' = v
  | _ => True
  end.

(** The GPIO calls made for a pin that may be null. *)
Definition for_pin (pin : option nat) (calls : nat -> list Event)
  : list Event :=
  match pin with
  | Some p => calls p
  | None => []
  end.

(** [latched w w']: every bit set in [error_] in [w] is still set in
    [w']. *)
Definition latched (w w' : World) : Prop :=
  forall i, Z.testbit (error_ (self w)) i = true ->
            Z.testbit (error_ (self w')) i = true.

(** The calls of [controller_.update] and [motor_.update] on a trace. *)
Definition drive_calls (tr : list Event) : list Event :=
  filter (fun ev => update_event ev = true) tr.

(** The axis knows what to do next: a request is pending, or the tasks
    still to run end with [AXIS_STATE_IDLE] and the array holds a
    terminating [AXIS_STATE_UNDEFINED]. *)
Definition chain_ends_in_idle (a : Axis) : Prop :=
  requested_state_ a <> AXIS_STATE_UNDEFINED
  \/ (last (chain_tasks (task_chain_ a)) = Some AXIS_STATE_IDLE
      /\ AXIS_STATE_UNDEFINED ∈ task_chain_ a).

(** [n] calls of [watchdog_check] in a row, without a feed in between:
    what they return, and the state they leave. *)
Fixpoint watchdog_checks (n : nat) (w : World) : list bool * World :=
  match n with
  | O => ([], w)
  | S n =>
    let '(ok, w) := watchdog_check w in
    let '(oks, w) := watchdog_checks n w in
    (ok :: oks, w)
  end.

End Statements.

(** Closes a [framed] goal between two worlds written out as [emit]s and
    assignments on top of one another. *)
Ltac solve_framed :=
  split; cbn;
  [ first [ exists []; split; [symmetry; apply app_nil_r | reflexivity]
          | rewrite <- ?app_assoc; eexists; split; [reflexivity | reflexivity] ]
  | reflexivity .. ].


(* ================================================================== *)
(** * The laws of exact arithmetic hold of the canonical rationals *)

Lemma Qc_leb_le (x y : Qc) : Qc_leb x y = true <-> Qcle x y.
Proof. unfold Qc_leb, Qcle. apply Qle_bool_iff. Qed.

Lemma Qc_ltb_lt (x y : Qc) : Qc_ltb x y = true <-> Qclt x y.
Proof.
  unfold Qc_ltb, Qclt. rewrite negb_true_iff.
  split.
  - intros Hb. apply Qnot_le_lt. intros Hle.
    apply Qle_bool_iff in Hle. congruence.
  - intros Hlt. destruct (Qle_bool y x) eqn:E; [|reflexivity].
    apply Qle_bool_iff in E. exfalso. eapply Qlt_not_le; eauto.
Qed.

Lemma nearbyint_small (q : Q) :
  (-(1#2) <= q)%Q -> (q <= 1#2)%Q -> nearbyint q = 0.
Proof.
  intros Hlo Hhi. unfold nearbyint.
  assert (Hf : Qfloor q = 0 \/ Qfloor q = -1).
  { assert (H1 : Qfloor (-(1#2)) <= Qfloor q) by (apply Qfloor_resp_le; exact Hlo).
    assert (H2 : Qfloor q <= Qfloor (1#2)) by (apply Qfloor_resp_le; exact Hhi).
    change (Qfloor (-(1#2))) with (-1) in H1.
    change (Qfloor (1#2)) with 0 in H2. lia. }
  destruct Hf as [-> | ->]; cbn [Z.even].
  - destruct (Qcompare_spec (q - inject_Z 0) (1#2)) as [E|E|E]; try reflexivity.
    exfalso. apply (Qlt_not_le _ _ E).
    assert (Hq : (q - inject_Z 0 == q)%Q) by (unfold inject_Z; ring).
    rewrite Hq. exact Hhi.
  - destruct (Qcompare_spec (q - inject_Z (-1)) (1#2)) as [E|E|E]; try reflexivity.
    exfalso. apply (Qlt_not_le _ _ E).
    apply Qle_minus_iff in Hlo. apply Qle_minus_iff.
    assert (Hq : (q - inject_Z (-1) + - (1 # 2) == q + - - (1#2))%Q)
      by (unfold inject_Z; ring).
    rewrite Hq. exact Hlo.
Qed.

Lemma Qc_two_pi_pos : Qclt (Q2Qc 0) (Qcmult (Qc_of_Z 2) Qc_M_PI).
Proof. apply Qc_ltb_lt. reflexivity. Qed.

Lemma Qc_half_turn (x : Qc) :
  Qcle (Qcopp Qc_M_PI) x -> Qcle x Qc_M_PI ->
  let q := Qcdiv x (Qcmult (Qc_of_Z 2) Qc_M_PI) in
  Qcle (Q2Qc (-(1#2))) q /\ Qcle q (Q2Qc (1#2)).
Proof.
  intros Hlo Hhi q. subst q.
  set (y := Qcmult (Qc_of_Z 2) Qc_M_PI).
  assert (Hy : Qclt (Q2Qc 0) y) by apply Qc_two_pi_pos.
  assert (Hne : y <> Q2Qc 0).
  { intros E. rewrite E in Hy. revert Hy. apply Qlt_irrefl. }
  assert (Hx : Qcmult (Qcdiv x y) y = x).
  { rewrite Qcmult_comm. apply Qcmult_div_r. exact Hne. }
  split.
  - apply (Qcmult_le_mono_pos_r _ _ y Hy). rewrite Hx.
    replace (Qcmult (Q2Qc (-(1#2))) y) with (Qcopp Qc_M_PI); [exact Hlo|].
    apply Qc_is_canon. apply Qeq_bool_eq. reflexivity.
  - apply (Qcmult_le_mono_pos_r _ _ y Hy). rewrite Hx.
    replace (Qcmult (Q2Qc (1#2)) y) with Qc_M_PI; [exact Hhi|].
    apply Qc_is_canon. apply Qeq_bool_eq. reflexivity.
Qed.

(** The canonical rationals obey the laws of exact arithmetic. *)
Lemma Qc_laws : FloatLaws Qc_ops.
Proof.
  split; cbn [float f_of_Z M_PI fneg fadd fmul fdiv fabsf fleb fltb wrap_pm_pi Qc_ops];
    rewrite ?Z2Qc_inj_0, ?Z2Qc_inj_1.
  - intros x. apply Qc_leb_le. apply Qcle_refl.
  - intros x y z Hxy Hyz. apply Qc_leb_le.
    apply Qc_leb_le in Hxy, Hyz. eapply Qcle_trans; eauto.
  - intros x y Hlt. apply Qc_leb_le. apply Qc_ltb_lt in Hlt.
    apply Qclt_le_weak. exact Hlt.
  - reflexivity.
  - intros x c Hc. apply Qc_leb_le. apply Qc_leb_le in Hc.
    rewrite <- (Qcplus_0_r x) at 1.
    apply Qcplus_le_mono_l. exact Hc.
  - intros a x y Ha Hxy. apply Qc_leb_le.
    apply Qc_leb_le in Ha, Hxy.
    apply Qcmult_le_mono_nonneg_l; assumption.
  - intros a. apply Qcmult_0_r.
  - intros x. apply Qcmult_1_l.
  - intros x. apply Qcmult_1_r.
  - intros x.
    assert (E : Qc_of_Z (-1) = Qcopp (Q2Qc 1)) by (apply Qc_is_canon; reflexivity).
    rewrite E. ring.
  - intros x y Hx Hy. apply Qc_ltb_lt. apply Qc_ltb_lt in Hx, Hy.
    unfold Qcdiv. apply Qcmult_pos_pos; [exact Hx|].
    apply Qcinv_pos. exact Hy.
  - intros x Hx. apply Qc_leb_le in Hx. apply Qcabs_pos. exact Hx.
  - intros x Hx. apply Qc_leb_le in Hx.
    apply Qcabs_Qcle_condition in Hx. destruct Hx as [Hlo Hhi].
    destruct (Qc_half_turn x Hlo Hhi) as [Hq1 Hq2].
    unfold Qc_wrap_pm_pi.
    rewrite nearbyint_small; [| exact Hq1 | exact Hq2].
    rewrite Z2Qc_inj_0. ring.
Qed.

(* ================================================================== *)
(** * Properties *)

Section Properties.
Context {F : FloatOps} {H : Header F}.

(** ** Watchdog *)

Lemma u32_id (z : Z) : is_u32 z -> u32 z = z.
Proof.
  unfold is_u32, u32, UINT32_MAX. intros Hz.
  apply Z.mod_small. lia.
Qed.


(** ** Step/direction callback *)


(** ** Loading the task chain *)

(** An array of at least six elements, split into its first six and the
    rest: the longest expansion stores six states. *)
Lemma chain_six (c : list AxisState) :
  (6 <= length c)%nat ->
  exists c0 c1 c2 c3 c4 c5 rest, c = c0 :: c1 :: c2 :: c3 :: c4 :: c5 :: rest.
Proof.
  intros Hlen.
  do 6 (destruct c as [|? c]; [cbn in Hlen; lia|]).
  eauto 10.
Qed.

(** With room for six states no store of the expansion leaves the array,
    and the array keeps its length. *)
Lemma expand_request_total (a : Axis) :
  (6 <= length (task_chain_ a))%nat ->
  exists cp, expand_request a = Some cp
             /\ length cp.1 = length (task_chain_ a).
Proof.
  intros Hlen.
  destruct (chain_six _ Hlen) as (c0 & c1 & c2 & c3 & c4 & c5 & rest & Hc).
  unfold expand_request. rewrite Hc.
  destruct (requested_state_ a);
    destruct (startup_motor_calibration (config_ a));
    destruct (startup_encoder_index_search (config_ a));
    destruct (encoder_use_index (encoder_ a));
    destruct (startup_encoder_offset_calibration (config_ a));
    destruct (startup_closed_loop_control (config_ a));
    destruct (startup_sensorless_control (config_ a));
    cbn; eexists; (split; [reflexivity | reflexivity]).
Qed.

(** Loading a request, whatever the array held before: the tasks up to the
    first [AXIS_STATE_UNDEFINED] are those of the request. *)
Lemma load_task_chain_tasks (a : Axis) :
  requested_state_ a <> AXIS_STATE_UNDEFINED ->
  (6 <= length (task_chain_ a))%nat ->
  exists a',
    load_task_chain a = Some a'
    /\ chain_tasks (task_chain_ a') = request_tasks a
    /\ length (task_chain_ a') = length (task_chain_ a)
    /\ requested_state_ a' = AXIS_STATE_UNDEFINED
    /\ motor_ a' = motor_ a /\ encoder_ a' = encoder_ a.
Proof.
  intros Hreq Hlen.
  destruct (chain_six _ Hlen) as (c0 & c1 & c2 & c3 & c4 & c5 & rest & Hc).
  unfold load_task_chain, expand_request, request_tasks.
  destruct (decide (requested_state_ a ≠ AXIS_STATE_UNDEFINED)) as [_ | Hn];
    [| contradiction].
  rewrite Hc.
  destruct (requested_state_ a); try contradiction;
    destruct (startup_motor_calibration (config_ a));
    destruct (startup_encoder_index_search (config_ a));
    destruct (encoder_use_index (encoder_ a));
    destruct (startup_encoder_offset_calibration (config_ a));
    destruct (startup_closed_loop_control (config_ a));
    destruct (startup_sensorless_control (config_ a));
    cbn; eexists; (split; [reflexivity|]); cbn; repeat split; reflexivity.
Qed.

(** Every request stands for at least one task, the last of which is
    idle. *)
Lemma request_tasks_last (a : Axis) :
  last (request_tasks a) = Some AXIS_STATE_IDLE.
Proof.
  unfold request_tasks.
  destruct (requested_state_ a);
    repeat match goal with
           | |- context [if ?c then _ else _] => destruct c
           end; reflexivity.
Qed.

(** The head of the tasks still to run is [current_state_]. *)
Lemma chain_tasks_head (a : Axis) :
  chain_tasks (task_chain_ a) <> [] ->
  head (chain_tasks (task_chain_ a)) = Some (current_state_ a).
Proof.
  unfold current_state_. destruct (task_chain_ a) as [|t c]; cbn;
    [contradiction|].
  destruct (bool_decide (t = AXIS_STATE_UNDEFINED)); [contradiction|].
  reflexivity.
Qed.

(** C7. When a request is pending at the top of the loop, loading the task
    chain empties the request slot and clears the bits of
    [ERROR_INVALID_STATE] in [error_]; every other bit of [error_] keeps its
    value. *)
Theorem accepted_request_clears (a : Axis) :
  requested_state_ a <> AXIS_STATE_UNDEFINED ->
  (6 <= length (task_chain_ a))%nat ->
  exists a',
    load_task_chain a = Some a'
    /\ requested_state_ a' = AXIS_STATE_UNDEFINED
    /\ (forall i, Z.testbit ERROR_INVALID_STATE i = true ->
                  Z.testbit (error_ a') i = false)
    /\ (forall i, Z.testbit ERROR_INVALID_STATE i = false ->
                  Z.testbit (error_ a') i = Z.testbit (error_ a) i).
Proof.
  intros Hreq Hlen.
  destruct (expand_request_total a Hlen) as (cp & Hcp & _).
  unfold load_task_chain.
  destruct (decide (requested_state_ a ≠ AXIS_STATE_UNDEFINED)) as [_ | Hn];
    [| contradiction].
  rewrite Hcp. cbn.
  eexists. split; [reflexivity|]. cbn.
  split; [reflexivity|].
  split; intros i Hbit; rewrite Z.land_spec.
  - destruct (Z.neg_nonneg_cases i) as [Hneg | Hnn].
    + rewrite (Z.testbit_neg_r (error_ a)) by exact Hneg. reflexivity.
    + rewrite Z.lnot_spec by exact Hnn. rewrite Hbit. apply andb_false_r.
  - destruct (Z.neg_nonneg_cases i) as [Hneg | Hnn].
    + rewrite (Z.testbit_neg_r (error_ a)) by exact Hneg. reflexivity.
    + rewrite Z.lnot_spec by exact Hnn. rewrite Hbit. apply andb_true_r.
Qed.

(** C8. A request of [AXIS_STATE_STARTUP_SEQUENCE] loads the front of the
    array with exactly [startup_chain]; the elements behind it are not
    written.  With every [startup_*] flag false the front is
    [IDLE, UNDEFINED]. *)
Theorem startup_sequence_expansion (a : Axis) :
  requested_state_ a = AXIS_STATE_STARTUP_SEQUENCE ->
  (6 <= length (task_chain_ a))%nat ->
  exists a',
    load_task_chain a = Some a'
    /\ (let n := length (startup_chain (config_ a) (encoder_ a)) in
        take n (task_chain_ a') = startup_chain (config_ a) (encoder_ a)
        /\ drop n (task_chain_ a') = drop n (task_chain_ a))
    /\ (startup_motor_calibration (config_ a) = false ->
        startup_encoder_index_search (config_ a) = false ->
        startup_encoder_offset_calibration (config_ a) = false ->
        startup_closed_loop_control (config_ a) = false ->
        startup_sensorless_control (config_ a) = false ->
        take 2 (task_chain_ a') = [AXIS_STATE_IDLE; AXIS_STATE_UNDEFINED]).
Proof.
  intros Hreq Hlen.
  destruct (chain_six _ Hlen) as (c0 & c1 & c2 & c3 & c4 & c5 & rest & Hc).
  unfold load_task_chain, expand_request, startup_chain.
  rewrite Hreq, Hc.
  destruct (startup_motor_calibration (config_ a));
    destruct (startup_encoder_index_search (config_ a));
    destruct (encoder_use_index (encoder_ a));
    destruct (startup_encoder_offset_calibration (config_ a));
    destruct (startup_closed_loop_control (config_ a));
    destruct (startup_sensorless_control (config_ a));
    cbn; eexists; (split; [reflexivity|]); cbn;
    (split; [split; reflexivity | intros; congruence]).
Qed.

(** ** Advancing the task chain *)

Lemma memmove_shift_length {A : Type} (c : list A) :
  length (memmove 0 1 (length c - 1) c) = length c.
Proof.
  unfold memmove. destruct c as [|x c]; [reflexivity|].
  cbn [length take drop app Nat.add Nat.sub]. rewrite Nat.sub_0_r, drop_0.
  rewrite length_app, length_take, length_drop. cbn [length]. lia.
Qed.

Lemma memmove_shift_lookup {A : Type} (c : list A) (i : nat) :
  (S i < length c)%nat ->
  memmove 0 1 (length c - 1) c !! i = c !! S i.
Proof.
  intros Hi. unfold memmove. destruct c as [|x c]; [cbn in Hi; lia|].
  cbn [length take drop app Nat.add Nat.sub] in *. rewrite Nat.sub_0_r, drop_0.
  rewrite lookup_app_l by (rewrite length_take; lia).
  rewrite lookup_take_lt by lia. reflexivity.
Qed.

Lemma memmove_shift_last {A : Type} (c : list A) :
  memmove 0 1 (length c - 1) c !! (length c - 1)%nat
  = c !! (length c - 1)%nat.
Proof.
  unfold memmove. destruct c as [|x c]; [reflexivity|].
  cbn [length take drop app Nat.add Nat.sub]. rewrite Nat.sub_0_r, drop_0.
  rewrite take_ge by lia.
  rewrite lookup_app_r by lia. rewrite Nat.sub_diag.
  destruct c as [|y c]; [reflexivity|].
  cbn [length drop]. rewrite lookup_drop. cbn [lookup].
  replace (length c + 0)%nat with (length c) by lia. reflexivity.
Qed.


(** ** What a round of the scaffold leaves alone *)

Lemma framed_refl (P : Event -> bool) (w : World) : framed P w w.
Proof.
  split; try reflexivity.
  exists []. split; [symmetry; apply app_nil_r | reflexivity].
Qed.

Lemma framed_trans (P : Event -> bool) (w1 w2 w3 : World) :
  framed P w1 w2 -> framed P w2 w3 -> framed P w1 w3.
Proof.
  intros [(e1 & T1 & F1) ? ? ? ? ? ? ?] [(e2 & T2 & F2) ? ? ? ? ? ? ?].
  split; try congruence.
  exists (e1 ++ e2). split.
  - rewrite T2, T1. symmetry. apply app_assoc.
  - rewrite forallb_app, F1, F2. reflexivity.
Qed.

Lemma framed_weaken (P Q : Event -> bool) (w w' : World) :
  (forall ev, P ev = true -> Q ev = true) -> framed P w w' -> framed Q w w'.
Proof.
  intros HPQ [(evs & T & HF) ? ? ? ? ? ? ?].
  split; try assumption.
  exists evs. split; [exact T|].
  apply forallb_forall. intros ev Hin.
  apply HPQ. eapply forallb_forall in HF; eauto.
Qed.

Lemma wait_for_current_meas_framed (e : Env) (w : World) :
  framed scaffold_event w (wait_for_current_meas e w).2.
Proof.
  unfold wait_for_current_meas, other_threads, watchdog_feed.
  destruct (ext_request e), (ext_watchdog_feed e), (motor_tripped e);
    solve_framed.
Qed.

Lemma do_updates_framed (e : Env) (w : World) :
  framed scaffold_event w (do_updates e w).2.
Proof. unfold do_updates, raise_error. solve_framed. Qed.

Lemma do_checks_framed (e : Env) (w : World) :
  framed scaffold_event w (do_checks e w).2.
Proof.
  unfold do_checks.
  repeat match goal with
         | |- context [if ?c then _ else _] => destruct c
         end;
    unfold raise_error; solve_framed.
Qed.

Lemma watchdog_check_framed (w : World) :
  framed scaffold_event w (watchdog_check w).2.
Proof.
  unfold watchdog_check.
  repeat match goal with
         | |- context [if ?c then _ else _] => destruct c
         end;
    unfold raise_error; solve_framed.
Qed.

Lemma pre_tick_framed (e : Env) (w : World) :
  framed scaffold_event w (pre_tick e w).2.
Proof.
  unfold pre_tick.
  pose proof (wait_for_current_meas_framed e w) as Hw.
  destruct (wait_for_current_meas e w) as [signalled w1]. cbn [snd] in Hw.
  destruct (negb signalled && _); [exact Hw|].
  pose proof (do_updates_framed e w1) as Hu.
  destruct (do_updates e w1) as [ok w2]. cbn [snd] in Hu.
  destruct (negb ok); cbn [snd]; eapply framed_trans; eauto.
Qed.

Lemma post_tick_framed (e : Env) (w : World) :
  framed scaffold_event w (post_tick e w).2.
Proof.
  unfold post_tick.
  pose proof (do_checks_framed e w) as Hc.
  destruct (do_checks e w) as [ok w1]. cbn [snd] in Hc.
  destruct (negb ok); [exact Hc|].
  pose proof (watchdog_check_framed w1) as Hd.
  destruct (watchdog_check w1) as [ok' w2]. cbn [snd] in Hd.
  destruct (negb ok'); [|destruct (negb _)]; cbn [snd];
    eapply framed_trans; eauto.
Qed.

(** A round of the scaffold is framed as soon as its tick body is. *)
Lemma control_loop_tick_framed {L : Type} (P : Event -> bool)
    (body : TickBody L) :
  (forall ev, scaffold_event ev = true -> P ev = true) ->
  (forall e l w, framed P w (body e l w).2) ->
  forall e l w, framed P w (control_loop_tick body e l w).2.
Proof.
  intros HP Hbody e l w. unfold control_loop_tick.
  pose proof (framed_weaken _ P _ _ HP (pre_tick_framed e w)) as Hpre.
  destruct (pre_tick e w) as [go w1]. cbn [snd] in Hpre.
  destruct (negb go); [exact Hpre|].
  pose proof (Hbody e l w1) as Hb.
  destruct (body e l w1) as [[c l'] w2]. cbn [snd] in Hb.
  destruct (negb c); cbn [snd]; [eapply framed_trans; eauto|].
  pose proof (framed_weaken _ P _ _ HP (post_tick_framed e w2)) as Hpost.
  destruct (post_tick e w2) as [go' w3]. cbn [snd] in *.
  eapply framed_trans; [|exact Hpost]. eapply framed_trans; eauto.
Qed.

(** So is the whole loop, however it ends. *)
Lemma run_control_loop_framed {L : Type} (P : Event -> bool)
    (body : TickBody L) :
  (forall ev, scaffold_event ev = true -> P ev = true) ->
  (forall e l w, framed P w (body e l w).2) ->
  forall tape l w, framed P w (final_world (run_control_loop body l tape w)).
Proof.
  intros HP Hbody tape.
  induction tape as [|e tape IH]; intros l w; cbn [run_control_loop].
  - apply framed_refl.
  - pose proof (control_loop_tick_framed P body HP Hbody e l w) as Ht.
    destruct (control_loop_tick body e l w) as [[c l'] w1]. cbn [snd] in Ht.
    destruct c; [|exact Ht].
    eapply framed_trans; [exact Ht | apply IH].
Qed.

(** A loop never runs into undefined behaviour, and a loop that returns
    returns a suffix of its tape. *)
Lemma run_control_loop_defined {L : Type} (body : TickBody L)
    (tape : list Env) (l : L) (w w' : World) :
  run_control_loop body l tape w <> Undefined w'.
Proof.
  revert l w. induction tape as [|e tape IH]; intros l w; cbn [run_control_loop].
  - discriminate.
  - destruct (control_loop_tick body e l w) as [[c l'] w1].
    destruct c; [apply IH | discriminate].
Qed.

Lemma run_control_loop_tape {L : Type} (body : TickBody L)
    (tape tape' : list Env) (l l' : L) (w w' : World) :
  run_control_loop body l tape w = Ok l' w' tape' ->
  (length tape' < length tape)%nat.
Proof.
  revert l w. induction tape as [|e tape IH]; intros l w; cbn [run_control_loop].
  - discriminate.
  - destruct (control_loop_tick body e l w) as [[c l1] w1].
    destruct c.
    + intros Hrun. apply IH in Hrun. cbn [length]. lia.
    + intros [= _ _ ->]. cbn [length]. lia.
Qed.

(** The round reaches its tick body when the signal arrives and no error is
    latched after the updates. *)
Lemma pre_tick_go (e : Env) (w : World) :
  wait_ok e = true ->
  Z.lor (error_ (self w)) (update_errors e) = 0 ->
  (pre_tick e w).1 = true.
Proof.
  intros Hwait Herr. unfold pre_tick, wait_for_current_meas. rewrite Hwait.
  cbn [negb andb].
  assert (Hsame : error_ (self (emit (EvWaitCurrentMeas true) (other_threads e w)))
                  = error_ (self w)).
  { unfold other_threads, watchdog_feed.
    destruct (ext_request e), (ext_watchdog_feed e), (motor_tripped e);
      reflexivity. }
  unfold do_updates, check_for_errors, raise_error. cbn.
  cbn in Hsame. rewrite Hsame, Herr. reflexivity.
Qed.

(** ** Sensorless control *)

(** C3. A sensorless tick with the controller in position control (or a
    higher mode) raises [ERROR_POS_CTRL_DURING_SENSORLESS] and returns
    false; it calls neither [controller_.update] nor [motor_.update] (the
    trace is as before) and changes nothing but [error_].  The loop then
    ends within this round: no update call is made at all, and
    [run_sensorless_control_loop] returns false when the round had reached
    the tick body. *)
Theorem sensorless_rejects_position_control (e : Env) (w : World) :
  CTRL_MODE_POSITION_CONTROL <= control_mode (controller_ (self w)) ->
  sensorless_tick e tt w
  = (false, tt, raise_error ERROR_POS_CTRL_DURING_SENSORLESS w)
  /\ trace (sensorless_tick e tt w).2 = trace w
  /\ error_ (self (sensorless_tick e tt w).2)
     = Z.lor (error_ (self w)) ERROR_POS_CTRL_DURING_SENSORLESS
  /\ forall tape,
       exists status w' evs,
         run_sensorless_control_loop (e :: tape) w = Ok status w' tape
         /\ trace w' = trace w ++ evs
         /\ forallb scaffold_event evs = true
         /\ ((pre_tick e w).1 = true ->
             error_ (self w')
             = Z.lor (error_ (self (pre_tick e w).2))
                     ERROR_POS_CTRL_DURING_SENSORLESS
             /\ (ERROR_POS_CTRL_DURING_SENSORLESS <> 0 -> status = false)).
Proof.
  intros Hmode.
  assert (Htick : forall w0,
             control_mode (controller_ (self w0))
             = control_mode (controller_ (self w)) ->
             sensorless_tick e tt w0
             = (false, tt, raise_error ERROR_POS_CTRL_DURING_SENSORLESS w0)).
  { intros w0 Hw0. unfold sensorless_tick. rewrite Hw0.
    destruct (Z.leb_spec CTRL_MODE_POSITION_CONTROL
                         (control_mode (controller_ (self w)))); [reflexivity|lia]. }
  rewrite (Htick w eq_refl).
  split; [reflexivity|]. split; [reflexivity|]. split; [reflexivity|].
  intros tape.
  unfold run_sensorless_control_loop.
  cbn [run_control_loop]. unfold control_loop_tick.
  pose proof (pre_tick_framed e w) as Hpre.
  destruct (pre_tick e w) as [go w1]. cbn [fst snd] in *.
  destruct Hpre as [(evs & Htr & Hev) _ _ _ Hctl _ _ _].
  destruct go; cbn [negb bind].
  - rewrite Htick by (rewrite Hctl; reflexivity). cbn [negb bind].
    eexists _, _, evs. split; [reflexivity|].
    split; [exact Htr|]. split; [exact Hev|].
    intros _. split; [reflexivity|].
    intros Hmask. unfold check_for_errors, raise_error, ERROR_NONE. cbn.
    apply Z.eqb_neq. intros Hz. apply Z.lor_eq_0_iff in Hz. tauto.
  - eexists _, _, evs. split; [reflexivity|].
    split; [exact Htr|]. split; [exact Hev|].
    intros Hgo. discriminate.
Qed.

(** ** Open-loop control *)

(** [set_step_dir_active] writes [step_dir_active_] and nothing else of the
    axis; its GPIO calls only show in the trace. *)
Lemma set_step_dir_active_self (active : bool) (w : World) :
  self (set_step_dir_active active w) = set_step_dir_active_ active (self w)
  /\ this_is_axes0 (set_step_dir_active active w) = this_is_axes0 w.
Proof.
  unfold set_step_dir_active, gpio_deinit.
  destruct w as [a this tr]. destruct a. destruct active; cbn;
    repeat match goal with
           | |- context [match ?g with Some _ => _ | None => _ end] =>
             destruct g; cbn
           end;
    split; reflexivity.
Qed.

Lemma set_step_dir_active_trace (active : bool) (w : World) :
  exists evs, trace (set_step_dir_active active w) = trace w ++ evs
              /\ forallb gpio_event evs = true.
Proof.
  unfold set_step_dir_active, gpio_deinit.
  destruct w as [a this tr]. destruct a. destruct active; cbn;
    repeat match goal with
           | |- context [match ?g with Some _ => _ | None => _ end] =>
             destruct g; cbn
           end;
    first [ exists []; split; [symmetry; apply app_nil_r | reflexivity]
          | rewrite <- ?app_assoc; eexists; split; reflexivity ].
Qed.

(** C4. An open-loop tick of a phase-locked motor whose sibling axis is not
    in [AXIS_STATE_OPEN_LOOP_CONTROL] raises [ERROR_INVALID_STATE] and
    returns false without calling [motor_.update]; the round of the state
    machine it runs in then ends with [current_state_] at
    [AXIS_STATE_IDLE].  With the sibling in open-loop control the tick
    copies the sibling's [phase_setpoint_] into its own motor and hands that
    phase to [motor_.update]. *)
Theorem open_loop_phase_locked (e : Env) (w : World) :
  motor_phase_locked (motor_ (self w)) = true ->
  let other := other_axis e w in
  (current_state_ other <> AXIS_STATE_OPEN_LOOP_CONTROL ->
   open_loop_tick e tt w = (false, tt, raise_error ERROR_INVALID_STATE w)
   /\ forall tape,
        current_state_ (self w) = AXIS_STATE_OPEN_LOOP_CONTROL ->
        requested_state_ (self w) = AXIS_STATE_UNDEFINED ->
        motor_direction (motor_ (self w)) <> 0 ->
        wait_ok e = true ->
        Z.lor (error_ (self w)) (update_errors e) = 0 ->
        ERROR_INVALID_STATE <> 0 ->
        exists w',
          state_machine_iteration (e :: tape) w = Ok tt w' tape
          /\ current_state_ (self w') = AXIS_STATE_IDLE
          /\ Z.land (error_ (self w')) ERROR_INVALID_STATE
             = ERROR_INVALID_STATE
          /\ forallb (fun ev => negb (update_event ev))
                     (drop (length (trace w)) (trace w')) = true)
  /\ (current_state_ other = AXIS_STATE_OPEN_LOOP_CONTROL ->
      let r := open_loop_tick e tt w in
      phase_setpoint_ (motor_ (self r.2)) = phase_setpoint_ (motor_ other)
      /\ r.1.1 = motor_update_ok e
      /\ trace r.2
         = trace w
           ++ [EvMotorUpdate
                 (current_setpoint_ (controller_ (self w)))
                 (phase_setpoint_ (motor_ other))
                 (fmul (fmul two_pi (vel_setpoint_ (controller_ other)))
                       (f_of_Z (motor_pole_pairs (motor_ other))))
                 (motor_update_ok e)]).
Proof.
  intros Hlocked other. split.
  - intros Hother.
    assert (Htick : forall w0,
               motor_phase_locked (motor_ (self w0)) = true ->
               this_is_axes0 w0 = this_is_axes0 w ->
               open_loop_tick e tt w0
               = (false, tt, raise_error ERROR_INVALID_STATE w0)).
    { intros w0 Hl Hthis. unfold open_loop_tick. rewrite Hl. cbn [negb].
      replace (other_axis e w0) with other
        by (subst other; unfold other_axis; rewrite Hthis; reflexivity).
      rewrite bool_decide_eq_false_2 by exact Hother. reflexivity. }
    split; [apply Htick; [exact Hlocked | reflexivity]|].
    intros tape Hcur Hreq Hdir Hwait Herr Hmask.
    unfold state_machine_iteration, load_task_chain.
    destruct (decide (requested_state_ (self w) ≠ AXIS_STATE_UNDEFINED))
      as [Hne | _]; [contradiction|].
    replace (on_self (fun _ => self w) w) with w by (destruct w; reflexivity).
    unfold dispatch. rewrite Hcur.
    destruct (Z.eqb_spec (motor_direction (motor_ (self w))) 0) as [|_];
      [contradiction|].
    unfold run_open_loop_control_loop.
    set (w0 := set_step_dir_active (enable_step_dir (config_ (self w))) w).
    destruct (set_step_dir_active_self (enable_step_dir (config_ (self w))) w)
      as [Hself0 Hthis0].
    fold w0 in Hself0, Hthis0.
    cbn [run_control_loop]. unfold control_loop_tick.
    pose proof (pre_tick_framed e w0) as Hpre.
    pose proof (pre_tick_go e w0 Hwait) as Hgo.
    rewrite Hself0 in Hgo. specialize (Hgo Herr).
    destruct (pre_tick e w0) as [go w1]. cbn [fst snd] in *. subst go.
    destruct Hpre as [(evs & Htr & Hev) Hthis1 Hchain1 _ _ _ _ Hpl1].
    cbn [negb].
    rewrite Htick; cycle 1.
    { rewrite Hpl1, Hself0. exact Hlocked. }
    { rewrite Hthis1. exact Hthis0. }
    cbn [negb bind].
    set (w2 := set_step_dir_active false (raise_error ERROR_INVALID_STATE w1)).
    destruct (set_step_dir_active_self false
                (raise_error ERROR_INVALID_STATE w1)) as [Hself2 _].
    fold w2 in Hself2.
    assert (Hfail : check_for_errors w2 = false).
    { unfold check_for_errors, ERROR_NONE. rewrite Hself2. cbn.
      apply Z.eqb_neq. intros Hz. apply Z.lor_eq_0_iff in Hz. tauto. }
    rewrite Hfail.
    eexists. split; [reflexivity|].
    assert (Hchain2 : task_chain_ (self w2) = task_chain_ (self w)).
    { rewrite Hself2. cbn. rewrite Hchain1, Hself0. reflexivity. }
    split; [|split].
    + unfold advance. cbn [negb self on_self].
      unfold current_state_, set_current_state_ in *.
      cbn [task_chain_ set_task_chain_]. rewrite Hchain2.
      destruct (task_chain_ (self w)) as [|s c]; [discriminate|reflexivity].
    + unfold advance. cbn [negb self on_self].
      unfold set_current_state_.
      replace (error_ (set_task_chain_ _ (self w2))) with (error_ (self w2))
        by reflexivity.
      rewrite Hself2. cbn.
      apply Z.bits_inj'. intros n Hn.
      rewrite Z.land_spec, Z.lor_spec.
      destruct (Z.testbit ERROR_INVALID_STATE n);
        [rewrite orb_true_r | rewrite andb_false_r]; reflexivity.
    + cbn [on_self trace].
      pose proof (set_step_dir_active_trace false
                    (raise_error ERROR_INVALID_STATE w1)) as Htr2.
      fold w2 in Htr2. cbn [raise_error on_self trace] in Htr2.
      pose proof (set_step_dir_active_trace
                    (enable_step_dir (config_ (self w))) w) as Htr0.
      fold w0 in Htr0.
      destruct Htr2 as (evs2 & Htr2 & Hev2).
      destruct Htr0 as (evs0 & Htr0 & Hev0).
      rewrite Htr2, Htr, Htr0, <- !app_assoc.
      rewrite drop_app_length.
      rewrite !forallb_app. repeat (apply andb_true_intro; split);
        apply forallb_forall; intros ev Hin;
        [ eapply forallb_forall in Hev0; [|exact Hin]
        | eapply forallb_forall in Hev; [|exact Hin]
        | eapply forallb_forall in Hev2; [|exact Hin] ];
        destruct ev; cbn in *; congruence.
  - intros Hother r. subst r.
    unfold open_loop_tick. rewrite Hlocked. cbn [negb].
    fold other. rewrite bool_decide_eq_true_2 by exact Hother. cbn [negb].
    unfold open_loop_drive, motor_update. cbn.
    destruct (motor_update_ok e); cbn; repeat split; reflexivity.
Qed.

(** ** Idle *)

Lemma idle_tick_framed (e : Env) (l : unit) (w : World) :
  framed scaffold_event w (idle_tick e l w).2.
Proof. apply framed_refl. Qed.

(** The idle wait only runs rounds of the scaffold, never runs into
    undefined behaviour, and returns only with a request pending. *)
Lemma idle_while_spec (fuel : nat) :
  forall (tape : list Env) (w : World),
    let r := idle_while fuel tape w in
    framed scaffold_event w (final_world r)
    /\ (forall w', r <> Undefined w')
    /\ (forall u w' tape', r = Ok u w' tape' ->
        requested_state_ (self w') <> AXIS_STATE_UNDEFINED).
Proof.
  induction fuel as [|fuel IH]; intros tape w; cbn [idle_while];
    destruct (bool_decide_reflect
                (requested_state_ (self w) = AXIS_STATE_UNDEFINED))
      as [Hreq | Hreq]; cbn [negb].
  - split; [apply framed_refl|]. split; [discriminate|]. discriminate.
  - split; [apply framed_refl|]. split; [discriminate|].
    intros u w' tape' Heq. inversion Heq; subst. exact Hreq.
  - pose proof (run_control_loop_framed scaffold_event idle_tick
                  (fun _ Hev => Hev) idle_tick_framed tape tt w) as Hloop.
    pose proof (run_control_loop_defined idle_tick tape tt w) as Hdef.
    destruct (run_control_loop idle_tick tt tape w) as [u w1 tape1 | w1 | w1];
      cbn [bind final_world] in *.
    + destruct (IH tape1 w1) as (Hfr & Hnu & Hok).
      split; [eapply framed_trans; eauto|]. split; [exact Hnu | exact Hok].
    + split; [exact Hloop|]. split; discriminate.
    + exfalso. eapply Hdef. reflexivity.
  - split; [apply framed_refl|]. split; [discriminate|].
    intros u w' tape' Heq. inversion Heq; subst. exact Hreq.
Qed.

(** [motor_.arm()] takes one record, appends its call to the trace and
    touches nothing of the axis but the motor. *)
Lemma motor_arm_spec (tape : list Env) (w : World) :
  match motor_arm tape w with
  | Ok status w' tape' =>
    trace w' = trace w ++ [EvMotorArm status]
    /\ requested_state_ (self w') = requested_state_ (self w)
    /\ task_chain_ (self w') = task_chain_ (self w)
  | OutOfFuel w' => w' = w
  | Undefined _ => False
  end.
Proof.
  unfold motor_arm. destruct tape as [|e tape]; [reflexivity|].
  destruct (motor_arm_ok e); repeat split; reflexivity.
Qed.

(** Without a pending request a round of the state machine is the dispatch
    followed by the advance. *)
Lemma state_machine_iteration_no_request (tape : list Env) (w : World) :
  requested_state_ (self w) = AXIS_STATE_UNDEFINED ->
  state_machine_iteration tape w
  = bind (dispatch tape w)
         (fun status w tape => Ok tt (on_self (advance status) w) tape).
Proof.
  intros Hreq. unfold state_machine_iteration, load_task_chain.
  destruct (decide (requested_state_ (self w) ≠ AXIS_STATE_UNDEFINED));
    [contradiction|].
  replace (on_self (fun _ => self w) w) with w by (destruct w; reflexivity).
  reflexivity.
Qed.


(** ** Lock-in spin *)

Lemma scaffold_loop_event (ev : Event) :
  scaffold_event ev = true -> loop_event ev = true.
Proof. unfold loop_event. intros ->. reflexivity. Qed.

Lemma motor_update_framed (e : Env) (i p v : float) (w : World) :
  framed loop_event w (motor_update e i p v w).2.
Proof. unfold motor_update, raise_error. solve_framed. Qed.

Lemma lockin_ramp_tick_framed (e : Env) (x : float) (w : World) :
  framed loop_event w (lockin_ramp_tick e x w).2.
Proof.
  unfold lockin_ramp_tick.
  match goal with
  | |- context [motor_update e ?i ?p ?v w] =>
    pose proof (motor_update_framed e i p v w) as Hm;
    destruct (motor_update e i p v w) as [ok w1]
  end.
  destruct ok; exact Hm.
Qed.

Lemma lockin_accelerate_tick_framed (e : Env) (s : Spin) (w : World) :
  framed loop_event w (lockin_accelerate_tick e s w).2.
Proof.
  unfold lockin_accelerate_tick.
  match goal with
  | |- context [motor_update e ?i ?p ?v w] =>
    pose proof (motor_update_framed e i p v w) as Hm;
    destruct (motor_update e i p v w) as [ok w1]
  end.
  destruct ok; exact Hm.
Qed.

Lemma lockin_history_app (tr1 tr2 : list Event) :
  lockin_history (tr1 ++ tr2) = lockin_history tr1 ++ lockin_history tr2.
Proof. apply omap_app. Qed.

Lemma lockin_history_loop (evs : list Event) :
  forallb loop_event evs = true -> lockin_history evs = [].
Proof.
  induction evs as [|ev evs IH]; [reflexivity|].
  cbn [forallb]. intros Hev. apply andb_true_iff in Hev as [Hev Hrest].
  unfold lockin_history in *. cbn [omap list_omap].
  destruct ev; try discriminate; cbn; apply IH; exact Hrest.
Qed.

(** The spin is done exactly when one of the enabled finish conditions
    holds. *)
Lemma spin_done_iff (s : Spin) (w : World) :
  let lk := lockin (config_ (self w)) in
  spin_done false s w = true <->
  (lockin_finish_on_vel lk = true
   /\ fleb (fabsf (lockin_vel lk)) (fabsf (vel s)) = true)
  \/ (lockin_finish_on_distance lk = true
      /\ fleb (fabsf (lockin_finish_distance lk)) (fabsf (distance s)) = true)
  \/ (lockin_finish_on_enc_idx lk = true
      /\ index_found_ (encoder_ (self w)) = true).
Proof.
  unfold spin_done. cbn zeta.
  destruct (lockin_finish_on_vel _), (lockin_finish_on_distance _),
    (lockin_finish_on_enc_idx _),
    (fleb (fabsf (lockin_vel _)) _), (fleb (fabsf (lockin_finish_distance _)) _),
    (index_found_ _); cbn; intuition congruence.
Qed.

(** What the two loops of [lockin_spin_up] leave in the trace: the two
    assignments to [lockin_state_], around rounds of the loops. *)
Lemma lockin_spin_up_history (tape tape1 : list Env) (w w1 : World) (s : Spin) :
  lockin_spin_up tape w = Ok s w1 tape1 ->
  exists evs, trace w1 = trace w ++ evs
              /\ lockin_history evs
                 = [LOCKIN_STATE_RAMP; LOCKIN_STATE_ACCELERATE].
Proof.
  unfold lockin_spin_up.
  set (w0 := assign_lockin_state LOCKIN_STATE_RAMP w).
  pose proof (run_control_loop_framed loop_event lockin_ramp_tick
                scaffold_loop_event lockin_ramp_tick_framed
                tape (f_of_Z 0) w0) as Hramp.
  destruct (run_control_loop lockin_ramp_tick (f_of_Z 0) tape w0)
    as [x wa tapea | wa | wa]; cbn [bind final_world] in *; try discriminate.
  set (wb := assign_lockin_state LOCKIN_STATE_ACCELERATE wa).
  match goal with
  | |- run_control_loop _ ?s0 _ _ = _ -> _ =>
    pose proof (run_control_loop_framed loop_event lockin_accelerate_tick
                  scaffold_loop_event lockin_accelerate_tick_framed
                  tapea s0 wb) as Hacc
  end.
  intros Hrun. rewrite Hrun in Hacc. cbn [final_world] in Hacc.
  destruct Hramp as [(ev1 & Ht1 & He1) _ _ _ _ _ _ _].
  destruct Hacc as [(ev2 & Ht2 & He2) _ _ _ _ _ _ _].
  exists ([EvLockinState LOCKIN_STATE_RAMP] ++ ev1
          ++ [EvLockinState LOCKIN_STATE_ACCELERATE] ++ ev2).
  split.
  - rewrite Ht2. subst wb. cbn [assign_lockin_state on_self emit trace].
    rewrite Ht1. subst w0. cbn [assign_lockin_state on_self emit trace].
    rewrite <- !app_assoc. reflexivity.
  - rewrite !lockin_history_app, (lockin_history_loop ev1 He1),
      (lockin_history_loop ev2 He2). reflexivity.
Qed.

(** C9. When the accelerate loop has ended and [spin_done()] already holds,
    the constant-velocity state is skipped: [run_lockin_spin] takes no
    further record of the tape and calls [motor_.update] no more (after the
    accelerate loop the trace only gets the index subscription, if the index
    is not found yet, and the reset of [lockin_state_]); over the whole spin
    [lockin_state_] takes the values RAMP, ACCELERATE, INACTIVE and never
    [LOCKIN_STATE_CONST_VEL]. *)
Theorem lockin_const_vel_skipped (tape tape1 : list Env) (w w1 : World)
    (s : Spin) :
  lockin_spin_up tape w = Ok s w1 tape1 ->
  spin_done false s w1 = true ->
  exists w2,
    run_lockin_spin tape w = Ok (check_for_errors w2) w2 tape1
    /\ trace w2
       = trace w1
         ++ (if index_found_ (encoder_ (self w1)) then []
             else [EvSetIdxSubscribe true])
         ++ [EvLockinState LOCKIN_STATE_INACTIVE]
    /\ lockin_state_ (self w2) = LOCKIN_STATE_INACTIVE
    /\ lockin_history (drop (length (trace w)) (trace w2))
       = [LOCKIN_STATE_RAMP; LOCKIN_STATE_ACCELERATE; LOCKIN_STATE_INACTIVE]
    /\ LOCKIN_STATE_CONST_VEL
       ∉ lockin_history (drop (length (trace w)) (trace w2)).
Proof.
  intros Hup Hdone.
  destruct (lockin_spin_up_history _ _ _ _ _ Hup) as (evs & Htr1 & Hhist).
  unfold run_lockin_spin. rewrite Hup. cbn [bind].
  unfold lockin_spin_finish.
  set (w1' := if negb (index_found_ (encoder_ (self w1)))
              then emit (EvSetIdxSubscribe true) w1 else w1).
  assert (Hdone' : spin_done false s w1' = true).
  { subst w1'. destruct (index_found_ (encoder_ (self w1))); exact Hdone. }
  rewrite Hdone'. cbn [negb bind].
  eexists. split; [reflexivity|].
  assert (Htr2 : trace (assign_lockin_state LOCKIN_STATE_INACTIVE w1')
                 = trace w1
                   ++ (if index_found_ (encoder_ (self w1)) then []
                       else [EvSetIdxSubscribe true])
                   ++ [EvLockinState LOCKIN_STATE_INACTIVE]).
  { subst w1'. destruct (index_found_ (encoder_ (self w1))); cbn;
      rewrite <- ?app_assoc; reflexivity. }
  split; [exact Htr2|]. split; [reflexivity|].
  assert (Hh : lockin_history
                 (drop (length (trace w))
                       (trace (assign_lockin_state LOCKIN_STATE_INACTIVE w1')))
               = [LOCKIN_STATE_RAMP; LOCKIN_STATE_ACCELERATE;
                  LOCKIN_STATE_INACTIVE]).
  { rewrite Htr2, Htr1, <- !app_assoc, drop_app_length.
    rewrite !lockin_history_app, Hhist.
    destruct (index_found_ (encoder_ (self w1))); reflexivity. }
  split; [exact Hh|].
  rewrite Hh. intros Hin.
  repeat (apply elem_of_cons in Hin as [Hin | Hin]; [discriminate|]).
  inversion Hin.
Qed.

(** ** The ramp of the lock-in spin *)

Lemma motor_commands_app (tr1 tr2 : list Event) :
  motor_commands (tr1 ++ tr2) = motor_commands tr1 ++ motor_commands tr2.
Proof. apply omap_app. Qed.

Lemma motor_commands_scaffold (evs : list Event) :
  forallb scaffold_event evs = true -> motor_commands evs = [].
Proof.
  induction evs as [|ev evs IH]; [reflexivity|].
  cbn [forallb]. intros Hev. apply andb_true_iff in Hev as [Hev Hrest].
  unfold motor_commands in *. cbn [omap list_omap].
  destruct ev; try discriminate; cbn; apply IH; exact Hrest.
Qed.

Lemma framed_motor_commands (w w' : World) :
  framed scaffold_event w w' ->
  motor_commands (trace w') = motor_commands (trace w).
Proof.
  intros [(evs & Htr & Hev) _ _ _ _ _ _ _].
  rewrite Htr, motor_commands_app, (motor_commands_scaffold evs Hev).
  apply app_nil_r.
Qed.

(** The tick of the ramp in one piece: whether the loop goes on, the new
    [x], and the state after the call of [motor_.update]. *)
Lemma lockin_ramp_tick_eq (e : Env) (x : float) (w : World) :
  let lk := lockin (config_ (self w)) in
  let x' := fadd x (fdiv current_meas_period (lockin_ramp_time lk)) in
  lockin_ramp_tick e x w
  = (motor_update_ok e && fltb x' (f_of_Z 1), x',
     raise_error (motor_update_errors e)
       (emit (EvMotorUpdate (fmul (lockin_current lk) x)
                            (wrap_pm_pi (fmul (lockin_ramp_distance lk) x))
                            (f_of_Z 0) (motor_update_ok e)) w)).
Proof.
  unfold lockin_ramp_tick, motor_update. cbn zeta.
  destruct (motor_update_ok e); reflexivity.
Qed.

Section Ramp.
Context (FL : FloatLaws F).

Lemma nondecreasing_head (a b : float) (l : list float) :
  fleb a b = true -> nondecreasing (b :: l) = true ->
  nondecreasing (a :: l) = true.
Proof.
  intros Hab. destruct l as [|c l]; [reflexivity|].
  cbn [nondecreasing]. intros Hbl.
  apply andb_true_iff in Hbl as [Hbc Hl].
  apply andb_true_iff. split; [|exact Hl].
  eapply fleb_trans; eauto.
Qed.

(** The invariant of the ramp loop, for any quantity [key] read off the
    commands that does not decrease as [x] grows within [[0, 1]]: the
    commands issued from here on are sorted by [key], and none lies below
    the command the current [x] would give. *)
Lemma ramp_sorted_from (cfg : Config) (key : float -> float -> float) :
  let lk := lockin cfg in
  let K x := key (fmul (lockin_current lk) x)
                 (wrap_pm_pi (fmul (lockin_ramp_distance lk) x)) in
  fleb (f_of_Z 0) (fdiv current_meas_period (lockin_ramp_time lk)) = true ->
  (forall x x', fleb (f_of_Z 0) x = true -> fleb x x' = true ->
                fleb x' (f_of_Z 1) = true -> fleb (K x) (K x') = true) ->
  forall (tape : list Env) (x : float) (w : World),
    config_ (self w) = cfg ->
    fleb (f_of_Z 0) x = true -> fleb x (f_of_Z 1) = true ->
    exists cmds,
      motor_commands
        (trace (final_world (run_control_loop lockin_ramp_tick x tape w)))
      = motor_commands (trace w) ++ cmds
      /\ nondecreasing (K x :: map (fun c => key c.1 c.2) cmds) = true.
Proof.
  intros lk K Hstep Hmono tape.
  induction tape as [|e tape IH]; intros x w Hcfg Hx0 Hx1;
    cbn [run_control_loop final_world].
  - exists []. split; [symmetry; apply app_nil_r | reflexivity].
  - unfold control_loop_tick.
    pose proof (pre_tick_framed e w) as Hpre.
    destruct (pre_tick e w) as [go w1]. cbn [snd] in Hpre.
    pose proof (framed_motor_commands _ _ Hpre) as Hc1.
    pose proof (fr_config _ _ _ Hpre) as Hcfg1. rewrite Hcfg in Hcfg1.
    destruct go; cbn [negb]; cycle 1.
    { exists []. cbn [final_world]. rewrite Hc1.
      split; [symmetry; apply app_nil_r | reflexivity]. }
    rewrite lockin_ramp_tick_eq. cbv zeta. rewrite Hcfg1. fold lk.
    set (x' := fadd x (fdiv current_meas_period (lockin_ramp_time lk))).
    set (i := fmul (lockin_current lk) x).
    set (p := wrap_pm_pi (fmul (lockin_ramp_distance lk) x)).
    set (w2 := raise_error (motor_update_errors e)
                 (emit (EvMotorUpdate i p (f_of_Z 0) (motor_update_ok e)) w1)).
    assert (Hc2 : motor_commands (trace w2)
                  = motor_commands (trace w) ++ [(i, p)]).
    { subst w2. cbn [raise_error on_self emit trace].
      rewrite motor_commands_app, Hc1. reflexivity. }
    assert (Hcfg2 : config_ (self w2) = cfg) by exact Hcfg1.
    assert (Hone : nondecreasing (K x :: map (fun c => key c.1 c.2) [(i, p)])
                   = true).
    { cbn. subst K i p. cbn. rewrite fleb_refl. reflexivity. }
    assert (Hxx' : fleb x x' = true) by (apply fadd_nonneg_r; exact Hstep).
    destruct (motor_update_ok e && fltb x' (f_of_Z 1)) eqn:Hgo;
      cbn [negb]; cycle 1.
    { exists [(i, p)]. cbn [final_world]. split; [exact Hc2 | exact Hone]. }
    apply andb_true_iff in Hgo as [_ Hlt].
    pose proof (post_tick_framed e w2) as Hpost.
    destruct (post_tick e w2) as [go3 w3]. cbn [snd] in Hpost.
    pose proof (framed_motor_commands _ _ Hpost) as Hc3.
    pose proof (fr_config _ _ _ Hpost) as Hcfg3. rewrite Hcfg2 in Hcfg3.
    destruct go3; cycle 1.
    { exists [(i, p)]. cbn [final_world]. rewrite Hc3.
      split; [exact Hc2 | exact Hone]. }
    assert (Hx'1 : fleb x' (f_of_Z 1) = true) by (apply fltb_fleb; exact Hlt).
    assert (Hx'0 : fleb (f_of_Z 0) x' = true) by (eapply fleb_trans; eauto).
    destruct (IH x' w3 Hcfg3 Hx'0 Hx'1) as (cmds & Hcmds & Hsorted).
    exists ((i, p) :: cmds). split.
    + rewrite Hcmds, Hc3, Hc2, <- app_assoc. reflexivity.
    + cbn [map nondecreasing fst snd].
      apply andb_true_iff. split.
      * subst K i p. cbn. apply fleb_refl.
      * change (key i p) with (K x).
        eapply nondecreasing_head; [|exact Hsorted].
        apply Hmono; assumption.
Qed.

Lemma nondecreasing_tail (a : float) (l : list float) :
  nondecreasing (a :: l) = true -> nondecreasing l = true.
Proof.
  destruct l as [|b l]; [reflexivity|].
  cbn [nondecreasing]. intros Hal. apply andb_true_iff in Hal. tauto.
Qed.

End Ramp.


(** ** More on the watchdog *)

Lemma watchdog_checks_app (n k : nat) (w : World) :
  watchdog_checks (n + k) w
  = let '(a, w1) := watchdog_checks n w in
    let '(b, w2) := watchdog_checks k w1 in
    (a ++ b, w2).
Proof.
  revert w. induction n as [|n IH]; intros w; cbn [watchdog_checks Nat.add].
  - destruct (watchdog_checks k w). reflexivity.
  - destruct (watchdog_check w) as [ok w1]. rewrite IH.
    destruct (watchdog_checks n w1) as [a w2].
    destruct (watchdog_checks k w2) as [b w3]. reflexivity.
Qed.

(** The two moves of an enabled watchdog. *)
Lemma watchdog_check_positive (w : World) :
  watchdog_reset_value_ (self w) <> 0 ->
  0 < watchdog_current_value_ (self w) <= UINT32_MAX ->
  watchdog_check w
  = (true, on_self (set_watchdog_current_value_
                      (watchdog_current_value_ (self w) - 1)) w).
Proof.
  intros Hreset Hcur. unfold watchdog_check.
  destruct (Z.eqb_spec (watchdog_reset_value_ (self w)) 0); [contradiction|].
  destruct (Z.ltb_spec 0 (watchdog_current_value_ (self w))); [|lia].
  unfold on_self. cbn. rewrite u32_id by (unfold is_u32; lia). reflexivity.
Qed.

Lemma watchdog_check_zero (w : World) :
  watchdog_reset_value_ (self w) <> 0 ->
  watchdog_current_value_ (self w) = 0 ->
  watchdog_check w = (false, raise_error ERROR_WATCHDOG_TIMER_EXPIRED w).
Proof.
  intros Hreset Hcur. unfold watchdog_check.
  destruct (Z.eqb_spec (watchdog_reset_value_ (self w)) 0); [contradiction|].
  rewrite Hcur. reflexivity.
Qed.

(** While the counter is positive every check succeeds and takes one off. *)
Lemma watchdog_checks_alive (m : nat) :
  forall w : World,
    watchdog_reset_value_ (self w) <> 0 ->
    watchdog_current_value_ (self w) = Z.of_nat m ->
    Z.of_nat m <= UINT32_MAX ->
    let r := watchdog_checks m w in
    r.1 = replicate m true
    /\ watchdog_current_value_ (self r.2) = 0
    /\ watchdog_reset_value_ (self r.2) = watchdog_reset_value_ (self w)
    /\ error_ (self r.2) = error_ (self w).
Proof.
  induction m as [|m IH]; intros w Hreset Hcur Hmax; cbn [watchdog_checks].
  - cbn. auto.
  - rewrite watchdog_check_positive by (try assumption; lia).
    set (w1 := on_self (set_watchdog_current_value_
                          (watchdog_current_value_ (self w) - 1)) w).
    destruct (IH w1) as (Hoks & Hzero & Hres & Herr);
      [exact Hreset | cbn; lia | lia |].
    destruct (watchdog_checks m w1) as [oks w2]. cbn in *.
    rewrite Hoks. auto.
Qed.

(** On a counter of 0 every check fails, and the counter stays at 0. *)
Lemma watchdog_checks_expired (k : nat) :
  forall w : World,
    watchdog_reset_value_ (self w) <> 0 ->
    watchdog_current_value_ (self w) = 0 ->
    let r := watchdog_checks k w in
    r.1 = replicate k false
    /\ watchdog_current_value_ (self r.2) = 0
    /\ watchdog_reset_value_ (self r.2) = watchdog_reset_value_ (self w)
    /\ error_ (self r.2)
       = match k with
         | O => error_ (self w)
         | S _ => Z.lor (error_ (self w)) ERROR_WATCHDOG_TIMER_EXPIRED
         end.
Proof.
  induction k as [|k IH]; intros w Hreset Hcur; cbn [watchdog_checks].
  - cbn. auto.
  - rewrite watchdog_check_zero by assumption.
    set (w1 := raise_error ERROR_WATCHDOG_TIMER_EXPIRED w).
    destruct (IH w1) as (Hoks & Hzero & Hres & Herr);
      [exact Hreset | exact Hcur |].
    destruct (watchdog_checks k w1) as [oks w2]. cbn in *.
    rewrite Hoks. repeat split; try assumption.
    rewrite Herr. destruct k; [reflexivity|].
    rewrite <- Z.lor_assoc, Z.lor_diag. reflexivity.
Qed.

(** X1. A watchdog of [n > 0] ticks that has just been fed lets exactly [n]
    checks pass; every check after that fails, raising
    [ERROR_WATCHDOG_TIMER_EXPIRED] and leaving the counter at 0, until the
    next feed.  Nothing else in [error_] changes. *)
Theorem watchdog_expires_after_reset_value (n k : nat) (w : World) :
  watchdog_reset_value_ (self w) = Z.of_nat n ->
  (0 < n)%nat ->
  Z.of_nat n <= UINT32_MAX ->
  let r := watchdog_checks (n + k) (watchdog_feed w) in
  r.1 = replicate n true ++ replicate k false
  /\ watchdog_current_value_ (self r.2) = 0
  /\ error_ (self r.2)
     = match k with
       | O => error_ (self w)
       | S _ => Z.lor (error_ (self w)) ERROR_WATCHDOG_TIMER_EXPIRED
       end.
Proof.
  intros Hreset Hpos Hmax r. subst r.
  rewrite watchdog_checks_app.
  destruct (watchdog_checks_alive n (watchdog_feed w))
    as (Hoks & Hzero & Hres & Herr); [cbn; lia | cbn; lia | exact Hmax |].
  destruct (watchdog_checks n (watchdog_feed w)) as [a w1]. cbn [fst snd] in *.
  destruct (watchdog_checks_expired k w1) as (Hoks2 & Hzero2 & _ & Herr2);
    [rewrite Hres; cbn; lia | exact Hzero |].
  destruct (watchdog_checks k w1) as [b w2]. cbn [fst snd] in *.
  rewrite Hoks, Hoks2. split; [reflexivity|]. split; [exact Hzero2|].
  rewrite Herr2, Herr. reflexivity.
Qed.

(** X2. A watchdog timeout that is not positive switches the watchdog off:
    after [update_watchdog_settings] the reset value and the counter are 0,
    and any number of checks pass without touching [error_]. *)
Theorem nonpositive_timeout_disables_watchdog (n : nat) (w : World) :
  fleb (watchdog_timeout (config_ (self w))) (f_of_Z 0) = true ->
  let w0 := update_watchdog_settings w in
  let r := watchdog_checks n w0 in
  watchdog_reset_value_ (self w0) = 0
  /\ watchdog_current_value_ (self w0) = 0
  /\ r.1 = replicate n true
  /\ error_ (self r.2) = error_ (self w).
Proof.
  intros Htimeout w0 r.
  assert (Hreset : watchdog_reset_value_ (self w0) = 0).
  { subst w0. unfold update_watchdog_settings. rewrite Htimeout. reflexivity. }
  assert (Hcur : watchdog_current_value_ (self w0) = 0).
  { subst w0. unfold update_watchdog_settings. rewrite Htimeout. reflexivity. }
  assert (Herr0 : error_ (self w0) = error_ (self w)) by reflexivity.
  split; [exact Hreset|]. split; [exact Hcur|].
  rewrite <- Herr0. subst r. clearbody w0. clear Hcur Herr0 Htimeout.
  revert w0 Hreset. induction n as [|n IH]; intros w0 Hreset;
    cbn [watchdog_checks]; [split; reflexivity|].
  assert (Hchk : watchdog_check w0 = (true, w0))
    by (unfold watchdog_check; rewrite Hreset; reflexivity).
  rewrite !Hchk.
  destruct (IH w0 Hreset) as [Hoks Herr].
  destruct (watchdog_checks n w0) as [oks w1]. cbn [fst snd] in *.
  rewrite Hoks. split; [reflexivity | exact Herr].
Qed.

(** ** What no task writes *)

Lemma kept_refl (w : World) : kept w w.
Proof. split; try reflexivity. exists []. symmetry. apply app_nil_r. Qed.

Lemma kept_trans (w1 w2 w3 : World) : kept w1 w2 -> kept w2 w3 -> kept w1 w3.
Proof.
  intros [(e1 & T1) ? ? ? ?] [(e2 & T2) ? ? ? ?].
  split; try congruence.
  exists (e1 ++ e2). rewrite T2, T1. symmetry. apply app_assoc.
Qed.

Lemma framed_kept (P : Event -> bool) (w w' : World) :
  framed P w w' -> kept w w'.
Proof.
  intros [(evs & T & _) ? ? ? ? ? ? ?].
  split; try assumption. exists evs. exact T.
Qed.

(** A sequence of two runs keeps what each of them keeps. *)
Lemma bind_kept {A B : Type} (m : Res A)
    (k : A -> World -> list Env -> Res B) (w : World) :
  kept w (final_world m) ->
  (forall a w1 tape1, m = Ok a w1 tape1 -> kept w1 (final_world (k a w1 tape1))) ->
  kept w (final_world (bind m k)).
Proof.
  intros Hm Hk. destruct m as [a w1 tape1 | w1 | w1]; cbn [bind final_world] in *.
  - eapply kept_trans; [exact Hm | apply Hk; reflexivity].
  - exact Hm.
  - exact Hm.
Qed.

Ltac solve_kept :=
  split; cbn;
  [ first [ exists []; symmetry; apply app_nil_r
          | rewrite <- ?app_assoc; eexists; reflexivity ]
  | reflexivity .. ].

Lemma assign_lockin_state_kept (s : LockinState) (w : World) :
  kept w (assign_lockin_state s w).
Proof. unfold assign_lockin_state. solve_kept. Qed.

Lemma set_step_dir_active_kept (active : bool) (w : World) :
  kept w (set_step_dir_active active w).
Proof.
  destruct (set_step_dir_active_self active w) as [Hself Hthis].
  destruct (set_step_dir_active_trace active w) as (evs & Htr & _).
  split; try (rewrite Hself; reflexivity); try exact Hthis.
  exists evs. exact Htr.
Qed.

Lemma motor_arm_kept (tape : list Env) (w : World) :
  kept w (final_world (motor_arm tape w)).
Proof.
  unfold motor_arm. destruct tape as [|e tape]; [apply kept_refl|].
  destruct (motor_arm_ok e); cbn [final_world]; solve_kept.
Qed.

Lemma sub_task_kept (task : AxisState) (tape : list Env) (w : World) :
  kept w (final_world (sub_task task tape w)).
Proof.
  unfold sub_task. destruct tape as [|e tape]; [apply kept_refl|].
  unfold other_threads, watchdog_feed, raise_error. cbn [final_world].
  destruct (ext_request e), (ext_watchdog_feed e), (motor_tripped e);
    solve_kept.
Qed.

Lemma controller_update_framed (e : Env) (p v : float) (w : World) :
  framed loop_event w (controller_update e p v w).2.
Proof. unfold controller_update. solve_framed. Qed.

Lemma raise_error_framed (P : Event -> bool) (bits : Z) (w : World) :
  framed P w (raise_error bits w).
Proof. unfold raise_error. solve_framed. Qed.

Lemma lockin_const_vel_tick_framed (e : Env) (s : Spin) (w : World) :
  framed loop_event w (lockin_const_vel_tick e s w).2.
Proof.
  unfold lockin_const_vel_tick.
  match goal with
  | |- context [motor_update e ?i ?p ?v w] =>
    pose proof (motor_update_framed e i p v w) as Hm;
    destruct (motor_update e i p v w) as [ok w1]
  end.
  destruct ok; exact Hm.
Qed.

Lemma sensorless_tick_framed (e : Env) (l : unit) (w : World) :
  framed loop_event w (sensorless_tick e l w).2.
Proof.
  unfold sensorless_tick.
  destruct (CTRL_MODE_POSITION_CONTROL <=? _); [apply raise_error_framed|].
  unfold controller_update, motor_update, raise_error.
  destruct (controller_update_ok e); cbn [negb];
    [destruct (motor_update_ok e)|]; solve_framed.
Qed.

Lemma closed_loop_tick_framed (e : Env) (l : unit) (w : World) :
  framed loop_event w (closed_loop_tick e l w).2.
Proof.
  unfold closed_loop_tick, controller_update, motor_update, raise_error.
  destruct (controller_update_ok e); cbn [negb];
    [destruct (motor_update_ok e)|]; solve_framed.
Qed.

Lemma open_loop_tick_framed (e : Env) (l : unit) (w : World) :
  framed loop_event w (open_loop_tick e l w).2.
Proof.
  unfold open_loop_tick, open_loop_drive, motor_update, raise_error.
  destruct (motor_phase_locked (motor_ (self w))); cbn [negb];
    [destruct (bool_decide _); cbn [negb]|];
    try destruct (motor_update_ok e); solve_framed.
Qed.

Lemma run_control_loop_kept {L : Type} (body : TickBody L) :
  (forall e l w, framed loop_event w (body e l w).2) ->
  forall tape l w, kept w (final_world (run_control_loop body l tape w)).
Proof.
  intros Hbody tape l w. eapply framed_kept.
  apply run_control_loop_framed; [apply scaffold_loop_event | exact Hbody].
Qed.

Lemma on_self_kept (f : Axis -> Axis) (w : World) :
  (forall a, task_chain_ (f a) = task_chain_ a) ->
  (forall a, config_ (f a) = config_ a) ->
  (forall a, watchdog_reset_value_ (f a) = watchdog_reset_value_ a) ->
  kept w (on_self f w).
Proof.
  intros Hc Hg Hr. split; cbn; auto.
  exists []. symmetry. apply app_nil_r.
Qed.

Lemma lockin_spin_up_kept (tape : list Env) (w : World) :
  kept w (final_world (lockin_spin_up tape w)).
Proof.
  unfold lockin_spin_up. cbv zeta.
  apply (kept_trans w (assign_lockin_state LOCKIN_STATE_RAMP w));
    [apply assign_lockin_state_kept|].
  apply bind_kept.
  - apply run_control_loop_kept, lockin_ramp_tick_framed.
  - intros x w1 tape1 _.
    apply (kept_trans w1 (assign_lockin_state LOCKIN_STATE_ACCELERATE w1));
      [apply assign_lockin_state_kept|].
    apply run_control_loop_kept, lockin_accelerate_tick_framed.
Qed.

Lemma lockin_spin_finish_kept (s : Spin) (w : World) (tape : list Env) :
  kept w (final_world (lockin_spin_finish s w tape)).
Proof.
  unfold lockin_spin_finish. cbv zeta.
  set (w1 := if negb (index_found_ (encoder_ (self w)))
             then emit (EvSetIdxSubscribe true) w else w).
  assert (H1 : kept w w1).
  { subst w1. destruct (negb _); [solve_kept | apply kept_refl]. }
  apply (kept_trans w w1); [exact H1|].
  apply bind_kept.
  - destruct (negb (spin_done false s w1)); [|apply kept_refl].
    apply (kept_trans w1 (assign_lockin_state LOCKIN_STATE_CONST_VEL w1));
      [apply assign_lockin_state_kept|].
    apply run_control_loop_kept, lockin_const_vel_tick_framed.
  - intros s' w3 tape3 _. cbn [final_world].
    apply assign_lockin_state_kept.
Qed.

Lemma run_lockin_spin_kept (tape : list Env) (w : World) :
  kept w (final_world (run_lockin_spin tape w)).
Proof.
  unfold run_lockin_spin. apply bind_kept.
  - apply lockin_spin_up_kept.
  - intros s w1 tape1 _. apply lockin_spin_finish_kept.
Qed.

Lemma run_sensorless_control_loop_kept (tape : list Env) (w : World) :
  kept w (final_world (run_sensorless_control_loop tape w)).
Proof.
  unfold run_sensorless_control_loop. apply bind_kept.
  - apply run_control_loop_kept, sensorless_tick_framed.
  - intros u w1 tape1 _. apply kept_refl.
Qed.

Lemma run_closed_loop_control_loop_kept (tape : list Env) (w : World) :
  kept w (final_world (run_closed_loop_control_loop tape w)).
Proof.
  unfold run_closed_loop_control_loop. cbv zeta.
  set (w1 := on_self _ w).
  set (w2 := set_step_dir_active _ w1).
  apply (kept_trans w w1); [apply on_self_kept; reflexivity|].
  apply (kept_trans w1 w2); [apply set_step_dir_active_kept|].
  apply bind_kept.
  - apply run_control_loop_kept, closed_loop_tick_framed.
  - intros u w3 tape3 _. cbn [final_world]. apply set_step_dir_active_kept.
Qed.

Lemma run_open_loop_control_loop_kept (tape : list Env) (w : World) :
  kept w (final_world (run_open_loop_control_loop tape w)).
Proof.
  unfold run_open_loop_control_loop. cbv zeta.
  set (w1 := set_step_dir_active _ w).
  apply (kept_trans w w1); [apply set_step_dir_active_kept|].
  apply bind_kept.
  - apply run_control_loop_kept, open_loop_tick_framed.
  - intros u w3 tape3 _. cbn [final_world]. apply set_step_dir_active_kept.
Qed.

Lemma run_idle_loop_kept (tape : list Env) (w : World) :
  kept w (final_world (run_idle_loop tape w)).
Proof.
  unfold run_idle_loop. cbv zeta.
  set (w1 := safety_critical_disarm_motor_pwm w).
  apply (kept_trans w w1);
    [unfold w1, safety_critical_disarm_motor_pwm; solve_kept|].
  apply bind_kept.
  - eapply framed_kept. apply idle_while_spec.
  - intros u w3 tape3 _. apply kept_refl.
Qed.

(** Whatever state is dispatched, and however its task ends, the task
    chain, the configuration and the watchdog reset value are as before,
    and nothing was taken off the trace. *)
Lemma dispatch_kept (tape : list Env) (w : World) :
  kept w (final_world (dispatch tape w)).
Proof.
  unfold dispatch, invalid_state.
  destruct (current_state_ (self w));
    repeat match goal with
           | |- context [if ?c then _ else _] => destruct c
           end;
    cbn [final_world];
    try (unfold raise_error; solve_kept);
    try apply sub_task_kept;
    try apply run_lockin_spin_kept;
    try apply run_closed_loop_control_loop_kept;
    try apply run_open_loop_control_loop_kept.
  - apply bind_kept; [apply run_idle_loop_kept|].
    intros u w1 tape1 _. apply motor_arm_kept.
  - apply bind_kept; [apply run_lockin_spin_kept|].
    intros status w1 tape1 _. destruct status; [|apply kept_refl].
    cbv zeta. set (w2 := on_self _ w1).
    apply (kept_trans w1 w2); [apply on_self_kept; reflexivity|].
    apply run_sensorless_control_loop_kept.
Qed.

(** ** More on the state machine *)

(** X3. Every request is expanded into the tasks it stands for, whatever
    the array held before: the full calibration sequence into motor
    calibration, the index search if the encoder uses its index, the offset
    calibration and idle; any plain state into that state and idle.  The
    last task is always [AXIS_STATE_IDLE]. *)
Theorem request_expansion (a : Axis) :
  requested_state_ a <> AXIS_STATE_UNDEFINED ->
  (6 <= length (task_chain_ a))%nat ->
  exists a',
    load_task_chain a = Some a'
    /\ chain_tasks (task_chain_ a') = request_tasks a
    /\ last (chain_tasks (task_chain_ a')) = Some AXIS_STATE_IDLE
    /\ (requested_state_ a = AXIS_STATE_FULL_CALIBRATION_SEQUENCE ->
        chain_tasks (task_chain_ a')
        = AXIS_STATE_MOTOR_CALIBRATION
          :: (if encoder_use_index (encoder_ a)
              then [AXIS_STATE_ENCODER_INDEX_SEARCH] else [])
          ++ [AXIS_STATE_ENCODER_OFFSET_CALIBRATION; AXIS_STATE_IDLE])
    /\ (single_task (requested_state_ a) = true ->
        chain_tasks (task_chain_ a')
        = [requested_state_ a; AXIS_STATE_IDLE]).
Proof.
  intros Hreq Hlen.
  destruct (load_task_chain_tasks a Hreq Hlen) as (a' & Hload & Htasks & _).
  exists a'. split; [exact Hload|]. split; [exact Htasks|].
  rewrite Htasks. unfold request_tasks.
  split; [|split].
  - destruct (requested_state_ a);
      repeat match goal with
             | |- context [if ?c then _ else _] => destruct c
             end; reflexivity.
  - intros ->. reflexivity.
  - destruct (requested_state_ a); cbn; intros Hs;
      try discriminate; reflexivity.
Qed.

(** What a refused dispatch does: it raises [ERROR_INVALID_STATE], calls
    nothing and takes nothing from the tape; the round then ends in idle. *)
Lemma invalid_state_round (tape : list Env) (w : World) :
  requested_state_ (self w) = AXIS_STATE_UNDEFINED ->
  (0 < length (task_chain_ (self w)))%nat ->
  dispatch tape w = Ok false (raise_error ERROR_INVALID_STATE w) tape ->
  exists w',
    state_machine_iteration tape w = Ok tt w' tape
    /\ current_state_ (self w') = AXIS_STATE_IDLE
    /\ trace w' = trace w
    /\ error_ (self w') = Z.lor (error_ (self w)) ERROR_INVALID_STATE.
Proof.
  intros Hreq Hlen Hdisp.
  rewrite state_machine_iteration_no_request by exact Hreq.
  rewrite Hdisp. cbn [bind].
  eexists. split; [reflexivity|].
  split; [|split; reflexivity].
  unfold advance, set_current_state_, current_state_. cbn.
  destruct (task_chain_ (self w)); [cbn in Hlen; lia | reflexivity].
Qed.

(** X4. With a motor direction of 0 the switch refuses lock-in spin,
    sensorless, closed-loop and open-loop control, and the index search
    when it is unidirectional: nothing is called, nothing is read from the
    tape, [ERROR_INVALID_STATE] is raised and the round ends with
    [current_state_] at idle. *)
Theorem unknown_direction_is_refused (tape : list Env) (w : World) :
  motor_direction (motor_ (self w)) = 0 ->
  needs_direction (current_state_ (self w)) = true
  \/ (current_state_ (self w) = AXIS_STATE_ENCODER_INDEX_SEARCH
      /\ encoder_idx_search_unidirectional (encoder_ (self w)) = true) ->
  dispatch tape w = Ok false (raise_error ERROR_INVALID_STATE w) tape
  /\ (requested_state_ (self w) = AXIS_STATE_UNDEFINED ->
      exists w',
        state_machine_iteration tape w = Ok tt w' tape
        /\ current_state_ (self w') = AXIS_STATE_IDLE
        /\ trace w' = trace w
        /\ error_ (self w') = Z.lor (error_ (self w)) ERROR_INVALID_STATE).
Proof.
  intros Hdir Hstate.
  assert (Hlen : (0 < length (task_chain_ (self w)))%nat).
  { unfold current_state_ in Hstate.
    destruct (task_chain_ (self w)); [|cbn; lia].
    cbn in Hstate. destruct Hstate as [? | [? _]]; discriminate. }
  assert (Hdisp : dispatch tape w
                  = Ok false (raise_error ERROR_INVALID_STATE w) tape).
  { unfold dispatch, invalid_state. rewrite Hdir. cbn [Z.eqb].
    destruct Hstate as [Hneeds | [Hsearch Huni]].
    - destruct (current_state_ (self w)); try discriminate; reflexivity.
    - rewrite Hsearch, Huni. reflexivity. }
  split; [exact Hdisp|].
  intros Hreq. apply invalid_state_round; assumption.
Qed.

(** X5. Closed-loop control is refused while the encoder is not ready, and
    a sequence or [AXIS_STATE_UNDEFINED] at the head of the chain is
    refused as well: [ERROR_INVALID_STATE] is raised without any call, and
    the round ends in idle. *)
Theorem unready_or_composite_state_is_refused (tape : list Env) (w : World) :
  (0 < length (task_chain_ (self w)))%nat ->
  (current_state_ (self w) = AXIS_STATE_CLOSED_LOOP_CONTROL
   /\ is_ready_ (encoder_ (self w)) = false)
  \/ single_task (current_state_ (self w)) = false ->
  dispatch tape w = Ok false (raise_error ERROR_INVALID_STATE w) tape
  /\ (requested_state_ (self w) = AXIS_STATE_UNDEFINED ->
      exists w',
        state_machine_iteration tape w = Ok tt w' tape
        /\ current_state_ (self w') = AXIS_STATE_IDLE
        /\ trace w' = trace w
        /\ error_ (self w') = Z.lor (error_ (self w)) ERROR_INVALID_STATE).
Proof.
  intros Hlen Hstate.
  assert (Hdisp : dispatch tape w
                  = Ok false (raise_error ERROR_INVALID_STATE w) tape).
  { unfold dispatch, invalid_state.
    destruct Hstate as [[Hclosed Hready] | Hcomposite].
    - rewrite Hclosed, Hready.
      destruct (motor_direction (motor_ (self w)) =? 0); reflexivity.
    - destruct (current_state_ (self w)); try discriminate; reflexivity. }
  split; [exact Hdisp|].
  intros Hreq. apply invalid_state_round; assumption.
Qed.

(** A round that returns leaves the array as the load and the advance make
    it: no task writes it. *)
Lemma state_machine_iteration_chain (tape tape' : list Env) (w w' : World)
    (a1 : Axis) :
  load_task_chain (self w) = Some a1 ->
  state_machine_iteration tape w = Ok tt w' tape' ->
  exists status,
    task_chain_ (self w')
    = task_chain_ (advance status a1).
Proof.
  intros Hload. unfold state_machine_iteration. rewrite Hload.
  pose proof (dispatch_kept tape (on_self (fun _ => a1) w)) as Hkept.
  destruct (dispatch tape (on_self (fun _ => a1) w))
    as [status w2 tape2 | w2 | w2]; cbn [bind final_world] in *;
    try discriminate.
  intros Heq. inversion Heq; subst. exists status.
  pose proof (kept_chain _ _ Hkept) as Hchain. cbn in Hchain.
  unfold advance, set_current_state_. cbn.
  destruct status; cbn; rewrite Hchain; reflexivity.
Qed.

(** X6. A request for a plain state runs that state once and then idles.
    The round that accepts the request loads it, dispatches the requested
    state and ends with [AXIS_STATE_IDLE] in [current_state_] and nothing
    but idle left to run: one [AXIS_STATE_IDLE] if the task returned true
    and the chain was advanced, two if it returned false and its slot was
    overwritten. *)
Theorem single_request_ends_in_idle (tape tape' : list Env) (w w' : World) :
  single_task (requested_state_ (self w)) = true ->
  (6 <= length (task_chain_ (self w)))%nat ->
  state_machine_iteration tape w = Ok tt w' tape' ->
  exists a1 status w2,
    load_task_chain (self w) = Some a1
    /\ current_state_ a1 = requested_state_ (self w)
    /\ dispatch tape (on_self (fun _ => a1) w) = Ok status w2 tape'
    /\ w' = on_self (advance status) w2
    /\ current_state_ (self w') = AXIS_STATE_IDLE
    /\ chain_tasks (task_chain_ (self w'))
       = if status then [AXIS_STATE_IDLE]
         else [AXIS_STATE_IDLE; AXIS_STATE_IDLE].
Proof.
  intros Hsingle Hlen Hiter.
  assert (Hreq : requested_state_ (self w) <> AXIS_STATE_UNDEFINED).
  { intros E. rewrite E in Hsingle. discriminate. }
  destruct (load_task_chain_tasks (self w) Hreq Hlen)
    as (a1 & Hload & Htasks & Hlen1 & _).
  assert (Hshape : exists rest,
             task_chain_ a1
             = requested_state_ (self w) :: AXIS_STATE_IDLE
               :: AXIS_STATE_UNDEFINED :: rest).
  { unfold load_task_chain, expand_request in Hload.
    destruct (decide (requested_state_ (self w) ≠ AXIS_STATE_UNDEFINED));
      [|contradiction].
    destruct (chain_six _ Hlen) as (c0 & c1 & c2 & c3 & c4 & c5 & rest & Hc).
    rewrite Hc in Hload.
    destruct (requested_state_ (self w)); try discriminate;
      cbn in Hload; inversion Hload; cbn; eexists; reflexivity. }
  destruct Hshape as (rest & Hshape).
  unfold state_machine_iteration in Hiter. rewrite Hload in Hiter.
  pose proof (dispatch_kept tape (on_self (fun _ => a1) w)) as Hkept.
  destruct (dispatch tape (on_self (fun _ => a1) w))
    as [status w2 tape2 | w2 | w2] eqn:Hdisp; cbn [bind final_world] in *;
    try discriminate.
  injection Hiter as <- <-.
  pose proof (kept_chain _ _ Hkept) as Hchain. cbn in Hchain.
  rewrite Hshape in Hchain.
  exists a1, status, w2.
  split; [exact Hload|].
  split; [unfold current_state_; rewrite Hshape; reflexivity|].
  split; [exact Hdisp|]. split; [reflexivity|].
  unfold current_state_, advance, set_current_state_.
  destruct status; cbn; rewrite Hchain; cbn; split; reflexivity.
Qed.

(** ** More on the lock-in spin *)

(** The second half of the spin, whenever it returns: [lockin_state_] is
    reset last, the status is "no error latched", and in between
    [lockin_state_] was assigned CONST_VEL exactly if the spin was not done
    yet. *)
Lemma lockin_spin_finish_history (s : Spin) (w w' : World)
    (tape tape' : list Env) (status : bool) :
  lockin_spin_finish s w tape = Ok status w' tape' ->
  lockin_state_ (self w') = LOCKIN_STATE_INACTIVE
  /\ status = check_for_errors w'
  /\ last (trace w') = Some (EvLockinState LOCKIN_STATE_INACTIVE)
  /\ exists evs,
       trace w' = trace w ++ evs
       /\ lockin_history evs
          = (if spin_done false s w then []
             else [LOCKIN_STATE_CONST_VEL])
            ++ [LOCKIN_STATE_INACTIVE].
Proof.
  unfold lockin_spin_finish. cbv zeta.
  set (w1 := if negb (index_found_ (encoder_ (self w)))
             then emit (EvSetIdxSubscribe true) w else w).
  assert (Hw1 : exists ev1, trace w1 = trace w ++ ev1
                            /\ lockin_history ev1 = []
                            /\ spin_done false s w1 = spin_done false s w).
  { subst w1. destruct (negb _).
    - exists [EvSetIdxSubscribe true]. repeat split; reflexivity.
    - exists []. rewrite app_nil_r. repeat split; reflexivity. }
  destruct Hw1 as (ev1 & Ht1 & Hh1 & Hdone). rewrite Hdone.
  destruct (spin_done false s w); cbn [negb bind].
  - intros Heq. inversion Heq; subst. clear Heq.
    split; [reflexivity|]. split; [reflexivity|].
    split; [cbn; apply last_snoc|].
    exists (ev1 ++ [EvLockinState LOCKIN_STATE_INACTIVE]). split.
    + cbn. rewrite Ht1, <- app_assoc. reflexivity.
    + rewrite lockin_history_app, Hh1. reflexivity.
  - set (w2 := assign_lockin_state LOCKIN_STATE_CONST_VEL w1).
    match goal with
    | |- context [run_control_loop lockin_const_vel_tick ?s0 tape w2] =>
      pose proof (run_control_loop_framed loop_event lockin_const_vel_tick
                    scaffold_loop_event lockin_const_vel_tick_framed
                    tape s0 w2) as Hloop;
      destruct (run_control_loop lockin_const_vel_tick s0 tape w2)
        as [s3 w3 tape3 | w3 | w3]
    end; cbn [bind final_world] in *; try discriminate.
    intros Heq. inversion Heq; subst. clear Heq.
    destruct Hloop as [(ev3 & Ht3 & He3) _ _ _ _ _ _ _].
    split; [reflexivity|]. split; [reflexivity|].
    split; [cbn; apply last_snoc|].
    exists (ev1 ++ [EvLockinState LOCKIN_STATE_CONST_VEL] ++ ev3
            ++ [EvLockinState LOCKIN_STATE_INACTIVE]). split.
    + cbn. rewrite Ht3. subst w2. cbn. rewrite Ht1, <- !app_assoc.
      reflexivity.
    + rewrite !lockin_history_app, Hh1, (lockin_history_loop ev3 He3).
      reflexivity.
Qed.

(** X7. Whenever [run_lockin_spin] returns, by whatever path, the last
    thing it did was to reset [lockin_state_] to INACTIVE, and it returns
    true exactly when no error is latched.  Over the spin [lockin_state_]
    was assigned RAMP, ACCELERATE, then CONST_VEL exactly if [spin_done()]
    was false on the locals and the axis as the accelerate loop left them,
    then INACTIVE. *)
Theorem lockin_spin_always_resets (tape tape' : list Env) (w w' : World)
    (status : bool) :
  run_lockin_spin tape w = Ok status w' tape' ->
  lockin_state_ (self w') = LOCKIN_STATE_INACTIVE
  /\ status = check_for_errors w'
  /\ last (trace w') = Some (EvLockinState LOCKIN_STATE_INACTIVE)
  /\ exists s w1 tape1,
       lockin_spin_up tape w = Ok s w1 tape1
       /\ lockin_history (drop (length (trace w)) (trace w'))
          = [LOCKIN_STATE_RAMP; LOCKIN_STATE_ACCELERATE]
            ++ (if spin_done false s w1 then []
                else [LOCKIN_STATE_CONST_VEL])
            ++ [LOCKIN_STATE_INACTIVE].
Proof.
  unfold run_lockin_spin.
  destruct (lockin_spin_up tape w) as [s w1 tape1 | w1 | w1] eqn:Hup;
    cbn [bind]; try discriminate.
  intros Hfin.
  destruct (lockin_spin_up_history _ _ _ _ _ Hup) as (ev1 & Ht1 & Hh1).
  destruct (lockin_spin_finish_history _ _ _ _ _ _ Hfin)
    as (Hstate & Hstatus & Hlast & ev2 & Ht2 & Hh2).
  split; [exact Hstate|]. split; [exact Hstatus|]. split; [exact Hlast|].
  exists s, w1, tape1. split; [reflexivity|].
  rewrite Ht2, Ht1, <- app_assoc, drop_app_length.
  rewrite lockin_history_app, Hh1, Hh2. reflexivity.
Qed.

(** X8. With none of the three finish conditions switched on, the spin is
    never done by itself: [spin_done()] is false in every state, a round of
    the constant-velocity loop goes on whenever [motor_.update] succeeds,
    and a spin that returns at all has been through
    [LOCKIN_STATE_CONST_VEL]. *)
Theorem lockin_without_finish_condition (tape tape' : list Env)
    (w w' : World) (status : bool) :
  let lk := lockin (config_ (self w)) in
  lockin_finish_on_vel lk = false ->
  lockin_finish_on_distance lk = false ->
  lockin_finish_on_enc_idx lk = false ->
  (forall s w0, config_ (self w0) = config_ (self w) ->
                spin_done false s w0 = false)
  /\ (forall e s w0, config_ (self w0) = config_ (self w) ->
                     (lockin_const_vel_tick e s w0).1.1 = motor_update_ok e)
  /\ (run_lockin_spin tape w = Ok status w' tape' ->
      lockin_history (drop (length (trace w)) (trace w'))
      = [LOCKIN_STATE_RAMP; LOCKIN_STATE_ACCELERATE;
         LOCKIN_STATE_CONST_VEL; LOCKIN_STATE_INACTIVE]).
Proof.
  intros lk Hvel Hdist Hidx.
  assert (Hnever : forall s w0, config_ (self w0) = config_ (self w) ->
                                spin_done false s w0 = false).
  { intros s w0 Hcfg. unfold spin_done. rewrite Hcfg. fold lk.
    rewrite Hvel, Hdist, Hidx. reflexivity. }
  split; [exact Hnever|]. split.
  - intros e s w0 Hcfg. unfold lockin_const_vel_tick, motor_update.
    cbv zeta. destruct (motor_update_ok e); cbn [negb fst snd]; [|reflexivity].
    rewrite Hnever by exact Hcfg. reflexivity.
  - unfold run_lockin_spin.
    pose proof (lockin_spin_up_kept tape w) as Hkept.
    destruct (lockin_spin_up tape w) as [s w1 tape1 | w1 | w1] eqn:Hup;
      cbn [bind final_world] in *; try discriminate.
    intros Hfin.
    destruct (lockin_spin_up_history _ _ _ _ _ Hup) as (ev1 & Ht1 & Hh1).
    destruct (lockin_spin_finish_history _ _ _ _ _ _ Hfin)
      as (_ & _ & _ & ev2 & Ht2 & Hh2).
    rewrite (Hnever s w1 (kept_config _ _ Hkept)) in Hh2.
    rewrite Ht2, Ht1, <- app_assoc, drop_app_length.
    rewrite lockin_history_app, Hh1, Hh2. reflexivity.
Qed.

(** ** Fault checks *)

(** [do_checks] writes nothing but [error_], and only adds bits to it. *)
Lemma do_checks_adds_bits (e : Env) (w : World) :
  exists bits,
    self (do_checks e w).2
    = set_error_ (Z.lor (error_ (self w)) bits) (self w)
    /\ (do_checks e w).1 = (Z.lor (error_ (self w)) bits =? 0).
Proof.
  assert (Hstep : forall (w' : World) (m : Z),
             (exists bits, self w'
                           = set_error_ (Z.lor (error_ (self w)) bits) (self w)) ->
             exists bits, self (raise_error m w')
                          = set_error_ (Z.lor (error_ (self w)) bits) (self w)).
  { intros w' m (bits & Hb). exists (Z.lor bits m).
    unfold raise_error. cbn. rewrite Hb. cbn.
    rewrite Z.lor_assoc. reflexivity. }
  assert (Hinit : exists bits,
             self w = set_error_ (Z.lor (error_ (self w)) bits) (self w)).
  { exists 0. rewrite Z.lor_0_r. destruct w as [a ? ?]. destruct a.
    reflexivity. }
  unfold do_checks. cbv zeta.
  set (w1 := if brake_resistor_enabled e && negb (brake_resistor_armed e)
             then raise_error ERROR_BRAKE_RESISTOR_DISARMED w else w).
  assert (H1 : exists bits,
             self w1 = set_error_ (Z.lor (error_ (self w)) bits) (self w)).
  { subst w1. destruct (_ && _); [apply Hstep|]; exact Hinit. }
  clearbody w1.
  set (w2 := if negb (bool_decide (current_state_ (self w1) = AXIS_STATE_IDLE))
                && negb (is_armed_ (motor_ (self w1)))
             then raise_error ERROR_MOTOR_DISARMED w1 else w1).
  assert (H2 : exists bits,
             self w2 = set_error_ (Z.lor (error_ (self w)) bits) (self w)).
  { subst w2. destruct (_ && _); [apply Hstep|]; exact H1. }
  clearbody w2.
  set (w3 := if negb (fleb dc_bus_undervoltage_trip_level (vbus_voltage e))
             then raise_error ERROR_DC_BUS_UNDER_VOLTAGE w2 else w2).
  assert (H3 : exists bits,
             self w3 = set_error_ (Z.lor (error_ (self w)) bits) (self w)).
  { subst w3. destruct (negb _); [apply Hstep|]; exact H2. }
  clearbody w3.
  set (w4 := if negb (fleb (vbus_voltage e) dc_bus_overvoltage_trip_level)
             then raise_error ERROR_DC_BUS_OVER_VOLTAGE w3 else w3).
  assert (H4 : exists bits,
             self w4 = set_error_ (Z.lor (error_ (self w)) bits) (self w)).
  { subst w4. destruct (negb _); [apply Hstep|]; exact H3. }
  clearbody w4.
  destruct (Hstep (emit EvEncoderDoChecks (emit EvMotorDoChecks w4))
                  (check_errors e) H4) as (bits & Hb).
  exists bits. split; [exact Hb|].
  cbn [fst snd]. unfold check_for_errors, ERROR_NONE. rewrite Hb. reflexivity.
Qed.


(** X10. A disarmed motor is an error everywhere but in idle.  Outside
    [AXIS_STATE_IDLE], [do_checks] on a disarmed motor raises
    [ERROR_MOTOR_DISARMED] and returns false.  In idle, with no error
    latched, the brake resistor in order, the bus voltage within its trip
    levels and the sub-components content, it returns true although the
    motor is disarmed. *)
Theorem motor_disarmed_is_tolerated_in_idle_only (e : Env) (w : World) :
  is_armed_ (motor_ (self w)) = false ->
  let r := do_checks e w in
  (current_state_ (self w) <> AXIS_STATE_IDLE ->
   Z.land (error_ (self r.2)) ERROR_MOTOR_DISARMED = ERROR_MOTOR_DISARMED
   /\ (ERROR_MOTOR_DISARMED <> 0 -> r.1 = false))
  /\ (current_state_ (self w) = AXIS_STATE_IDLE ->
      error_ (self w) = 0 ->
      brake_resistor_enabled e && negb (brake_resistor_armed e) = false ->
      fleb dc_bus_undervoltage_trip_level (vbus_voltage e) = true ->
      fleb (vbus_voltage e) dc_bus_overvoltage_trip_level = true ->
      check_errors e = 0 ->
      r.1 = true /\ error_ (self r.2) = 0).
Proof.
  intros Harmed r. subst r. split.
  - intros Hstate. unfold do_checks. cbv zeta.
    set (w1 := if brake_resistor_enabled e && negb (brake_resistor_armed e)
               then raise_error ERROR_BRAKE_RESISTOR_DISARMED w else w).
    assert (H1 : current_state_ (self w1) = current_state_ (self w)
                 /\ is_armed_ (motor_ (self w1)) = false).
    { subst w1. destruct (_ && _); split; try reflexivity; exact Harmed. }
    destruct H1 as [Hc1 Ha1]. clearbody w1. rewrite Hc1, Ha1.
    rewrite bool_decide_eq_false_2 by exact Hstate. cbn [negb andb].
    set (w2 := raise_error ERROR_MOTOR_DISARMED w1).
    assert (Hbits : forall i, Z.testbit ERROR_MOTOR_DISARMED i = true ->
                              Z.testbit (error_ (self w2)) i = true).
    { intros i Hi. subst w2. cbn. rewrite Z.lor_spec, Hi.
      apply orb_true_r. }
    clearbody w2.
    assert (Hfinal : forall w3,
               (forall i, Z.testbit ERROR_MOTOR_DISARMED i = true ->
                          Z.testbit (error_ (self w3)) i = true) ->
               Z.land (error_ (self w3)) ERROR_MOTOR_DISARMED
               = ERROR_MOTOR_DISARMED
               /\ (ERROR_MOTOR_DISARMED <> 0 -> error_ (self w3) <> 0)).
    { intros w3 Hb. split.
      - apply Z.bits_inj'. intros n _. rewrite Z.land_spec.
        destruct (Z.testbit ERROR_MOTOR_DISARMED n) eqn:Hn;
          [rewrite (Hb n Hn); reflexivity | apply andb_false_r].
      - intros Hne Hz. apply Hne. apply Z.bits_inj'. intros n _.
        rewrite Z.bits_0.
        destruct (Z.testbit ERROR_MOTOR_DISARMED n) eqn:Hn; [|reflexivity].
        specialize (Hb n Hn). rewrite Hz, Z.bits_0 in Hb. discriminate. }
    assert (Hraise : forall w3 m,
               (forall i, Z.testbit ERROR_MOTOR_DISARMED i = true ->
                          Z.testbit (error_ (self w3)) i = true) ->
               forall i, Z.testbit ERROR_MOTOR_DISARMED i = true ->
                         Z.testbit (error_ (self (raise_error m w3))) i = true).
    { intros w3 m Hb i Hi. cbn. rewrite Z.lor_spec, (Hb i Hi). reflexivity. }
    set (w3 := if negb (fleb dc_bus_undervoltage_trip_level (vbus_voltage e))
               then raise_error ERROR_DC_BUS_UNDER_VOLTAGE w2 else w2).
    assert (H3 : forall i, Z.testbit ERROR_MOTOR_DISARMED i = true ->
                           Z.testbit (error_ (self w3)) i = true).
    { subst w3. destruct (negb _); [apply Hraise|]; exact Hbits. }
    clearbody w3.
    set (w4 := if negb (fleb (vbus_voltage e) dc_bus_overvoltage_trip_level)
               then raise_error ERROR_DC_BUS_OVER_VOLTAGE w3 else w3).
    assert (H4 : forall i, Z.testbit ERROR_MOTOR_DISARMED i = true ->
                           Z.testbit (error_ (self w4)) i = true).
    { subst w4. destruct (negb _); [apply Hraise|]; exact H3. }
    clearbody w4.
    cbn [fst snd].
    destruct (Hfinal (raise_error (check_errors e)
                        (emit EvEncoderDoChecks (emit EvMotorDoChecks w4))))
      as [Hland Hnz].
    { apply Hraise. exact H4. }
    split; [exact Hland|].
    intros Hmask. unfold check_for_errors, ERROR_NONE.
    apply Z.eqb_neq. apply Hnz. exact Hmask.
  - intros Hidle Herr Hbrake Hunder Hover Hsub.
    unfold do_checks. cbv zeta. rewrite Hbrake, Hidle.
    rewrite bool_decide_eq_true_2 by reflexivity. cbn [negb andb].
    rewrite Hunder, Hover, Hsub. cbn [negb].
    unfold check_for_errors, ERROR_NONE. cbn. rewrite Herr. split; reflexivity.
Qed.

(** ** Errors are latched *)

Lemma latched_refl (w : World) : latched w w.
Proof. intros i Hi. exact Hi. Qed.

Lemma latched_trans (w1 w2 w3 : World) :
  latched w1 w2 -> latched w2 w3 -> latched w1 w3.
Proof. intros H12 H23 i Hi. apply H23, H12, Hi. Qed.

Lemma latched_same (w w' : World) :
  error_ (self w') = error_ (self w) -> latched w w'.
Proof. intros E i Hi. rewrite E. exact Hi. Qed.

Lemma latched_raise (bits : Z) (w : World) : latched w (raise_error bits w).
Proof. intros i Hi. cbn. rewrite Z.lor_spec, Hi. reflexivity. Qed.

Lemma latched_nonzero (w w' : World) :
  latched w w' -> error_ (self w) <> 0 -> check_for_errors w' = false.
Proof.
  intros Hl Hne. unfold check_for_errors, ERROR_NONE. apply Z.eqb_neq.
  intros Hz. apply Hne. apply Z.bits_inj'. intros n _. rewrite Z.bits_0.
  destruct (Z.testbit (error_ (self w)) n) eqn:Hn; [|reflexivity].
  specialize (Hl n Hn). rewrite Hz, Z.bits_0 in Hl. discriminate.
Qed.

Lemma bind_latched {A B : Type} (m : Res A)
    (k : A -> World -> list Env -> Res B) (w : World) :
  latched w (final_world m) ->
  (forall a w1 tape1, m = Ok a w1 tape1 ->
                      latched w1 (final_world (k a w1 tape1))) ->
  latched w (final_world (bind m k)).
Proof.
  intros Hm Hk. destruct m as [a w1 tape1 | w1 | w1]; cbn [bind final_world] in *.
  - eapply latched_trans; [exact Hm | apply Hk; reflexivity].
  - exact Hm.
  - exact Hm.
Qed.

Lemma other_threads_error (e : Env) (w : World) :
  error_ (self (other_threads e w)) = error_ (self w).
Proof.
  unfold other_threads, watchdog_feed.
  destruct (ext_request e), (ext_watchdog_feed e), (motor_tripped e);
    reflexivity.
Qed.

Lemma wait_for_current_meas_latched (e : Env) (w : World) :
  latched w (wait_for_current_meas e w).2.
Proof. apply latched_same. cbn. apply other_threads_error. Qed.

Lemma do_updates_latched (e : Env) (w : World) : latched w (do_updates e w).2.
Proof. intros i Hi. cbn. rewrite Z.lor_spec, Hi. reflexivity. Qed.

Lemma do_checks_latched (e : Env) (w : World) : latched w (do_checks e w).2.
Proof.
  destruct (do_checks_adds_bits e w) as (bits & Hself & _).
  intros i Hi. rewrite Hself. cbn. rewrite Z.lor_spec, Hi. reflexivity.
Qed.

Lemma watchdog_check_latched (w : World) : latched w (watchdog_check w).2.
Proof.
  unfold watchdog_check.
  destruct (_ =? 0); [apply latched_refl|].
  destruct (0 <? _); [apply latched_same; reflexivity | apply latched_raise].
Qed.

Lemma pre_tick_latched (e : Env) (w : World) : latched w (pre_tick e w).2.
Proof.
  unfold pre_tick.
  pose proof (wait_for_current_meas_latched e w) as H1.
  destruct (wait_for_current_meas e w) as [signalled w1]. cbn [snd] in H1.
  destruct (negb signalled && _); [exact H1|].
  pose proof (do_updates_latched e w1) as H2.
  destruct (do_updates e w1) as [ok w2]. cbn [snd] in H2.
  destruct ok; cbn [negb snd]; eapply latched_trans; eassumption.
Qed.

Lemma post_tick_latched (e : Env) (w : World) : latched w (post_tick e w).2.
Proof.
  unfold post_tick.
  pose proof (do_checks_latched e w) as H1.
  destruct (do_checks e w) as [ok w1]. cbn [snd] in H1.
  destruct ok; cbn [negb]; [|exact H1].
  pose proof (watchdog_check_latched w1) as H2.
  destruct (watchdog_check w1) as [ok w2]. cbn [snd] in H2.
  assert (H12 : latched w w2) by (eapply latched_trans; eassumption).
  destruct ok; cbn [negb]; [|exact H12].
  destruct (negb _); exact H12.
Qed.

Lemma control_loop_tick_latched {L : Type} (body : TickBody L) :
  (forall e l w, latched w (body e l w).2) ->
  forall e l w, latched w (control_loop_tick body e l w).2.
Proof.
  intros Hbody e l w. unfold control_loop_tick.
  pose proof (pre_tick_latched e w) as H1.
  destruct (pre_tick e w) as [go w1]. cbn [snd] in H1.
  destruct go; cbn [negb]; [|exact H1].
  pose proof (Hbody e l w1) as H2.
  destruct (body e l w1) as [[c l1] w2]. cbn [snd] in H2.
  assert (H12 : latched w w2) by (eapply latched_trans; eassumption).
  destruct c; cbn [negb]; [|exact H12].
  pose proof (post_tick_latched e w2) as H3.
  destruct (post_tick e w2) as [go w3]. cbn [snd] in *.
  eapply latched_trans; eassumption.
Qed.

Lemma run_control_loop_latched {L : Type} (body : TickBody L) :
  (forall e l w, latched w (body e l w).2) ->
  forall tape l w, latched w (final_world (run_control_loop body l tape w)).
Proof.
  intros Hbody tape. induction tape as [|e tape IH]; intros l w;
    cbn [run_control_loop final_world]; [apply latched_refl|].
  pose proof (control_loop_tick_latched body Hbody e l w) as H1.
  destruct (control_loop_tick body e l w) as [[c l1] w1]. cbn [snd] in H1.
  destruct c; cbn [final_world]; [|exact H1].
  eapply latched_trans; [exact H1 | apply IH].
Qed.

Ltac solve_latched :=
  let i := fresh "i" in
  let Hi := fresh "Hi" in
  intros i Hi; cbn; rewrite ?Z.lor_spec, ?Hi; cbn; first [reflexivity | exact Hi].

Lemma lockin_ramp_tick_latched (e : Env) (x : float) (w : World) :
  latched w (lockin_ramp_tick e x w).2.
Proof.
  unfold lockin_ramp_tick, motor_update.
  destruct (motor_update_ok e); cbn [negb]; solve_latched.
Qed.

Lemma lockin_accelerate_tick_latched (e : Env) (s : Spin) (w : World) :
  latched w (lockin_accelerate_tick e s w).2.
Proof.
  unfold lockin_accelerate_tick, motor_update.
  destruct (motor_update_ok e); cbn [negb]; solve_latched.
Qed.

Lemma lockin_const_vel_tick_latched (e : Env) (s : Spin) (w : World) :
  latched w (lockin_const_vel_tick e s w).2.
Proof.
  unfold lockin_const_vel_tick, motor_update.
  destruct (motor_update_ok e); cbn [negb]; solve_latched.
Qed.

Lemma sensorless_tick_latched (e : Env) (l : unit) (w : World) :
  latched w (sensorless_tick e l w).2.
Proof.
  unfold sensorless_tick.
  destruct (CTRL_MODE_POSITION_CONTROL <=? _); [apply latched_raise|].
  unfold controller_update, motor_update.
  destruct (controller_update_ok e); cbn [negb];
    [destruct (motor_update_ok e)|]; solve_latched.
Qed.

Lemma closed_loop_tick_latched (e : Env) (l : unit) (w : World) :
  latched w (closed_loop_tick e l w).2.
Proof.
  unfold closed_loop_tick, controller_update, motor_update.
  destruct (controller_update_ok e); cbn [negb];
    [destruct (motor_update_ok e)|]; solve_latched.
Qed.

Lemma open_loop_tick_latched (e : Env) (l : unit) (w : World) :
  latched w (open_loop_tick e l w).2.
Proof.
  unfold open_loop_tick, open_loop_drive, motor_update.
  destruct (motor_phase_locked (motor_ (self w))); cbn [negb];
    [destruct (bool_decide _); cbn [negb]|];
    try destruct (motor_update_ok e); solve_latched.
Qed.

Lemma assign_lockin_state_latched (s : LockinState) (w : World) :
  latched w (assign_lockin_state s w).
Proof. apply latched_same. reflexivity. Qed.

Lemma set_step_dir_active_latched (active : bool) (w : World) :
  latched w (set_step_dir_active active w).
Proof.
  apply latched_same.
  destruct (set_step_dir_active_self active w) as [-> _]. reflexivity.
Qed.

Lemma run_lockin_spin_latched (tape : list Env) (w : World) :
  latched w (final_world (run_lockin_spin tape w)).
Proof.
  unfold run_lockin_spin. apply bind_latched.
  - unfold lockin_spin_up. cbv zeta.
    apply (latched_trans w (assign_lockin_state LOCKIN_STATE_RAMP w));
      [apply assign_lockin_state_latched|].
    apply bind_latched.
    + apply run_control_loop_latched, lockin_ramp_tick_latched.
    + intros x w1 tape1 _.
      apply (latched_trans w1 (assign_lockin_state LOCKIN_STATE_ACCELERATE w1));
        [apply assign_lockin_state_latched|].
      apply run_control_loop_latched, lockin_accelerate_tick_latched.
  - intros s w1 tape1 _. unfold lockin_spin_finish. cbv zeta.
    set (w2 := if negb (index_found_ (encoder_ (self w1)))
               then emit (EvSetIdxSubscribe true) w1 else w1).
    assert (H2 : latched w1 w2).
    { subst w2. destruct (negb _); apply latched_same; reflexivity. }
    apply (latched_trans w1 w2); [exact H2|].
    apply bind_latched.
    + destruct (negb (spin_done false s w2)); [|apply latched_refl].
      apply (latched_trans w2 (assign_lockin_state LOCKIN_STATE_CONST_VEL w2));
        [apply assign_lockin_state_latched|].
      apply run_control_loop_latched, lockin_const_vel_tick_latched.
    + intros s' w3 tape3 _. cbn [final_world].
      apply assign_lockin_state_latched.
Qed.

Lemma run_sensorless_control_loop_latched (tape : list Env) (w : World) :
  latched w (final_world (run_sensorless_control_loop tape w)).
Proof.
  unfold run_sensorless_control_loop. apply bind_latched.
  - apply run_control_loop_latched, sensorless_tick_latched.
  - intros u w1 tape1 _. apply latched_refl.
Qed.

Lemma run_closed_loop_control_loop_latched (tape : list Env) (w : World) :
  latched w (final_world (run_closed_loop_control_loop tape w)).
Proof.
  unfold run_closed_loop_control_loop. cbv zeta.
  set (w1 := on_self _ w).
  set (w2 := set_step_dir_active _ w1).
  apply (latched_trans w w1); [apply latched_same; reflexivity|].
  apply (latched_trans w1 w2); [apply set_step_dir_active_latched|].
  apply bind_latched.
  - apply run_control_loop_latched, closed_loop_tick_latched.
  - intros u w3 tape3 _. cbn [final_world]. apply set_step_dir_active_latched.
Qed.

Lemma run_open_loop_control_loop_latched (tape : list Env) (w : World) :
  latched w (final_world (run_open_loop_control_loop tape w)).
Proof.
  unfold run_open_loop_control_loop. cbv zeta.
  set (w1 := set_step_dir_active _ w).
  apply (latched_trans w w1); [apply set_step_dir_active_latched|].
  apply bind_latched.
  - apply run_control_loop_latched, open_loop_tick_latched.
  - intros u w3 tape3 _. cbn [final_world]. apply set_step_dir_active_latched.
Qed.

Lemma idle_while_latched (fuel : nat) :
  forall tape w, latched w (final_world (idle_while fuel tape w)).
Proof.
  induction fuel as [|fuel IH]; intros tape w; cbn [idle_while];
    (destruct (negb _); cbn [final_world]; [apply latched_refl|]).
  - apply latched_refl.
  - apply bind_latched.
    + apply run_control_loop_latched. intros e l w0. apply latched_refl.
    + intros u w1 tape1 _. apply IH.
Qed.

Lemma run_idle_loop_latched (tape : list Env) (w : World) :
  latched w (final_world (run_idle_loop tape w)).
Proof.
  unfold run_idle_loop. cbv zeta.
  set (w1 := safety_critical_disarm_motor_pwm w).
  apply (latched_trans w w1); [apply latched_same; reflexivity|].
  apply bind_latched.
  - apply idle_while_latched.
  - intros u w3 tape3 _. apply latched_refl.
Qed.

Lemma motor_arm_latched (tape : list Env) (w : World) :
  latched w (final_world (motor_arm tape w)).
Proof.
  unfold motor_arm. destruct tape as [|e tape]; [apply latched_refl|].
  destruct (motor_arm_ok e); cbn [final_world]; apply latched_same;
    reflexivity.
Qed.

Lemma sub_task_latched (task : AxisState) (tape : list Env) (w : World) :
  latched w (final_world (sub_task task tape w)).
Proof.
  unfold sub_task. destruct tape as [|e tape]; [apply latched_refl|].
  cbn [final_world]. intros i Hi. cbn.
  rewrite Z.lor_spec, other_threads_error, Hi. reflexivity.
Qed.

Lemma dispatch_latched (tape : list Env) (w : World) :
  latched w (final_world (dispatch tape w)).
Proof.
  unfold dispatch, invalid_state.
  destruct (current_state_ (self w));
    repeat match goal with
           | |- context [if ?c then _ else _] => destruct c
           end;
    cbn [final_world];
    try apply latched_raise;
    try apply sub_task_latched;
    try apply run_lockin_spin_latched;
    try apply run_closed_loop_control_loop_latched;
    try apply run_open_loop_control_loop_latched.
  - apply bind_latched; [apply run_idle_loop_latched|].
    intros u w1 tape1 _. apply motor_arm_latched.
  - apply bind_latched; [apply run_lockin_spin_latched|].
    intros status w1 tape1 _. destruct status; [|apply latched_refl].
    cbv zeta. set (w2 := on_self _ w1).
    apply (latched_trans w1 w2); [apply latched_same; reflexivity|].
    apply run_sensorless_control_loop_latched.
Qed.

(** X11. Errors are latched.  The sub-components only add bits to [error_]
    (through [set_error]).  Then, whatever state the switch runs and however
    it ends, every bit of [error_] that was set before is set afterwards; and a
    whole round of the state machine can take away one thing only: the bits
    of [ERROR_INVALID_STATE], when it accepts a request.  So a round that
    starts with no request pending clears nothing. *)
Theorem errors_are_latched (tape : list Env) (w : World) (i : Z) :
  Z.testbit (error_ (self w)) i = true ->
  Z.testbit (error_ (self (final_world (dispatch tape w)))) i = true
  /\ (requested_state_ (self w) = AXIS_STATE_UNDEFINED
      \/ Z.testbit ERROR_INVALID_STATE i = false ->
      Z.testbit
        (error_ (self (final_world (state_machine_iteration tape w)))) i
      = true).
Proof.
  intros Hi. split; [apply dispatch_latched; exact Hi|].
  intros Hcase. unfold state_machine_iteration.
  destruct (load_task_chain (self w)) as [a|] eqn:Hload;
    [|cbn [final_world]; exact Hi].
  assert (Ha : Z.testbit (error_ a) i = true).
  { unfold load_task_chain in Hload.
    destruct (decide (requested_state_ (self w) ≠ AXIS_STATE_UNDEFINED))
      as [Hreq | Hnone].
    - destruct Hcase as [Hundef | Hmask]; [contradiction|].
      destruct (expand_request (self w)) as [cp|]; [|discriminate].
      cbn in Hload. injection Hload as <-. cbn.
      rewrite Z.land_spec, Z.lnot_spec, Hi, Hmask.
      + reflexivity.
      + destruct (Z.le_gt_cases 0 i) as [Hge | Hlt]; [exact Hge|].
        rewrite Z.testbit_neg_r in Hi by exact Hlt. discriminate.
    - injection Hload as <-. exact Hi. }
  set (w0 := on_self (fun _ => a) w).
  pose proof (dispatch_latched tape w0) as Hd.
  destruct (dispatch tape w0) as [status w1 tape1 | w1 | w1];
    cbn [bind final_world] in *.
  - unfold advance. destruct status; cbn; apply Hd; exact Ha.
  - apply Hd. exact Ha.
  - apply Hd. exact Ha.
Qed.

(** ** A latched error and the control loops *)

Lemma drive_calls_app (tr1 tr2 : list Event) :
  drive_calls (tr1 ++ tr2) = drive_calls tr1 ++ drive_calls tr2.
Proof. apply filter_app. Qed.

Lemma drive_calls_none (P : Event -> bool) (evs : list Event) :
  (forall ev, P ev = true -> update_event ev = false) ->
  forallb P evs = true -> drive_calls evs = [].
Proof.
  intros HP. induction evs as [|ev evs IH]; [reflexivity|].
  cbn [forallb]. intros Hev. apply andb_true_iff in Hev as [Hev Hrest].
  unfold drive_calls. rewrite filter_cons_False.
  - apply IH. exact Hrest.
  - rewrite (HP ev Hev). discriminate.
Qed.

Lemma framed_drive_calls (P : Event -> bool) (w w' : World) :
  (forall ev, P ev = true -> update_event ev = false) ->
  framed P w w' -> drive_calls (trace w') = drive_calls (trace w).
Proof.
  intros HP [(evs & Htr & Hev) _ _ _ _ _ _ _].
  rewrite Htr, drive_calls_app, (drive_calls_none P evs HP Hev).
  apply app_nil_r.
Qed.

Lemma scaffold_not_update (ev : Event) :
  scaffold_event ev = true -> update_event ev = false.
Proof. destruct ev; cbn; intros Hev; try discriminate; reflexivity. Qed.

Lemma gpio_not_update (ev : Event) :
  gpio_event ev = true -> update_event ev = false.
Proof. destruct ev; cbn; intros Hev; try discriminate; reflexivity. Qed.

Lemma set_step_dir_active_drive_calls (active : bool) (w : World) :
  drive_calls (trace (set_step_dir_active active w)) = drive_calls (trace w).
Proof.
  destruct (set_step_dir_active_trace active w) as (evs & Htr & Hev).
  rewrite Htr, drive_calls_app, (drive_calls_none _ evs gpio_not_update Hev).
  apply app_nil_r.
Qed.

Lemma assign_lockin_state_drive_calls (s : LockinState) (w : World) :
  drive_calls (trace (assign_lockin_state s w)) = drive_calls (trace w).
Proof.
  unfold assign_lockin_state, on_self, emit. cbn [trace].
  rewrite drive_calls_app. apply app_nil_r.
Qed.

Lemma latched_error (w w' : World) :
  latched w w' -> error_ (self w) <> 0 -> error_ (self w') <> 0.
Proof.
  intros Hl Hne. pose proof (latched_nonzero w w' Hl Hne) as Hc.
  unfold check_for_errors, ERROR_NONE in Hc. apply Z.eqb_neq. exact Hc.
Qed.

(** With an error latched the round ends before its tick body. *)
Lemma pre_tick_stops (e : Env) (w : World) :
  error_ (self w) <> 0 -> (pre_tick e w).1 = false.
Proof.
  intros Hne. unfold pre_tick.
  pose proof (wait_for_current_meas_latched e w) as H1.
  destruct (wait_for_current_meas e w) as [signalled w1]. cbn [snd] in H1.
  destruct (negb signalled && _); [reflexivity|].
  pose proof (do_updates_latched e w1) as H2.
  assert (Hok : (do_updates e w1).1 = check_for_errors (do_updates e w1).2)
    by reflexivity.
  destruct (do_updates e w1) as [ok w2]. cbn [fst snd] in *.
  rewrite Hok, (latched_nonzero w w2); [reflexivity | | exact Hne].
  eapply latched_trans; eassumption.
Qed.

(** So a control loop entered with an error latched takes one record and
    returns without having called its tick body. *)
Lemma run_control_loop_stops {L : Type} (body : TickBody L) (l : L)
    (e : Env) (tape : list Env) (w : World) :
  error_ (self w) <> 0 ->
  run_control_loop body l (e :: tape) w = Ok l (pre_tick e w).2 tape
  /\ error_ (self (pre_tick e w).2) <> 0
  /\ drive_calls (trace (pre_tick e w).2) = drive_calls (trace w).
Proof.
  intros Hne. split; [|split].
  - cbn [run_control_loop]. unfold control_loop_tick.
    pose proof (pre_tick_stops e w Hne) as Hgo.
    destruct (pre_tick e w) as [go w1]. cbn [fst snd] in *. subst go.
    reflexivity.
  - eapply latched_error; [apply pre_tick_latched | exact Hne].
  - eapply framed_drive_calls; [exact scaffold_not_update|].
    apply pre_tick_framed.
Qed.

(** X12. An axis with an error latched does not drive its motor.  Entered
    with [error_] other than 0, the sensorless, the closed-loop and the
    open-loop control loop each wait for one current measurement, return
    false and have called neither [controller_.update] nor
    [motor_.update]; the lock-in spin goes through its states in two or
    three such rounds, returns false and has not called [motor_.update]
    either. *)
Theorem latched_error_stops_control_loops
    (e e2 e3 : Env) (tape : list Env) (w : World) :
  error_ (self w) <> 0 ->
  (exists w', run_sensorless_control_loop (e :: tape) w = Ok false w' tape
              /\ drive_calls (trace w') = drive_calls (trace w))
  /\ (exists w', run_closed_loop_control_loop (e :: tape) w = Ok false w' tape
                 /\ drive_calls (trace w') = drive_calls (trace w))
  /\ (exists w', run_open_loop_control_loop (e :: tape) w = Ok false w' tape
                 /\ drive_calls (trace w') = drive_calls (trace w))
  /\ (exists w' tape',
         run_lockin_spin (e :: e2 :: e3 :: tape) w = Ok false w' tape'
         /\ (tape' = tape \/ tape' = e3 :: tape)
         /\ drive_calls (trace w') = drive_calls (trace w)).
Proof.
  intros Hne. split; [|split; [|split]].
  - unfold run_sensorless_control_loop.
    destruct (run_control_loop_stops sensorless_tick tt e tape w Hne)
      as (Hrun & Hne1 & Hcalls).
    rewrite Hrun. cbn [bind].
    eexists. split; [|exact Hcalls].
    f_equal. unfold check_for_errors, ERROR_NONE. apply Z.eqb_neq. exact Hne1.
  - unfold run_closed_loop_control_loop. cbv zeta.
    set (w1 := on_self _ w).
    set (w2 := set_step_dir_active _ w1).
    assert (Hne2 : error_ (self w2) <> 0).
    { subst w2.
      destruct (set_step_dir_active_self
                  (enable_step_dir (config_ (self w1))) w1) as [-> _].
      exact Hne. }
    destruct (run_control_loop_stops closed_loop_tick tt e tape w2 Hne2)
      as (Hrun & Hne3 & Hcalls).
    rewrite Hrun. cbn [bind].
    set (w3 := (pre_tick e w2).2) in *.
    destruct (set_step_dir_active_self false w3) as [Hself4 _].
    eexists. split.
    + f_equal. unfold check_for_errors, ERROR_NONE. rewrite Hself4.
      apply Z.eqb_neq. exact Hne3.
    + rewrite set_step_dir_active_drive_calls, Hcalls.
      subst w2. rewrite set_step_dir_active_drive_calls. reflexivity.
  - unfold run_open_loop_control_loop. cbv zeta.
    set (w2 := set_step_dir_active _ w).
    assert (Hne2 : error_ (self w2) <> 0).
    { subst w2.
      destruct (set_step_dir_active_self
                  (enable_step_dir (config_ (self w))) w) as [-> _].
      exact Hne. }
    destruct (run_control_loop_stops open_loop_tick tt e tape w2 Hne2)
      as (Hrun & Hne3 & Hcalls).
    rewrite Hrun. cbn [bind].
    set (w3 := (pre_tick e w2).2) in *.
    destruct (set_step_dir_active_self false w3) as [Hself4 _].
    eexists. split.
    + f_equal. unfold check_for_errors, ERROR_NONE. rewrite Hself4.
      apply Z.eqb_neq. exact Hne3.
    + rewrite set_step_dir_active_drive_calls, Hcalls.
      subst w2. rewrite set_step_dir_active_drive_calls. reflexivity.
  - unfold run_lockin_spin, lockin_spin_up. cbv zeta.
    set (w1 := assign_lockin_state LOCKIN_STATE_RAMP w).
    assert (Hne1 : error_ (self w1) <> 0) by exact Hne.
    destruct (run_control_loop_stops lockin_ramp_tick (f_of_Z 0) e
                (e2 :: e3 :: tape) w1 Hne1) as (Hrun1 & Hne2 & Hcalls2).
    rewrite Hrun1. cbn [bind].
    set (w2 := (pre_tick e w1).2) in *.
    set (w3 := assign_lockin_state LOCKIN_STATE_ACCELERATE w2).
    assert (Hne3 : error_ (self w3) <> 0) by exact Hne2.
    match goal with
    | |- context [run_control_loop lockin_accelerate_tick ?s _ w3] =>
      destruct (run_control_loop_stops lockin_accelerate_tick s e2
                  (e3 :: tape) w3 Hne3) as (Hrun3 & Hne4 & Hcalls4);
      rewrite Hrun3; set (s0 := s)
    end.
    cbn [bind]. set (w4 := (pre_tick e2 w3).2) in *.
    unfold lockin_spin_finish. cbv zeta.
    set (w5 := if negb (index_found_ (encoder_ (self w4)))
               then emit (EvSetIdxSubscribe true) w4 else w4).
    assert (H5 : error_ (self w5) <> 0
                 /\ drive_calls (trace w5) = drive_calls (trace w4)).
    { subst w5. destruct (negb _); split; try exact Hne4; try reflexivity.
      unfold emit. cbn [trace]. rewrite drive_calls_app. apply app_nil_r. }
    destruct H5 as [Hne5 Hcalls5].
    assert (Hcalls : drive_calls (trace w5) = drive_calls (trace w)).
    { rewrite Hcalls5, Hcalls4. unfold w3.
      rewrite assign_lockin_state_drive_calls, Hcalls2. unfold w1.
      apply assign_lockin_state_drive_calls. }
    clearbody w5.
    destruct (negb (spin_done false s0 w5)).
    + set (w6 := assign_lockin_state LOCKIN_STATE_CONST_VEL w5).
      assert (Hne6 : error_ (self w6) <> 0) by exact Hne5.
      match goal with
      | |- context [run_control_loop lockin_const_vel_tick ?s _ w6] =>
        destruct (run_control_loop_stops lockin_const_vel_tick s e3
                    tape w6 Hne6) as (Hrun6 & Hne7 & Hcalls7);
        rewrite Hrun6
      end.
      cbn [bind]. set (w7 := (pre_tick e3 w6).2) in *.
      eexists _, tape. split; [|split; [left; reflexivity|]].
      * f_equal. unfold check_for_errors, ERROR_NONE. apply Z.eqb_neq.
        exact Hne7.
      * rewrite assign_lockin_state_drive_calls, Hcalls7. unfold w6.
        rewrite assign_lockin_state_drive_calls. exact Hcalls.
    + cbn [bind].
      eexists _, (e3 :: tape). split; [|split; [right; reflexivity|]].
      * f_equal. unfold check_for_errors, ERROR_NONE. apply Z.eqb_neq.
        exact Hne5.
      * rewrite assign_lockin_state_drive_calls. exact Hcalls.
Qed.

(** ** Step/direction input around the control loops *)

(** The GPIO calls of [set_step_dir_active], pin by pin: a null pin is
    never called. *)
Lemma set_step_dir_active_calls (active : bool) (w : World) :
  trace (set_step_dir_active active w)
  = trace w
    ++ (if active
        then for_pin (dir_gpio_ (self w)) (fun p => [EvGpioInit p NO_PULL])
             ++ for_pin (step_gpio_ (self w))
                  (fun p => [EvGpioInit p PULL_DOWN; EvGpioSubscribe p])
        else for_pin (step_gpio_ (self w)) (fun p => [EvGpioDeinit p])
             ++ for_pin (dir_gpio_ (self w)) (fun p => [EvGpioDeinit p])).
Proof.
  unfold set_step_dir_active, gpio_deinit, for_pin.
  destruct w as [a this tr]. destruct a.
  destruct active; cbn;
    repeat match goal with
           | |- context [match ?g with Some _ => _ | None => _ end] =>
             is_var g; destruct g; cbn
           end;
    rewrite <- ?app_assoc, ?app_nil_r; reflexivity.
Qed.

(** What a control loop with step/direction input leaves behind. *)
Lemma step_dir_loop_exit (body : TickBody unit) (tape : list Env)
    (w0 : World) (st : bool) (w' : World) (tape' : list Env) :
  (forall e l w, framed loop_event w (body e l w).2) ->
  bind (run_control_loop body tt tape w0)
       (fun _ w tape =>
          let w := set_step_dir_active false w in
          Ok (check_for_errors w) w tape)
  = Ok st w' tape' ->
  step_dir_active_ (self w') = false
  /\ (forall dir_pin, step_cb dir_pin w' = Some w')
  /\ st = check_for_errors w'
  /\ exists evs,
      trace w'
      = trace w0 ++ evs
        ++ for_pin (step_gpio_ (self w')) (fun p => [EvGpioDeinit p])
        ++ for_pin (dir_gpio_ (self w')) (fun p => [EvGpioDeinit p])
      /\ forallb loop_event evs = true.
Proof.
  intros Hbody Hrun.
  pose proof (run_control_loop_framed loop_event body scaffold_loop_event
                Hbody tape tt w0) as Hfr.
  destruct (run_control_loop body tt tape w0) as [u w1 tape1 | w1 | w1];
    cbn [bind final_world] in *; try discriminate.
  change (Ok (check_for_errors (set_step_dir_active false w1))
             (set_step_dir_active false w1) tape1 = Ok st w' tape') in Hrun.
  destruct (set_step_dir_active_self false w1) as [Hself _].
  pose proof (set_step_dir_active_calls false w1) as Hcalls.
  remember (set_step_dir_active false w1) as w2 eqn:Hw2. clear Hw2.
  injection Hrun as <- <- <-.
  assert (Hoff : step_dir_active_ (self w2) = false)
    by (rewrite Hself; reflexivity).
  split; [exact Hoff|].
  split; [intros dir_pin; unfold step_cb; rewrite Hoff; reflexivity|].
  split; [reflexivity|].
  destruct Hfr as [(evs & Htr & Hev) _ _ _ _ _ _ _].
  exists evs. split; [|exact Hev].
  rewrite Hcalls, Htr, Hself, <- app_assoc. reflexivity.
Qed.

(** X13. Closed-loop and open-loop control switch the step/direction input
    on as configured and always off again.  When either loop returns,
    [step_dir_active_] is false, so a later pulse on the step pin changes
    nothing (and reads no pin), and the status returned is
    [check_for_errors()].  On the way in, with [enable_step_dir] the
    direction pin is initialised without pull and the step pin with
    pull-down and subscribed, each only if it is not null; without it the
    pins are de-initialised already then.  On the way out the last calls
    are the de-initialisation of the step pin and of the direction pin,
    again only of those that are not null; in between there are only the
    calls of the loop rounds. *)
Theorem control_loops_switch_step_dir_off
    (tape : list Env) (w : World) (st : bool) (w' : World)
    (tape' : list Env) :
  run_closed_loop_control_loop tape w = Ok st w' tape'
  \/ run_open_loop_control_loop tape w = Ok st w' tape' ->
  step_dir_active_ (self w') = false
  /\ (forall dir_pin, step_cb dir_pin w' = Some w')
  /\ st = check_for_errors w'
  /\ exists evs,
      trace w'
      = trace w
        ++ (if enable_step_dir (config_ (self w))
            then for_pin (dir_gpio_ (self w))
                   (fun p => [EvGpioInit p NO_PULL])
                 ++ for_pin (step_gpio_ (self w))
                      (fun p => [EvGpioInit p PULL_DOWN; EvGpioSubscribe p])
            else for_pin (step_gpio_ (self w)) (fun p => [EvGpioDeinit p])
                 ++ for_pin (dir_gpio_ (self w)) (fun p => [EvGpioDeinit p]))
        ++ evs
        ++ for_pin (step_gpio_ (self w')) (fun p => [EvGpioDeinit p])
        ++ for_pin (dir_gpio_ (self w')) (fun p => [EvGpioDeinit p])
      /\ forallb loop_event evs = true.
Proof.
  intros [Hrun | Hrun].
  - unfold run_closed_loop_control_loop in Hrun. cbv zeta in Hrun.
    set (w1 := on_self _ w) in Hrun.
    apply step_dir_loop_exit in Hrun; [|exact closed_loop_tick_framed].
    destruct Hrun as (Hoff & Hcb & Hst & evs & Htr & Hev).
    split; [exact Hoff|]. split; [exact Hcb|]. split; [exact Hst|].
    exists evs. split; [|exact Hev].
    rewrite Htr, set_step_dir_active_calls, <- app_assoc. reflexivity.
  - unfold run_open_loop_control_loop in Hrun. cbv zeta in Hrun.
    apply step_dir_loop_exit in Hrun; [|exact open_loop_tick_framed].
    destruct Hrun as (Hoff & Hcb & Hst & evs & Htr & Hev).
    split; [exact Hoff|]. split; [exact Hcb|]. split; [exact Hst|].
    exists evs. split; [|exact Hev].
    rewrite Htr, set_step_dir_active_calls, <- app_assoc. reflexivity.
Qed.

(** ** The constant-velocity state of the lock-in spin *)

Lemma commanded_scaffold (i v : float) (evs : list Event) :
  forallb scaffold_event evs = true -> Forall (commanded i v) evs.
Proof.
  induction evs as [|ev evs IH]; [constructor|].
  cbn [forallb]. intros Hev. apply andb_true_iff in Hev as [Hev Hrest].
  constructor; [|apply IH; exact Hrest].
  destruct ev; try discriminate; exact I.
Qed.

Lemma framed_commanded (i v : float) (w w' : World) :
  framed scaffold_event w w' ->
  exists evs, trace w' = trace w ++ evs /\ Forall (commanded i v) evs.
Proof.
  intros [(evs & Htr & Hev) _ _ _ _ _ _ _].
  exists evs. split; [exact Htr | apply commanded_scaffold; exact Hev].
Qed.

(** One round of the constant-velocity loop: the only call of
    [motor_.update] has the configured current and the velocity the round
    started with, and the velocity local is not written. *)
Lemma lockin_const_vel_round (e : Env) (s : Spin) (w : World) :
  let r := control_loop_tick lockin_const_vel_tick e s w in
  vel r.1.2 = vel s
  /\ config_ (self r.2) = config_ (self w)
  /\ exists evs,
      trace r.2 = trace w ++ evs
      /\ Forall (commanded (lockin_current (lockin (config_ (self w))))
                           (vel s)) evs.
Proof.
  cbv zeta. unfold control_loop_tick.
  pose proof (pre_tick_framed e w) as Hpre.
  pose proof (fr_config _ _ _ Hpre) as Hcfg1.
  destruct (framed_commanded (lockin_current (lockin (config_ (self w))))
              (vel s) _ _ Hpre) as (evs1 & Htr1 & Hev1).
  destruct (pre_tick e w) as [go w1]. cbn [fst snd] in *.
  destruct go; cbn [negb fst snd];
    [|split; [reflexivity|]; split; [exact Hcfg1|];
      exists evs1; split; assumption].
  unfold lockin_const_vel_tick, motor_update. cbv zeta.
  set (s1 := {| distance := _; phase := _; vel := vel s |}).
  set (w2 := raise_error (motor_update_errors e) (emit _ w1)).
  assert (Htr2 : exists evs,
             trace w2 = trace w ++ evs
             /\ Forall (commanded (lockin_current (lockin (config_ (self w))))
                                  (vel s)) evs).
  { eexists. subst w2. cbn [raise_error on_self emit trace].
    rewrite Htr1, <- app_assoc. split; [reflexivity|].
    apply Forall_app. split; [exact Hev1|].
    constructor; [|constructor]. cbn. rewrite Hcfg1. split; reflexivity. }
  assert (Hcfg2 : config_ (self w2) = config_ (self w)) by exact Hcfg1.
  clearbody w2.
  destruct (motor_update_ok e); cbn [negb fst snd];
    [|split; [reflexivity|]; split; [exact Hcfg2 | exact Htr2]].
  destruct (negb (spin_done false s1 w2)); cbn [negb fst snd].
  - pose proof (post_tick_framed e w2) as Hpost.
    pose proof (fr_config _ _ _ Hpost) as Hcfg3.
    destruct (framed_commanded
                (lockin_current (lockin (config_ (self w)))) (vel s) _ _ Hpost)
      as (evs3 & Htr3 & Hev3).
    destruct (post_tick e w2) as [go w3]. cbn [fst snd] in *.
    split; [reflexivity|]. split; [congruence|].
    destruct Htr2 as (evs2 & Htr2 & Hev2).
    exists (evs2 ++ evs3). split.
    + rewrite Htr3, Htr2, <- app_assoc. reflexivity.
    + apply Forall_app. split; assumption.
  - split; [reflexivity|]. split; [exact Hcfg2 | exact Htr2].
Qed.

Lemma lockin_const_vel_loop (tape : list Env) :
  forall (s : Spin) (w : World),
  exists evs,
    trace (final_world (run_control_loop lockin_const_vel_tick s tape w))
    = trace w ++ evs
    /\ Forall (commanded (lockin_current (lockin (config_ (self w))))
                         (vel s)) evs.
Proof.
  induction tape as [|e tape IH]; intros s w; cbn [run_control_loop].
  - exists []. split; [symmetry; apply app_nil_r | constructor].
  - destruct (lockin_const_vel_round e s w) as (Hvel & Hcfg & evs1 & Htr1 & Hev1).
    destruct (control_loop_tick lockin_const_vel_tick e s w) as [[c s1] w1].
    cbn [fst snd] in *.
    destruct c; cbn [final_world]; [|exists evs1; split; assumption].
    destruct (IH s1 w1) as (evs2 & Htr2 & Hev2).
    rewrite Hcfg, Hvel in Hev2.
    exists (evs1 ++ evs2). split.
    + rewrite Htr2, Htr1, <- app_assoc. reflexivity.
    + apply Forall_app. split; assumption.
Qed.

(** X14. From the end of the acceleration on, the lock-in spin commands the
    motor with exactly the configured values: every call of [motor_.update]
    made in the constant-velocity state has current [lockin.current] and
    velocity [lockin.vel], not the velocity the acceleration ended with,
    however many rounds the state lasts and however it ends. *)
Theorem lockin_const_vel_commands (s : Spin) (w : World) (tape : list Env) :
  exists evs,
    trace (final_world (lockin_spin_finish s w tape)) = trace w ++ evs
    /\ Forall (commanded (lockin_current (lockin (config_ (self w))))
                         (lockin_vel (lockin (config_ (self w))))) evs.
Proof.
  unfold lockin_spin_finish. cbv zeta.
  set (i := lockin_current (lockin (config_ (self w)))).
  set (v := lockin_vel (lockin (config_ (self w)))).
  set (w1 := if negb (index_found_ (encoder_ (self w)))
             then emit (EvSetIdxSubscribe true) w else w).
  assert (H1 : config_ (self w1) = config_ (self w)
               /\ exists evs, trace w1 = trace w ++ evs
                              /\ Forall (commanded i v) evs).
  { subst w1. destruct (negb _); (split; [reflexivity|]).
    - exists [EvSetIdxSubscribe true]. split; [reflexivity|].
      constructor; [exact I | constructor].
    - exists []. split; [symmetry; apply app_nil_r | constructor]. }
  destruct H1 as (Hcfg1 & evs1 & Htr1 & Hev1). clearbody w1.
  destruct (negb (spin_done false s w1)).
  - set (w2 := assign_lockin_state LOCKIN_STATE_CONST_VEL w1).
    set (s2 := {| distance := distance s; phase := phase s;
                  vel := lockin_vel (lockin (config_ (self w2))) |}).
    destruct (lockin_const_vel_loop tape s2 w2) as (evs2 & Htr2 & Hev2).
    assert (Hcfg2 : config_ (self w2) = config_ (self w)) by exact Hcfg1.
    cbn [vel s2] in Hev2. rewrite Hcfg2 in Hev2. fold i v in Hev2.
    destruct (run_control_loop lockin_const_vel_tick s2 tape w2)
      as [s3 w3 tape3 | w3 | w3]; cbn [bind final_world] in *.
    + exists (evs1 ++ [EvLockinState LOCKIN_STATE_CONST_VEL] ++ evs2
              ++ [EvLockinState LOCKIN_STATE_INACTIVE]).
      split.
      * unfold assign_lockin_state at 1. cbn [on_self emit trace].
        rewrite Htr2. unfold w2, assign_lockin_state.
        cbn [on_self emit trace]. rewrite Htr1, <- !app_assoc. reflexivity.
      * repeat (apply Forall_app; split); try assumption;
          (constructor; [exact I | constructor]).
    + exists (evs1 ++ [EvLockinState LOCKIN_STATE_CONST_VEL] ++ evs2).
      split.
      * rewrite Htr2. unfold w2, assign_lockin_state.
        cbn [on_self emit trace]. rewrite Htr1, <- !app_assoc. reflexivity.
      * repeat (apply Forall_app; split); try assumption;
          (constructor; [exact I | constructor]).
    + exists (evs1 ++ [EvLockinState LOCKIN_STATE_CONST_VEL] ++ evs2).
      split.
      * rewrite Htr2. unfold w2, assign_lockin_state.
        cbn [on_self emit trace]. rewrite Htr1, <- !app_assoc. reflexivity.
      * repeat (apply Forall_app; split); try assumption;
          (constructor; [exact I | constructor]).
  - cbn [bind final_world].
    exists (evs1 ++ [EvLockinState LOCKIN_STATE_INACTIVE]). split.
    + unfold assign_lockin_state. cbn [on_self emit trace].
      rewrite Htr1, <- app_assoc. reflexivity.
    + apply Forall_app. split; [exact Hev1|].
      constructor; [exact I | constructor].
Qed.

(** ** Leaving idle *)

(** X15. Idle is left only for a request, and the request decides what runs
    next.  A round that starts in [AXIS_STATE_IDLE] with no request pending
    and comes to its end leaves a request pending, whatever [motor_.arm()]
    returned; the next round then loads the tasks of that request over
    whatever the advance step left in the array, without writing past its
    end. *)
Theorem leaving_idle_takes_the_request
    (tape tape1 : list Env) (w w1 : World) :
  current_state_ (self w) = AXIS_STATE_IDLE ->
  requested_state_ (self w) = AXIS_STATE_UNDEFINED ->
  (6 <= length (task_chain_ (self w)))%nat ->
  state_machine_iteration tape w = Ok tt w1 tape1 ->
  requested_state_ (self w1) <> AXIS_STATE_UNDEFINED
  /\ exists a2,
      load_task_chain (self w1) = Some a2
      /\ chain_tasks (task_chain_ a2) = request_tasks (self w1)
      /\ requested_state_ a2 = AXIS_STATE_UNDEFINED.
Proof.
  intros Hidle Hreq Hlen Hiter.
  rewrite state_machine_iteration_no_request in Hiter by exact Hreq.
  pose proof (dispatch_kept tape w) as Hkept.
  unfold dispatch in Hiter, Hkept. rewrite Hidle in Hiter, Hkept.
  unfold run_idle_loop in Hiter, Hkept. cbv zeta in Hiter, Hkept.
  set (w0 := safety_critical_disarm_motor_pwm w) in *.
  destruct (idle_while_spec (S (length tape)) tape w0) as (_ & _ & Hleft).
  destruct (idle_while (S (length tape)) tape w0) as [u w2 tape2 | w2 | w2];
    cbn [bind] in Hiter, Hkept; try discriminate.
  specialize (Hleft u w2 tape2 eq_refl).
  pose proof (motor_arm_spec tape2 w2) as Harm.
  destruct (motor_arm tape2 w2) as [status w3 tape3 | w3 | w3];
    cbn [bind final_world] in Hiter, Hkept; try discriminate.
  destruct Harm as (_ & Hreq3 & _).
  injection Hiter as <- <-.
  assert (Hpending : requested_state_ (self (on_self (advance status) w3))
                     <> AXIS_STATE_UNDEFINED).
  { unfold advance. destruct status; cbn; rewrite Hreq3; exact Hleft. }
  split; [exact Hpending|].
  assert (Hlen3 : (6 <= length (task_chain_
                                  (self (on_self (advance status) w3))))%nat).
  { pose proof (kept_chain _ _ Hkept) as Hchain.
    unfold advance, set_current_state_. destruct status; cbn.
    - rewrite memmove_shift_length, Hchain. exact Hlen.
    - rewrite length_insert, Hchain. exact Hlen. }
  destruct (load_task_chain_tasks _ Hpending Hlen3)
    as (a2 & Hload & Htasks & _ & Hreq2 & _).
  exists a2. split; [exact Hload|]. split; [exact Htasks | exact Hreq2].
Qed.

(** ** The watchdog after a change of its settings *)

(** X16. [update_watchdog_settings] never causes an instant timeout.
    Whatever the configured timeout, the reset value it computes is within
    32 bits, the counter is refilled to it, and the check that follows
    passes without touching [error_]: either the watchdog is switched off
    or its counter is positive. *)
Theorem update_watchdog_settings_no_instant_timeout (w : World) :
  let w0 := update_watchdog_settings w in
  is_u32 (watchdog_reset_value_ (self w0))
  /\ watchdog_current_value_ (self w0) = watchdog_reset_value_ (self w0)
  /\ (watchdog_check w0).1 = true
  /\ error_ (self (watchdog_check w0).2) = error_ (self w).
Proof.
  cbv zeta. unfold update_watchdog_settings. cbv zeta.
  set (reset := if fleb _ _ then 0 else _).
  assert (Hrange : is_u32 reset).
  { subst reset. unfold is_u32, UINT32_MAX, u32.
    destruct (fleb _ (f_of_Z 0)); [lia|].
    destruct (fleb _ _); [lia|].
    match goal with
    | |- context [?z mod 2 ^ 32] =>
      pose proof (Z.mod_pos_bound z (2 ^ 32) ltac:(lia)); lia
    end. }
  clearbody reset.
  split; [exact Hrange|]. split; [reflexivity|].
  unfold watchdog_check, watchdog_feed. cbn [self on_self
    watchdog_reset_value_ watchdog_current_value_
    set_watchdog_reset_value_ set_watchdog_current_value_].
  unfold is_u32 in Hrange.
  destruct (Z.eqb_spec reset 0); [split; reflexivity|].
  destruct (Z.ltb_spec 0 reset); [split; reflexivity | lia].
Qed.

(** ** The task chain between rounds *)

Lemma chain_tasks_cons (t : AxisState) (c : list AxisState) :
  t <> AXIS_STATE_UNDEFINED -> chain_tasks (t :: c) = t :: chain_tasks c.
Proof.
  intros Ht. cbn [chain_tasks].
  rewrite bool_decide_eq_false_2 by exact Ht. reflexivity.
Qed.

Lemma chain_tasks_app_terminated (c l : list AxisState) :
  AXIS_STATE_UNDEFINED ∈ c -> chain_tasks (c ++ l) = chain_tasks c.
Proof.
  induction c as [|t c IH]; intros Hin; [inversion Hin|].
  cbn [app chain_tasks].
  destruct (bool_decide_reflect (t = AXIS_STATE_UNDEFINED)) as [_ | Ht];
    [reflexivity|].
  f_equal. apply IH. apply elem_of_cons in Hin as [Heq | Hin];
    [congruence | exact Hin].
Qed.

Lemma memmove_shift_cons {A : Type} (x : A) (c : list A) :
  memmove 0 1 (length (x :: c) - 1) (x :: c) = c ++ drop (length c) (x :: c).
Proof.
  unfold memmove. cbn [length Nat.sub Nat.add take drop app].
  rewrite Nat.sub_0_r, drop_0, firstn_all. reflexivity.
Qed.

(** A loaded request leaves a terminated chain. *)
Lemma load_task_chain_terminated (a a' : Axis) :
  requested_state_ a <> AXIS_STATE_UNDEFINED ->
  load_task_chain a = Some a' ->
  AXIS_STATE_UNDEFINED ∈ task_chain_ a'.
Proof.
  intros Hreq. unfold load_task_chain.
  destruct (decide (requested_state_ a ≠ AXIS_STATE_UNDEFINED));
    [|contradiction].
  destruct (expand_request a) as [[chain pos]|] eqn:Hexp; [|discriminate].
  cbn. intros [= <-]. cbn.
  unfold expand_request in Hexp. cbv zeta in Hexp.
  apply bind_Some in Hexp as ([c1 p1] & _ & Hstore).
  unfold store in Hstore.
  destruct (p1 <? length c1)%nat eqn:Hlt; [|discriminate].
  injection Hstore as <- <-.
  apply Nat.ltb_lt in Hlt.
  apply list_elem_of_lookup. exists p1.
  apply list_lookup_insert_eq. exact Hlt.
Qed.

(** Idle returns to the switch only with a request pending, whatever
    [motor_.arm()] says. *)
Lemma dispatch_idle_pending (tape tape' : list Env) (w w' : World)
    (status : bool) :
  current_state_ (self w) = AXIS_STATE_IDLE ->
  dispatch tape w = Ok status w' tape' ->
  requested_state_ (self w') <> AXIS_STATE_UNDEFINED.
Proof.
  intros Hidle. unfold dispatch. rewrite Hidle.
  unfold run_idle_loop. cbv zeta.
  set (w0 := safety_critical_disarm_motor_pwm w).
  destruct (idle_while_spec (S (length tape)) tape w0) as (_ & _ & Hleft).
  destruct (idle_while (S (length tape)) tape w0) as [u w2 tape2 | w2 | w2];
    cbn [bind]; try discriminate.
  specialize (Hleft u w2 tape2 eq_refl).
  pose proof (motor_arm_spec tape2 w2) as Harm.
  destruct (motor_arm tape2 w2) as [st w3 tape3 | w3 | w3]; try discriminate.
  destruct Harm as (_ & Hreq3 & _).
  intros [= _ <- _]. rewrite Hreq3. exact Hleft.
Qed.

(** One round keeps the invariant. *)
Lemma state_machine_iteration_chain_ends_in_idle
    (tape tape' : list Env) (w w' : World) :
  (6 <= length (task_chain_ (self w)))%nat ->
  chain_ends_in_idle (self w) ->
  state_machine_iteration tape w = Ok tt w' tape' ->
  chain_ends_in_idle (self w')
  /\ (6 <= length (task_chain_ (self w')))%nat
  /\ exists a1, load_task_chain (self w) = Some a1
                /\ current_state_ a1 <> AXIS_STATE_UNDEFINED.
Proof.
  intros Hlen Hinv Hiter.
  assert (Hloaded : exists a1,
             load_task_chain (self w) = Some a1
             /\ last (chain_tasks (task_chain_ a1)) = Some AXIS_STATE_IDLE
             /\ AXIS_STATE_UNDEFINED ∈ task_chain_ a1
             /\ length (task_chain_ a1) = length (task_chain_ (self w))).
  { destruct (decide (requested_state_ (self w) = AXIS_STATE_UNDEFINED))
      as [Hnone | Hreq].
    - destruct Hinv as [Hreq | [Hlast Hterm]]; [contradiction|].
      exists (self w). unfold load_task_chain.
      destruct (decide (requested_state_ (self w) ≠ AXIS_STATE_UNDEFINED));
        [contradiction|].
      repeat split; assumption.
    - destruct (load_task_chain_tasks (self w) Hreq Hlen)
        as (a1 & Hload & Htasks & Hlen1 & _).
      exists a1. split; [exact Hload|].
      split; [rewrite Htasks; apply request_tasks_last|].
      split; [|exact Hlen1].
      eapply load_task_chain_terminated; eassumption. }
  destruct Hloaded as (a1 & Hload & Hlast & Hterm & Hlen1).
  destruct (task_chain_ a1) as [|t1 c'] eqn:Hc1; [inversion Hterm|].
  assert (Ht1 : t1 <> AXIS_STATE_UNDEFINED).
  { intros ->. cbn in Hlast. discriminate. }
  assert (Hterm' : AXIS_STATE_UNDEFINED ∈ c').
  { apply elem_of_cons in Hterm as [Heq | Hin]; [congruence | exact Hin]. }
  rewrite chain_tasks_cons in Hlast by exact Ht1.
  unfold state_machine_iteration in Hiter. rewrite Hload in Hiter.
  set (w0 := on_self (fun _ => a1) w) in Hiter.
  pose proof (dispatch_kept tape w0) as Hkept.
  destruct (dispatch tape w0) as [status w2 tape2 | w2 | w2] eqn:Hdisp;
    cbn [bind final_world] in *; try discriminate.
  injection Hiter as <- <-.
  pose proof (kept_chain _ _ Hkept) as Hchain. cbn in Hchain.
  rewrite Hc1 in Hchain.
  split; [|split].
  - destruct status.
    + destruct (chain_tasks c') as [|t2 rest] eqn:Hrest.
      * left. cbn in Hlast. injection Hlast as ->.
        unfold advance. cbn.
        eapply dispatch_idle_pending; [|exact Hdisp].
        unfold current_state_. cbn. rewrite Hc1. reflexivity.
      * right. unfold advance. cbn. rewrite Hchain, memmove_shift_cons.
        rewrite chain_tasks_app_terminated by exact Hterm'.
        split; [rewrite Hrest; exact Hlast|].
        apply elem_of_app. left. exact Hterm'.
    + right. unfold advance, set_current_state_. cbn. rewrite Hchain. cbn.
      split; [|apply elem_of_cons; right; exact Hterm'].
      destruct (chain_tasks c') as [|t2 rest]; [reflexivity | exact Hlast].
  - unfold advance, set_current_state_. destruct status; cbn; rewrite Hchain.
    + rewrite memmove_shift_length. cbn [length].
      cbn [length] in Hlen1. lia.
    + rewrite length_insert. cbn [length].
      cbn [length] in Hlen1. lia.
  - exists a1. split; [exact Hload|].
    unfold current_state_. rewrite Hc1. exact Ht1.
Qed.

(** X17. The state machine never runs off the end of its task chain.  If a
    request is pending, or the tasks still to run end with
    [AXIS_STATE_IDLE] before a terminating [AXIS_STATE_UNDEFINED], then the
    same holds after any number of rounds, in an array of the same length,
    whether the tasks succeed or fail; and the state the next round
    dispatches is never [AXIS_STATE_UNDEFINED]. *)
Theorem chain_always_ends_in_idle (rounds : nat) :
  forall (tape tape' : list Env) (w w' : World),
    (6 <= length (task_chain_ (self w)))%nat ->
    chain_ends_in_idle (self w) ->
    state_machine_rounds rounds tape w = Ok tt w' tape' ->
    chain_ends_in_idle (self w')
    /\ length (task_chain_ (self w')) = length (task_chain_ (self w))
    /\ exists a1, load_task_chain (self w') = Some a1
                  /\ current_state_ a1 <> AXIS_STATE_UNDEFINED.
Proof.
  induction rounds as [|rounds IH]; intros tape tape' w w' Hlen Hinv;
    cbn [state_machine_rounds].
  - intros [= <- <-]. split; [exact Hinv|]. split; [reflexivity|].
    destruct (decide (requested_state_ (self w) = AXIS_STATE_UNDEFINED))
      as [Hnone | Hreq].
    + destruct Hinv as [Hreq | [Hlast Hterm]]; [contradiction|].
      exists (self w). unfold load_task_chain.
      destruct (decide (requested_state_ (self w) ≠ AXIS_STATE_UNDEFINED));
        [contradiction|].
      split; [reflexivity|].
      unfold current_state_.
      destruct (task_chain_ (self w)) as [|t c]; [inversion Hterm|].
      cbn. intros ->. cbn in Hlast. discriminate.
    + destruct (load_task_chain_tasks (self w) Hreq Hlen)
        as (a1 & Hload & Htasks & _).
      exists a1. split; [exact Hload|].
      pose proof (request_tasks_last (self w)) as Hlast.
      rewrite <- Htasks in Hlast. unfold current_state_.
      destruct (task_chain_ a1) as [|t c]; [discriminate|].
      cbn. intros ->. cbn in Hlast. discriminate.
  - destruct (state_machine_iteration tape w) as [[] w1 tape1 | w1 | w1]
      eqn:Hiter; cbn [bind]; try discriminate.
    intros Hrest.
    destruct (state_machine_iteration_chain_ends_in_idle _ _ _ _
                Hlen Hinv Hiter) as (Hinv1 & Hlen1 & _).
    assert (Hsame : length (task_chain_ (self w1))
                    = length (task_chain_ (self w))).
    { destruct (load_task_chain (self w)) as [a1|] eqn:Hload.
      - destruct (state_machine_iteration_chain _ _ _ _ _ Hload Hiter)
          as (status & Hchain).
        rewrite Hchain.
        assert (Hl1 : length (task_chain_ a1) = length (task_chain_ (self w))).
        { unfold load_task_chain in Hload.
          destruct (decide (requested_state_ (self w) ≠ AXIS_STATE_UNDEFINED))
            as [Hreq | Hnone]; [|injection Hload as <-; reflexivity].
          destruct (load_task_chain_tasks (self w) Hreq Hlen)
            as (a2 & Hload2 & _ & Hlen2 & _).
          unfold load_task_chain in Hload2.
          destruct (decide (requested_state_ (self w) ≠ AXIS_STATE_UNDEFINED));
            [|contradiction].
          rewrite Hload in Hload2. injection Hload2 as <-. exact Hlen2. }
        unfold advance, set_current_state_. destruct status; cbn.
        + rewrite memmove_shift_length. exact Hl1.
        + rewrite length_insert. exact Hl1.
      - unfold state_machine_iteration in Hiter. rewrite Hload in Hiter.
        discriminate. }
    destruct (IH _ _ _ _ Hlen1 Hinv1 Hrest) as (Hinv' & Hlen' & Hnext).
    split; [exact Hinv'|]. split; [congruence | exact Hnext].
Qed.

End Properties.

(* ================================================================== *)
(** * The theorems at work on the example board *)

(** A run that returned is the result it is read as. *)
Lemma Res_ok_eq {F : FloatOps} {A : Type} (d : A) (r : Res A) :
  is_ok r = true -> r = Ok (returned d r) (final_world r) (tape_left r).
Proof. destruct r; [reflexivity | discriminate | discriminate]. Qed.

(** Closes [a = b], [b] a boolean or a list of plain data, by evaluating
    [a]. *)
Ltac by_lazy := lazy; reflexivity.

(** Closes [a = b] between closed terms by evaluating both sides. *)
Ltac by_evaluation :=
  match goal with
  | |- _ = ?b => vm_cast_no_check (eq_refl b)
  end.



(** Accepting the request clears bit 0 of [error_ = 5] and keeps bit 2. *)
Lemma accepted_request_clears_witness :
  requested_state_ request_axis <> AXIS_STATE_UNDEFINED
  /\ (6 <= length (task_chain_ request_axis))%nat
  /\ exists a',
       load_task_chain request_axis = Some a'
       /\ requested_state_ a' = AXIS_STATE_UNDEFINED
       /\ Z.testbit (error_ a') 0 = false
       /\ Z.testbit (error_ a') 2 = true.
Proof.
  assert (Hreq : requested_state_ request_axis <> AXIS_STATE_UNDEFINED)
    by discriminate.
  assert (Hlen : (6 <= length (task_chain_ request_axis))%nat)
    by (cbn; lia).
  split; [exact Hreq|]. split; [exact Hlen|].
  destruct (accepted_request_clears request_axis Hreq Hlen)
    as (a' & Hload & Hslot & Hclear & Hkeep).
  exists a'. split; [exact Hload|]. split; [exact Hslot|]. split.
  - apply Hclear. reflexivity.
  - rewrite Hkeep; reflexivity.
Defined.

(** Motor calibration and closed-loop control switched on (sensorless
    too, which closed-loop overrides): the chain is MOTOR_CALIBRATION,
    CLOSED_LOOP_CONTROL, IDLE, UNDEFINED. *)
Lemma startup_sequence_expansion_witness :
  requested_state_ startup_axis = AXIS_STATE_STARTUP_SEQUENCE
  /\ (6 <= length (task_chain_ startup_axis))%nat
  /\ exists a',
       load_task_chain startup_axis = Some a'
       /\ take 4 (task_chain_ a')
          = [AXIS_STATE_MOTOR_CALIBRATION; AXIS_STATE_CLOSED_LOOP_CONTROL;
             AXIS_STATE_IDLE; AXIS_STATE_UNDEFINED].
Proof.
  assert (Hlen : (6 <= length (task_chain_ startup_axis))%nat)
    by (cbn; lia).
  split; [reflexivity|]. split; [exact Hlen|].
  destruct (startup_sequence_expansion startup_axis eq_refl Hlen)
    as (a' & Hload & (Hfront & _) & _).
  exists a'. split; [exact Hload | exact Hfront].
Defined.



(** Position control is code 3 on the example board: the tick is rejected. *)
Lemma sensorless_rejects_position_control_witness :
  CTRL_MODE_POSITION_CONTROL
  <= control_mode (controller_ (self (world_of position_axis)))
  /\ sensorless_tick quiet tt (world_of position_axis)
     = (false, tt,
        raise_error ERROR_POS_CTRL_DURING_SENSORLESS (world_of position_axis))
  /\ exists w',
       run_sensorless_control_loop [quiet] (world_of position_axis)
       = Ok false w' []
       /\ error_ (self w') = 1024.
Proof.
  assert (Hmode : CTRL_MODE_POSITION_CONTROL
                  <= control_mode (controller_ (self (world_of position_axis))))
    by (cbn; lia).
  split; [exact Hmode|].
  destruct (sensorless_rejects_position_control quiet
              (world_of position_axis) Hmode)
    as (Htick & _ & _ & Hloop).
  split; [exact Htick|].
  destruct (Hloop []) as (status & w' & evs & Hrun & _ & _ & Hreached).
  destruct (Hreached eq_refl) as (Herr & Hstatus).
  rewrite Hstatus in Hrun by discriminate.
  exists w'. split; [exact Hrun|]. rewrite Herr. reflexivity.
Defined.

(** The sibling is at rest: the phase-locked tick is refused and the round
    ends in idle.  With the sibling in open-loop control at a phase
    setpoint of 1 rad, the tick takes that setpoint over. *)
Lemma open_loop_phase_locked_witness :
  motor_phase_locked (motor_ (self (world_of phase_locked_axis))) = true
  /\ open_loop_tick quiet tt (world_of phase_locked_axis)
     = (false, tt, raise_error ERROR_INVALID_STATE (world_of phase_locked_axis))
  /\ (exists w',
        state_machine_iteration [quiet] (world_of phase_locked_axis)
        = Ok tt w' []
        /\ current_state_ (self w') = AXIS_STATE_IDLE)
  /\ this (phase_setpoint_
             (motor_ (self (open_loop_tick sibling_in_open_loop tt
                              (world_of phase_locked_axis)).2)))
     = 1%Q.
Proof.
  pose proof (open_loop_phase_locked quiet (world_of phase_locked_axis)
                eq_refl) as [Hrest _].
  pose proof (open_loop_phase_locked sibling_in_open_loop
                (world_of phase_locked_axis) eq_refl) as [_ Hcopy].
  split; [reflexivity|].
  destruct Hrest as [Htick Hround]; [discriminate|].
  split; [exact Htick|]. split.
  - destruct (Hround []) as (w' & Hiter & Hidle & _);
      try reflexivity; try discriminate.
    exists w'. split; [exact Hiter | exact Hidle].
  - destruct Hcopy as (Hphase & _); [reflexivity|].
    rewrite Hphase. reflexivity.
Defined.



(** The ramp distance of 8 rad over a ramp time of 1/2000 s gives 16000
    rad/s at the start of the acceleration; one round at 16000 rad/s^2
    reaches the lockin velocity of 16002 rad/s, on which the spin is set to
    finish: the constant-velocity state is skipped. *)
Lemma lockin_const_vel_skipped_witness :
  let w := world_of example_axis in
  let s := returned spin_at_rest (lockin_spin_up spin_tape w) in
  let w1 := final_world (lockin_spin_up spin_tape w) in
  let tape1 := tape_left (lockin_spin_up spin_tape w) in
  lockin_spin_up spin_tape w = Ok s w1 tape1
  /\ this (vel s) = 16002%Q
  /\ spin_done false s w1 = true
  /\ exists w2,
       run_lockin_spin spin_tape w = Ok (check_for_errors w2) w2 tape1
       /\ lockin_history (trace w2)
          = [LOCKIN_STATE_RAMP; LOCKIN_STATE_ACCELERATE;
             LOCKIN_STATE_INACTIVE].
Proof.
  intros w s w1 tape1.
  assert (Hok : is_ok (lockin_spin_up spin_tape w) = true) by by_lazy.
  assert (Hup : lockin_spin_up spin_tape w = Ok s w1 tape1)
    by exact (Res_ok_eq spin_at_rest (lockin_spin_up spin_tape w) Hok).
  assert (Hdone : spin_done false s w1 = true) by by_lazy.
  split; [exact Hup|]. split; [by_lazy|]. split; [exact Hdone|].
  destruct (lockin_const_vel_skipped _ _ _ _ _ Hup Hdone)
    as (w2 & Hrun & _ & _ & Hhist & _).
  exists w2. split; [exact Hrun | exact Hhist].
Defined.



(** A round of the state machine that returned is the result it is read
    as. *)
Lemma Res_ok_unit {F : FloatOps} (r : Res unit) :
  is_ok r = true -> r = Ok tt (final_world r) (tape_left r).
Proof. destruct r as [[] ? ? | |]; [reflexivity | discriminate | discriminate]. Qed.

(** A watchdog of ten ticks, fed, then checked twelve times: ten checks
    pass, two fail, and bit 2048 is raised. *)
Lemma watchdog_expires_after_reset_value_witness :
  let r := watchdog_checks 12 (watchdog_feed (world_of watchdog_axis)) in
  watchdog_reset_value_ (self (world_of watchdog_axis)) = Z.of_nat 10
  /\ r.1 = replicate 10 true ++ replicate 2 false
  /\ error_ (self r.2) = 2048.
Proof.
  intros r.
  assert (Hmax : Z.of_nat 10 <= UINT32_MAX) by (unfold UINT32_MAX; lia).
  destruct (watchdog_expires_after_reset_value 10 2 (world_of watchdog_axis)
              eq_refl ltac:(lia) Hmax) as (Hoks & _ & Herr).
  split; [reflexivity|]. split; [exact Hoks | exact Herr].
Defined.

(** The watchdog of ten ticks under a timeout of 0: the update switches it
    off, and five checks pass. *)
Lemma nonpositive_timeout_disables_watchdog_witness :
  let w0 := update_watchdog_settings (world_of watchdog_axis) in
  Qc_leb (watchdog_timeout (config_ watchdog_axis)) (Qc_of_Z 0) = true
  /\ watchdog_reset_value_ (self (world_of watchdog_axis)) = 10
  /\ watchdog_reset_value_ (self w0) = 0
  /\ (watchdog_checks 5 w0).1 = replicate 5 true.
Proof.
  intros w0.
  assert (Htimeout : Qc_leb (watchdog_timeout (config_ watchdog_axis))
                            (Qc_of_Z 0) = true) by by_lazy.
  destruct (nonpositive_timeout_disables_watchdog 5 (world_of watchdog_axis)
              Htimeout) as (Hreset & _ & Hoks & _).
  split; [exact Htimeout|]. split; [reflexivity|].
  split; [exact Hreset | exact Hoks].
Defined.

(** The full calibration sequence on an encoder without index: motor
    calibration, offset calibration, idle. *)
Lemma request_expansion_witness :
  requested_state_ calibration_axis <> AXIS_STATE_UNDEFINED
  /\ (6 <= length (task_chain_ calibration_axis))%nat
  /\ exists a',
       load_task_chain calibration_axis = Some a'
       /\ chain_tasks (task_chain_ a')
          = [AXIS_STATE_MOTOR_CALIBRATION;
             AXIS_STATE_ENCODER_OFFSET_CALIBRATION; AXIS_STATE_IDLE].
Proof.
  assert (Hreq : requested_state_ calibration_axis <> AXIS_STATE_UNDEFINED)
    by discriminate.
  assert (Hlen : (6 <= length (task_chain_ calibration_axis))%nat)
    by (cbn; lia).
  split; [exact Hreq|]. split; [exact Hlen|].
  destruct (request_expansion calibration_axis Hreq Hlen)
    as (a' & Hload & _ & _ & Hfull & _).
  exists a'. split; [exact Hload|]. exact (Hfull eq_refl).
Defined.

(** Closed-loop control with a motor direction of 0: refused, nothing is
    read from the tape, bit 1 is raised and the axis goes to idle. *)
Lemma unknown_direction_is_refused_witness :
  let w := world_of undirected_axis in
  motor_direction (motor_ (self w)) = 0
  /\ needs_direction (current_state_ (self w)) = true
  /\ exists w',
       state_machine_iteration [quiet] w = Ok tt w' [quiet]
       /\ current_state_ (self w') = AXIS_STATE_IDLE
       /\ error_ (self w') = 1.
Proof.
  intros w.
  destruct (unknown_direction_is_refused [quiet] w eq_refl
              (or_introl eq_refl)) as (_ & Hround).
  destruct (Hround eq_refl) as (w' & Hiter & Hidle & _ & Herr).
  split; [reflexivity|]. split; [reflexivity|].
  exists w'. split; [exact Hiter|]. split; [exact Hidle|].
  rewrite Herr. reflexivity.
Defined.

(** Closed-loop control with the encoder not ready: refused. *)
Lemma unready_or_composite_state_is_refused_witness :
  let w := world_of unready_axis in
  (0 < length (task_chain_ (self w)))%nat
  /\ current_state_ (self w) = AXIS_STATE_CLOSED_LOOP_CONTROL
  /\ is_ready_ (encoder_ (self w)) = false
  /\ exists w',
       state_machine_iteration [quiet] w = Ok tt w' [quiet]
       /\ current_state_ (self w') = AXIS_STATE_IDLE
       /\ error_ (self w') = 1.
Proof.
  intros w.
  assert (Hlen : (0 < length (task_chain_ (self w)))%nat) by (cbn; lia).
  destruct (unready_or_composite_state_is_refused [quiet] w Hlen
              (or_introl (conj eq_refl eq_refl))) as (_ & Hround).
  destruct (Hround eq_refl) as (w' & Hiter & Hidle & _ & Herr).
  split; [exact Hlen|]. split; [reflexivity|]. split; [reflexivity|].
  exists w'. split; [exact Hiter|]. split; [exact Hidle|].
  rewrite Herr. reflexivity.
Defined.

(** Closed-loop control requested with the over-voltage error latched: the
    loop fails in its first round, and two idle states are left. *)
Lemma single_request_ends_in_idle_witness :
  let r := state_machine_iteration [quiet] (world_of request_axis) in
  let w' := final_world r in
  single_task (requested_state_ (self (world_of request_axis))) = true
  /\ r = Ok tt w' (tape_left r)
  /\ current_state_ (self w') = AXIS_STATE_IDLE
  /\ chain_tasks (task_chain_ (self w'))
     = [AXIS_STATE_IDLE; AXIS_STATE_IDLE].
Proof.
  intros r w'.
  assert (Hok : is_ok r = true) by by_lazy.
  assert (Hrun : r = Ok tt w' (tape_left r)) by exact (Res_ok_unit r Hok).
  assert (Hlen : (6 <= length (task_chain_ (self (world_of request_axis))))%nat)
    by (cbn; lia).
  destruct (single_request_ends_in_idle [quiet] (tape_left r)
              (world_of request_axis) w' eq_refl Hlen Hrun)
    as (a1 & status & w2 & _ & _ & _ & _ & Hidle & _).
  split; [reflexivity|]. split; [exact Hrun|]. split; [exact Hidle|].
  by_lazy.
Defined.

(** The spin of the example board returns true with [lockin_state_] back
    at INACTIVE. *)
Lemma lockin_spin_always_resets_witness :
  let r := run_lockin_spin spin_tape (world_of example_axis) in
  let status := returned false r in
  let w' := final_world r in
  r = Ok status w' (tape_left r)
  /\ lockin_state_ (self w') = LOCKIN_STATE_INACTIVE
  /\ status = check_for_errors w'
  /\ status = true.
Proof.
  intros r status w'.
  assert (Hok : is_ok r = true) by by_lazy.
  assert (Hrun : r = Ok status w' (tape_left r))
    by exact (Res_ok_eq false r Hok).
  destruct (lockin_spin_always_resets spin_tape (tape_left r)
              (world_of example_axis) w' status Hrun)
    as (Hstate & Hstatus & _).
  split; [exact Hrun|]. split; [exact Hstate|]. split; [exact Hstatus|].
  by_lazy.
Defined.

(** Without finish conditions the spin of the example board stays at
    constant velocity until idle is requested. *)
Lemma lockin_without_finish_condition_witness :
  let w := world_of endless_axis in
  let lk := lockin (config_ (self w)) in
  let r := run_lockin_spin endless_tape w in
  let status := returned false r in
  let w' := final_world r in
  lockin_finish_on_vel lk = false
  /\ lockin_finish_on_distance lk = false
  /\ lockin_finish_on_enc_idx lk = false
  /\ r = Ok status w' (tape_left r)
  /\ requested_state_ (self w') = AXIS_STATE_IDLE
  /\ lockin_history (trace w')
     = [LOCKIN_STATE_RAMP; LOCKIN_STATE_ACCELERATE;
        LOCKIN_STATE_CONST_VEL; LOCKIN_STATE_INACTIVE].
Proof.
  intros w lk r status w'.
  assert (Hok : is_ok r = true) by by_lazy.
  assert (Hrun : r = Ok status w' (tape_left r))
    by exact (Res_ok_eq false r Hok).
  destruct (lockin_without_finish_condition endless_tape (tape_left r) w w'
              status eq_refl eq_refl eq_refl) as (_ & _ & Hhist).
  split; [reflexivity|]. split; [reflexivity|]. split; [reflexivity|].
  split; [exact Hrun|]. split; [by_lazy|].
  specialize (Hhist Hrun).
  assert (Hempty : length (trace w) = 0%nat) by reflexivity.
  rewrite Hempty, drop_0 in Hhist. exact Hhist.
Defined.

(** The disarmed motor of the example board: in closed-loop control the
    check raises bit 32 and fails; in idle it passes. *)
Lemma motor_disarmed_is_tolerated_in_idle_only_witness :
  is_armed_ (motor_ (self (world_of disarmed_axis))) = false
  /\ is_armed_ (motor_ (self (world_of disarmed_idle_axis))) = false
  /\ (do_checks quiet (world_of disarmed_axis)).1 = false
  /\ Z.land (error_ (self (do_checks quiet (world_of disarmed_axis)).2)) 32
     = 32
  /\ (do_checks quiet (world_of disarmed_idle_axis)).1 = true.
Proof.
  destruct (motor_disarmed_is_tolerated_in_idle_only quiet
              (world_of disarmed_axis) eq_refl) as (Hraised & _).
  destruct (motor_disarmed_is_tolerated_in_idle_only quiet
              (world_of disarmed_idle_axis) eq_refl) as (_ & Hidle).
  destruct Hraised as (Hbit & Hfails); [discriminate|].
  destruct Hidle as (Hpass & _);
    [reflexivity | reflexivity | reflexivity | by_lazy | by_lazy
    | reflexivity |].
  split; [reflexivity|]. split; [reflexivity|].
  split; [apply Hfails; discriminate|].
  split; [exact Hbit | exact Hpass].
Defined.

(** Bits 0 and 2 latched and closed-loop control requested: the round
    keeps bit 2, the over-voltage error, and takes away bit 0, the invalid
    state error, only. *)
Lemma errors_are_latched_witness :
  let w := world_of request_axis in
  let w' := final_world (state_machine_iteration [quiet] w) in
  Z.testbit (error_ (self w)) 2 = true
  /\ Z.testbit ERROR_INVALID_STATE 2 = false
  /\ Z.testbit (error_ (self w')) 2 = true
  /\ Z.testbit (error_ (self w')) 0 = false.
Proof.
  intros w w'.
  destruct (errors_are_latched [quiet] w 2 eq_refl) as (_ & Hround).
  split; [reflexivity|]. split; [reflexivity|].
  split; [exact (Hround (or_intror eq_refl))|].
  by_lazy.
Defined.

(** With bits 0 and 2 latched the closed-loop control loop returns false
    after one record, and neither the controller nor the motor was
    called. *)
Lemma latched_error_stops_control_loops_witness :
  let w := world_of request_axis in
  error_ (self w) <> 0
  /\ exists w',
       run_closed_loop_control_loop [quiet] w = Ok false w' []
       /\ drive_calls (trace w') = [].
Proof.
  intros w.
  assert (Hne : error_ (self w) <> 0) by discriminate.
  destruct (latched_error_stops_control_loops quiet quiet quiet [] w Hne)
    as (_ & (w' & Hrun & Hcalls) & _).
  split; [exact Hne|].
  exists w'. split; [exact Hrun | exact Hcalls].
Defined.

(** One round of closed-loop control, then idle is requested: the loop
    returns with step/direction input off, and a step pulse is ignored. *)
Lemma control_loops_switch_step_dir_off_witness :
  let r := run_closed_loop_control_loop short_tape (world_of example_axis) in
  let status := returned false r in
  let w' := final_world r in
  r = Ok status w' (tape_left r)
  /\ step_dir_active_ (self w') = false
  /\ step_cb true w' = Some w'
  /\ length (drive_calls (trace w')) = 4%nat.
Proof.
  intros r status w'.
  assert (Hok : is_ok r = true) by by_lazy.
  assert (Hrun : r = Ok status w' (tape_left r))
    by exact (Res_ok_eq false r Hok).
  destruct (control_loops_switch_step_dir_off short_tape
              (world_of example_axis) status w' (tape_left r)
              (or_introl Hrun))
    as (Hoff & Hcb & _).
  split; [exact Hrun|]. split; [exact Hoff|]. split; [exact (Hcb true)|].
  by_lazy.
Defined.

(** Idle left for closed-loop control although arming failed: the next
    round loads closed-loop control and idle. *)
Lemma leaving_idle_takes_the_request_witness :
  let w := world_of idle_axis in
  let r := state_machine_iteration idle_tape w in
  let w1 := final_world r in
  current_state_ (self w) = AXIS_STATE_IDLE
  /\ requested_state_ (self w) = AXIS_STATE_UNDEFINED
  /\ r = Ok tt w1 (tape_left r)
  /\ requested_state_ (self w1) = AXIS_STATE_CLOSED_LOOP_CONTROL
  /\ exists a2,
       load_task_chain (self w1) = Some a2
       /\ chain_tasks (task_chain_ a2)
          = [AXIS_STATE_CLOSED_LOOP_CONTROL; AXIS_STATE_IDLE].
Proof.
  intros w r w1.
  assert (Hok : is_ok r = true) by by_lazy.
  assert (Hrun : r = Ok tt w1 (tape_left r)) by exact (Res_ok_unit r Hok).
  assert (Hlen : (6 <= length (task_chain_ (self w)))%nat) by (cbn; lia).
  assert (Htasks : request_tasks (self w1)
                   = [AXIS_STATE_CLOSED_LOOP_CONTROL; AXIS_STATE_IDLE])
    by by_lazy.
  destruct (leaving_idle_takes_the_request idle_tape (tape_left r) w w1
              eq_refl eq_refl Hlen Hrun)
    as (_ & a2 & Hload & Hchain & _).
  split; [reflexivity|]. split; [reflexivity|]. split; [exact Hrun|].
  split; [by_lazy|].
  exists a2. split; [exact Hload|]. rewrite Hchain. exact Htasks.
Defined.

(** The full calibration sequence requested and its first task failing:
    after the round no request is pending, and the tasks left (idle, the
    offset calibration, idle) end with idle; the next round dispatches
    idle. *)
Lemma chain_always_ends_in_idle_witness :
  let w := world_of calibration_axis in
  let r := state_machine_rounds 1 [failing_task] w in
  let w' := final_world r in
  (6 <= length (task_chain_ (self w)))%nat
  /\ chain_ends_in_idle (self w)
  /\ r = Ok tt w' (tape_left r)
  /\ chain_ends_in_idle (self w')
  /\ requested_state_ (self w') = AXIS_STATE_UNDEFINED
  /\ length (task_chain_ (self w')) = 10%nat
  /\ exists a1, load_task_chain (self w') = Some a1
                /\ current_state_ a1 <> AXIS_STATE_UNDEFINED.
Proof.
  intros w r w'.
  assert (Hlen : (6 <= length (task_chain_ (self w)))%nat) by (cbn; lia).
  assert (Hinv : chain_ends_in_idle (self w)) by (left; discriminate).
  assert (Hok : is_ok r = true) by by_lazy.
  assert (Hrun : r = Ok tt w' (tape_left r)) by exact (Res_ok_unit r Hok).
  destruct (chain_always_ends_in_idle 1 [failing_task] (tape_left r) w w'
              Hlen Hinv Hrun) as (Hinv' & Hlen' & Hnext).
  split; [exact Hlen|]. split; [exact Hinv|]. split; [exact Hrun|].
  split; [exact Hinv'|]. split; [by_lazy|].
  split; [rewrite Hlen'; reflexivity | exact Hnext].
Defined.
